(** * A data cleaning and feature transformation pipeline (demo.py)

    The program is glue code over pandas, scikit-learn, requests and
    pyspellchecker.  The embedding below has three layers:

    - the values the program handles: cells, rows, data frames with their
      row labels (the pandas index), and the text functions used on cells;
    - the library operations the program calls, each written as a function
      on frames after the behaviour the library documents;
    - the program itself: its functions are written statement by statement
      in a state and error monad whose state is the heap of frame objects and
      the standard output, because Python variables hold references and two
      of the statements assign into a frame in place. *)

From Stdlib Require Import ZArith List String Ascii Bool Lia.
From Stdlib Require Import Floats Uint63 Permutation DecimalString.
From Stdlib Require OrderedTypeEx Reals Lra.
Import ListNotations.

Set Warnings "-register-all".

Local Open Scope string_scope.
Local Open Scope Z_scope.
Local Open Scope list_scope.

(** ** Exceptions and results *)

Inductive exn : Type :=
| KeyError (key : string)
| ValueError (msg : string)
| TypeError (msg : string)
| AttributeError (msg : string)
| InvalidIndexError
| ReferenceError.

Inductive result (A : Type) : Type :=
| Ok (a : A)
| Raise (e : exn).

Arguments Ok {A} a.
Arguments Raise {A} e.

Definition rbind {A B : Type} (r : result A) (k : A -> result B) : result B :=
  match r with
  | Ok a => k a
  | Raise e => Raise e
  end.

Fixpoint mapM {A B : Type} (f : A -> result B) (l : list A) : result (list B) :=
  match l with
  | [] => Ok []
  | x :: t => rbind (f x) (fun y => rbind (mapM f t) (fun ys => Ok (y :: ys)))
  end.

(** ** Text

    Cell text is modelled as a string of 8-bit characters.  [is_space] is
    what [str.split()] and the regular expression class [\s] take for
    whitespace in that range. *)

Definition is_space (c : ascii) : bool :=
  let n := nat_of_ascii c in
  ((9 <=? n) && (n <=? 13) || (28 <=? n) && (n <=? 32)
   || (n =? 133) || (n =? 160))%nat.

Definition is_alnum (c : ascii) : bool :=
  let n := nat_of_ascii c in
  ((48 <=? n) && (n <=? 57) || (65 <=? n) && (n <=? 90)
   || (97 <=? n) && (n <=? 122))%nat.

(** [x.split()]: the maximal runs of non-whitespace characters. *)
Fixpoint words (cur : list ascii) (l : list ascii) : list (list ascii) :=
  match l with
  | [] => match cur with [] => [] | _ => [rev cur] end
  | c :: t =>
      if is_space c
      then match cur with [] => words [] t | _ => rev cur :: words [] t end
      else words (c :: cur) t
  end.

Definition split (s : string) : list string :=
  map string_of_list_ascii (words [] (list_ascii_of_string s)).

(** [sep.join(l)]. *)
Definition join (sep : string) (l : list string) : string := String.concat sep l.

(** [re.sub(r'[^A-Za-z0-9\s]+', '', x)]: every character that is not a
    letter, a digit or whitespace is removed. *)
Definition re_sub_unwanted (s : string) : string :=
  string_of_list_ascii
    (filter (fun c => is_alnum c || is_space c) (list_ascii_of_string s)).

(** ** Cells, rows and frames *)

Inductive dtype : Type := Int64 | Float64 | Object.

Inductive value : Type :=
| VInt (z : Z)
| VFloat (x : float)
| VStr (s : string)
| VNone.

Definition row : Type := list value.

(** [pd.isna] / [pd.notnull] on one cell. *)
Definition isna (v : value) : bool :=
  match v with
  | VFloat x => PrimFloat.is_nan x
  | VNone => true
  | _ => false
  end.

Definition notnull (v : value) : bool := negb (isna v).

(** Equality of cells as [duplicated] sees it: by value, two missing floats
    being equal. *)
Definition value_eqb (a b : value) : bool :=
  match a, b with
  | VInt x, VInt y => Z.eqb x y
  | VFloat x, VFloat y =>
      PrimFloat.eqb x y || (PrimFloat.is_nan x && PrimFloat.is_nan y)
  | VStr x, VStr y => String.eqb x y
  | VNone, VNone => true
  | _, _ => false
  end.

Fixpoint row_eqb (a b : row) : bool :=
  match a, b with
  | [], [] => true
  | x :: a', y :: b' => value_eqb x y && row_eqb a' b'
  | _, _ => false
  end.

Definition dtype_eqb (a b : dtype) : bool :=
  match a, b with
  | Int64, Int64 | Float64, Float64 | Object, Object => true
  | _, _ => false
  end.

(** A frame: the columns with their dtype, and the rows, each under its
    label.  A loader labels the rows 0, 1, 2, ...; the operations that drop
    or reorder rows keep each surviving row under its label. *)
Record DataFrame : Type := mkDataFrame {
  columns : list (string * dtype);
  rows : list (Z * row)
}.

Definition index (df : DataFrame) : list Z := map fst (rows df).
Definition values (df : DataFrame) : list row := map snd (rows df).
Definition column_names (df : DataFrame) : list string := map fst (columns df).

(** [range(n)] as labels, starting at [start]. *)
Fixpoint RangeIndex (start : Z) (n : nat) : list Z :=
  match n with
  | O => []
  | S k => start :: RangeIndex (start + 1) k
  end.

(** The frame a loader builds from a table: default labels. *)
Definition from_rows (cols : list (string * dtype)) (rs : list row) : DataFrame :=
  mkDataFrame cols (combine (RangeIndex 0 (List.length rs)) rs).

(** What a cell of a column of a given dtype can be. *)
Definition cell_ok (dt : dtype) (v : value) : bool :=
  match dt, v with
  | Int64, VInt _ => true
  | Float64, VFloat _ => true
  | Object, VStr _ => true
  | Object, VNone => true
  | _, _ => false
  end.

Fixpoint row_ok (dts : list dtype) (r : row) : bool :=
  match dts, r with
  | [], [] => true
  | dt :: dts', v :: r' => cell_ok dt v && row_ok dts' r'
  | _, _ => false
  end.

Definition well_typed (df : DataFrame) : Prop :=
  Forall (fun r => row_ok (map snd (columns df)) r = true) (values df).

(** ** pandas operations used by the Cleaner *)

(** [drop_duplicates()], keep='first': a row goes when an earlier kept row
    equals it; the others stay in order, under their labels. *)
Fixpoint dedup (seen : list row) (l : list (Z * row)) : list (Z * row) :=
  match l with
  | [] => []
  | (i, r) :: t =>
      if existsb (fun s => row_eqb s r) seen
      then dedup seen t
      else (i, r) :: dedup (seen ++ [r]) t
  end.

Definition drop_duplicates (df : DataFrame) : DataFrame :=
  mkDataFrame (columns df) (dedup [] (rows df)).

(** [dropna()]: the rows with no missing cell. *)
Definition complete (r : row) : bool := forallb notnull r.

Definition dropna (df : DataFrame) : DataFrame :=
  mkDataFrame (columns df) (filter (fun ir => complete (snd ir)) (rows df)).

(** [select_dtypes(include=...).columns]. *)
Definition select_dtypes (include : list dtype) (df : DataFrame) : list string :=
  map fst (filter (fun c => existsb (dtype_eqb (snd c)) include) (columns df)).

(** [data[col] = data[col].apply(f)] on the rows: [f] runs on the cell of
    every column called [col]; the first exception [f] raises ends it. *)
Fixpoint apply_cells (f : value -> result value) (col : string)
    (cols : list (string * dtype)) (r : row) : result row :=
  match cols, r with
  | (n, _) :: cols', v :: r' =>
      rbind (if String.eqb n col then f v else Ok v) (fun v' =>
      rbind (apply_cells f col cols' r') (fun r'' => Ok (v' :: r'')))
  | _, _ => Ok r
  end.

Definition apply_column (f : value -> result value) (col : string)
    (df : DataFrame) : result DataFrame :=
  if existsb (String.eqb col) (column_names df)
  then rbind (mapM (fun ir => rbind (apply_cells f col (columns df) (snd ir))
                                (fun r => Ok (fst ir, r))) (rows df))
             (fun rs => Ok (mkDataFrame (columns df) rs))
  else Raise (KeyError col).

(** ** The heap of frames and the monad of the program

    A Python variable holds a reference to a frame object.  [new] is what an
    operation returning a fresh frame does, [assign] is an assignment into an
    existing frame.  An exception leaves the world as it was when raised. *)

Inductive output : Type :=
| Line (s : string)
| Table (df : DataFrame).

Definition ref : Type := nat.

Record world : Type := mkWorld {
  heap : list DataFrame;
  stdout : list output
}.

Definition M (A : Type) : Type := world -> result A * world.

Definition ret {A : Type} (a : A) : M A := fun w => (Ok a, w).

Definition bind {A B : Type} (m : M A) (k : A -> M B) : M B :=
  fun w =>
    match m w with
    | (Ok a, w') => k a w'
    | (Raise e, w') => (Raise e, w')
    end.

Notation "x <- c ;; k" := (bind c (fun x => k))
  (at level 61, c at next level, right associativity).
Notation "c ;;; k" := (bind c (fun _ => k))
  (at level 61, right associativity).

Definition raise {A : Type} (e : exn) : M A := fun w => (Raise e, w).

Definition lift {A : Type} (r : result A) : M A := fun w => (r, w).

Fixpoint set_nth {A : Type} (n : nat) (x : A) (l : list A) : list A :=
  match n, l with
  | _, [] => []
  | O, _ :: t => x :: t
  | S k, y :: t => y :: set_nth k x t
  end.

Definition new (df : DataFrame) : M ref :=
  fun w => (Ok (List.length (heap w)), mkWorld (heap w ++ [df]) (stdout w)).

Definition deref (r : ref) : M DataFrame :=
  fun w =>
    match nth_error (heap w) r with
    | Some d => (Ok d, w)
    | None => (Raise ReferenceError, w)
    end.

Definition assign (r : ref) (df : DataFrame) : M unit :=
  fun w => (Ok tt, mkWorld (set_nth r df (heap w)) (stdout w)).

Definition print (o : output) : M unit :=
  fun w => (Ok tt, mkWorld (heap w) (stdout w ++ [o])).

Fixpoint for_each {A : Type} (l : list A) (body : A -> M unit) : M unit :=
  match l with
  | [] => ret tt
  | x :: t => body x ;;; for_each t body
  end.

(** [data[col] = data[col].apply(f)], on the object [data] refers to. *)
Definition setitem_apply (data : ref) (col : string)
    (f : value -> result value) : M unit :=
  d <- deref data ;;
  d' <- lift (apply_column f col d) ;;
  assign data d'.

(** ** The Cleaner *)

Section Cleaner.

(** [SpellChecker().correction]: the dictionary is the library's. *)
Variable correction : string -> option string.

Definition correct_text (x : string) : string :=
  join " " (map (fun word => match correction word with
                             | Some c => c
                             | None => word
                             end) (split x)).

(** The two lambdas of [clean_data]; a cell that is not missing and is
    not text has no [split] and is no argument for [re.sub]. *)
Definition spell_lambda (x : value) : result value :=
  if notnull x
  then match x with
       | VStr s => Ok (VStr (correct_text s))
       | _ => Raise (AttributeError "split")
       end
  else Ok x.

Definition strip_lambda (x : value) : result value :=
  if notnull x
  then match x with
       | VStr s => Ok (VStr (re_sub_unwanted s))
       | _ => Raise (TypeError "expected string or bytes-like object")
       end
  else Ok x.

Definition clean_data (data : ref) : M ref :=
  d <- deref data ;;
  data <- new (drop_duplicates d) ;;
  d <- deref data ;;
  data <- new (dropna d) ;;
  d <- deref data ;;
  for_each (select_dtypes [Object] d)
           (fun col => setitem_apply data col spell_lambda) ;;;
  d <- deref data ;;
  for_each (select_dtypes [Object] d)
           (fun col => setitem_apply data col strip_lambda) ;;;
  ret data.

End Cleaner.

(** ** The Cleaner as a function on frames

    What the passes of [clean_data] compute on a frame whose cells have the
    type of their column, read cell by cell. *)

Definition cell_text (f : string -> string) (v : value) : value :=
  match v with
  | VStr s => VStr (f s)
  | _ => v
  end.

(** [f] on the text of every cell of a textual column. *)
Fixpoint text_cells (f : string -> string) (cols : list (string * dtype))
    (r : row) : row :=
  match cols, r with
  | (_, dt) :: cols', v :: r' =>
      match dt with
      | Object => cell_text f v
      | _ => v
      end :: text_cells f cols' r'
  | _, _ => r
  end.

(** [f] on the text of every cell whose column is named in [names]. *)
Fixpoint sel_cells (f : string -> string) (names : list string)
    (cols : list (string * dtype)) (r : row) : row :=
  match cols, r with
  | (n, _) :: cols', v :: r' =>
      (if existsb (String.eqb n) names then cell_text f v else v)
      :: sel_cells f names cols' r'
  | _, _ => r
  end.

Definition map_rows (g : row -> row) (df : DataFrame) : DataFrame :=
  mkDataFrame (columns df) (map (fun ir => (fst ir, g (snd ir))) (rows df)).

Definition well_formed (df : DataFrame) : Prop :=
  NoDup (column_names df) /\ well_typed df.

Section CleanerFrames.

Variable correction : string -> option string.

Definition clean_text (x : string) : string :=
  re_sub_unwanted (correct_text correction x).

(** The text normalisation of one row: spelling, then unwanted characters. *)
Definition normalise_row (cols : list (string * dtype)) (r : row) : row :=
  text_cells clean_text cols r.

Definition clean_frame (df : DataFrame) : DataFrame :=
  map_rows (normalise_row (columns df)) (dropna (drop_duplicates df)).

End CleanerFrames.

(** The lambdas agree with [cell_text] on the cells of a textual column. *)
Definition lambda_reads (lam : value -> result value) (f : string -> string) : Prop :=
  forall v, cell_ok Object v = true -> lam v = Ok (cell_text f v).

(** ** Calling a function of the program on one frame

    [run_frame m df] calls [m] with a reference to [df], in a heap that
    holds [df] alone, and reads the frame the returned reference points to. *)

Definition run_frame (m : ref -> M ref) (df : DataFrame) : result DataFrame :=
  match m 0%nat (mkWorld [df] []) with
  | (Ok r, w') =>
      match nth_error (heap w') r with
      | Some d => Ok d
      | None => Raise ReferenceError
      end
  | (Raise e, _) => Raise e
  end.

(** ** What the claims speak of *)

(** No row has a missing cell. *)
Definition no_missing (df : DataFrame) : Prop :=
  Forall (fun r => complete r = true) (values df).

(** No row equals an earlier row. *)
Definition no_duplicates (df : DataFrame) : Prop :=
  ForallOrdPairs (fun a b => row_eqb (snd a) (snd b) = false) (rows df).

(** No column is textual. *)
Definition no_text (df : DataFrame) : Prop := select_dtypes [Object] df = [].

(** A spell checker that knows every word it is asked about:
    [correction] returns a known word itself. *)
Definition all_known (word : string) : option string := Some word.

(** Two fruit names that differ in their spacing only. *)
Definition fruit_frame : DataFrame :=
  from_rows [("fruit", Object)] [[VStr "red  apple"]; [VStr "red apple"]].

(** Rows A, B, A where A has text the Cleaner rewrites. *)
Definition aba_frame : DataFrame :=
  from_rows [("fruit", Object)]
            [[VStr "red  apple"]; [VStr "pear"]; [VStr "red  apple"]].

(** A dataset of numbers with a repeated row. *)
Definition numbers_frame : DataFrame :=
  from_rows [("n", Int64)] [[VInt 1]; [VInt 1]; [VInt 2]].

(** ** The Sorter

    [sort_values(by, ascending)] with the defaults kind='quicksort' and
    na_position='last'.  pandas keeps the rows whose key is missing apart
    and puts them last; the others are handed to numpy's [argsort]; for a
    descending sort they are reversed before and after.  The library
    documents the default kind as one that need not be stable; [argsort]
    is a parameter of the Sorter, and [numpy_argsort] below is the one the
    program runs with. *)

(** The order of keys within a column. *)
Definition value_ltb (a b : value) : bool :=
  match a, b with
  | VInt x, VInt y => Z.ltb x y
  | VFloat x, VFloat y => PrimFloat.ltb x y
  | VStr x, VStr y => String.ltb x y
  | _, _ => false
  end.

(** Position of a column. *)
Fixpoint column_pos (name : string) (cols : list (string * dtype)) : option nat :=
  match cols with
  | [] => None
  | (n, _) :: t =>
      if String.eqb n name then Some O
      else match column_pos name t with
           | Some p => Some (S p)
           | None => None
           end
  end.

Definition cell (p : nat) (ir : Z * row) : value := nth p (snd ir) VNone.

(** The elements of [l] at the positions [js], in the order of [js]. *)
Definition select {A : Type} (l : list A) (js : list nat) : list A :=
  flat_map (fun j => match nth_error l j with
                     | Some x => [x]
                     | None => []
                     end) js.

(** [argsort] returns the indices that would sort the keys. *)
Definition sorts (argsort : list value -> list nat) (ks : list value) : Prop :=
  Permutation (argsort ks) (seq 0 (List.length ks)) /\
  ForallOrdPairs (fun a b => value_ltb b a = false) (select ks (argsort ks)).

Section Sorter.

Variable argsort : list value -> list nat.

(** The rows with a key, in the order in which their keys go to [argsort]. *)
Definition present_rows (p : nat) (ascending : bool) (rs : list (Z * row))
  : list (Z * row) :=
  let present := filter (fun ir => notnull (cell p ir)) rs in
  if ascending then present else rev present.

Definition sort_rows (p : nat) (ascending : bool) (rs : list (Z * row))
  : list (Z * row) :=
  let present := present_rows p ascending rs in
  let sorted := select present (argsort (map (cell p) present)) in
  (if ascending then sorted else rev sorted)
  ++ filter (fun ir => isna (cell p ir)) rs.

Definition sort_values (df : DataFrame) (by_ : string) (ascending : bool)
  : result DataFrame :=
  match column_pos by_ (columns df) with
  | Some p => Ok (mkDataFrame (columns df) (sort_rows p ascending (rows df)))
  | None => Raise (KeyError by_)
  end.

(** [ascending] is [True] when the caller leaves it out, as the one call of
    the program does. *)
Definition sort_data (data : ref) (column_name : string) (ascending : bool) : M ref :=
  d <- deref data ;;
  d' <- lift (sort_values d column_name ascending) ;;
  new d'.

End Sorter.

(** The keys [sort_values] hands to [argsort]. *)
Definition sort_keys (df : DataFrame) (by_ : string) (ascending : bool) : list value :=
  match column_pos by_ (columns df) with
  | Some p => map (cell p) (present_rows p ascending (rows df))
  | None => []
  end.

(** The rows with a given key are in the order they had. *)
Definition ties_kept (p : nat) (input output : list (Z * row)) : Prop :=
  forall k, filter (fun ir => value_eqb (cell p ir) k) output
            = filter (fun ir => value_eqb (cell p ir) k) input.

(** numpy's generic quicksort, which is what sorts an array of Python
    objects such as the texts of a column: a part of at most 17 elements is
    sorted by insertion, an element moving left past the strictly greater
    ones.  A longer array is partitioned first; that is not modelled (the
    insertion goes on), so that for more than 17 keys the order of equal
    keys is not numpy's. *)
Fixpoint insert_index (ks : list value) (j : nat) (sorted : list nat) : list nat :=
  match sorted with
  | [] => [j]
  | i :: t =>
      if value_ltb (nth j ks VNone) (nth i ks VNone)
      then j :: i :: t
      else i :: insert_index ks j t
  end.

Definition insertion_argsort (ks : list value) : list nat :=
  fold_left (fun sorted j => insert_index ks j sorted) (seq 0 (List.length ks)) [].

(** Two people of the same name. *)
Definition names_frame : DataFrame :=
  from_rows [("name", Object); ("age", Int64)]
            [[VStr "kim"; VInt 31]; [VStr "kim"; VInt 27]; [VStr "ann"; VInt 40]].

(** ** The Validator *)

(** [data[column_name]]: the cells of one column. *)
Definition getitem (df : DataFrame) (column_name : string) : result (list value) :=
  match column_pos column_name (columns df) with
  | Some p => Ok (map (cell p) (rows df))
  | None => Raise (KeyError column_name)
  end.

(** The float64 nearest to an integer (ties to even), which is what the
    conversion of an int64 column to float64 gives. *)
Definition float_of_Z (z : Z) : float :=
  SF2Prim (SpecFloat.binary_normalize prec emax z 0 false).

(** [s.isin(valid_values)] on one cell.  An integer and a float are compared
    as floats, so that 1 is found among [1.0]. *)
Definition isin_eqb (x v : value) : bool :=
  match x, v with
  | VInt a, VFloat b => PrimFloat.eqb (float_of_Z a) b
  | VFloat a, VInt b => PrimFloat.eqb a (float_of_Z b)
  | _, _ => value_eqb x v
  end.

Definition isin (valid_values : list value) (v : value) : bool :=
  existsb (fun x => isin_eqb x v) valid_values.

(** [data[mask]]: the rows where the mask holds. *)
Definition getitem_mask (df : DataFrame) (mask : list bool) : DataFrame :=
  mkDataFrame (columns df)
              (map fst (filter (fun rm => snd rm) (combine (rows df) mask))).

(** [df.empty]. *)
Definition empty (df : DataFrame) : bool :=
  match rows df, columns df with
  | [], _ => true
  | _, [] => true
  | _, _ => false
  end.

Definition check_domain_constraints (data : ref) (column_name : string)
    (valid_values : list value) : M unit :=
  d <- deref data ;;
  s <- lift (getitem d column_name) ;;
  invalid_values <-
    new (getitem_mask d (map (fun v => negb (isin valid_values v)) s)) ;;
  iv <- deref invalid_values ;;
  if negb (empty iv)
  then print (Line ("Invalid values found in column '" ++ column_name ++ "':")) ;;;
       print (Table iv)
  else print (Line ("No domain constraint problems found in column '"
                    ++ column_name ++ "'.")).

(** ** The API loader *)

(** What [response.json()] can return. *)
Inductive json : Type :=
| JNull
| JBool (b : bool)
| JNum (z : Z)
| JStr (s : string)
| JArr (items : list json)
| JObj (fields : list (string * json)).

(** A response: [body] is [None] when the text is not JSON, and then
    [response.json()] raises [requests.exceptions.JSONDecodeError], which is a
    [RequestException]. *)
Record response : Type := mkResponse {
  status_code : Z;
  text : string;
  body : option json
}.

(** How [requests.get(url, timeout=10)] ends. *)
Inductive get_outcome : Type :=
| TimedOut
| RequestFailed (message : string)
| Responded (r : response).

(** ['data' in data]. *)
Definition contains (data : json) (key : string) : result bool :=
  match data with
  | JObj fields => Ok (existsb (fun kv => String.eqb (fst kv) key) fields)
  | JArr items =>
      Ok (existsb (fun x => match x with
                            | JStr s => String.eqb s key
                            | _ => false
                            end) items)
  | JStr s =>
      Ok (match String.index 0%nat key s with Some _ => true | None => false end)
  | _ => Raise (TypeError "argument is not iterable")
  end.

(** [data['data']]. *)
Definition json_getitem (data : json) (key : string) : result json :=
  match data with
  | JObj fields =>
      match find (fun kv => String.eqb (fst kv) key) fields with
      | Some kv => Ok (snd kv)
      | None => Raise (KeyError key)
      end
  | _ => Raise (TypeError "indices must be integers")
  end.

Definition str_of_Z (z : Z) : string := NilEmpty.string_of_int (Z.to_int z).

Section Loader.

(** The network, and the frame constructor [pd.DataFrame] on a JSON value
    (it raises on a value that is no table). *)
Variable requests_get : string -> Z -> get_outcome.
Variable pd_DataFrame : json -> result DataFrame.

Definition load_api (api_url : string) : M (option ref) :=
  match requests_get api_url 10 with
  | Responded response =>
      if status_code response =? 200
      then match body response with
           | Some data =>
               has_data <- lift (contains data "data") ;;
               if has_data
               then v <- lift (json_getitem data "data") ;;
                    df <- lift (pd_DataFrame v) ;;
                    r <- new df ;;
                    ret (Some r)
               else print (Line "Unexpected response structure") ;;;
                    ret None
           | None =>
               print (Line "An error occurred: Expecting value") ;;;
               ret None
           end
      else print (Line ("Request failed with status code: "
                        ++ str_of_Z (status_code response))) ;;;
           print (Line (text response)) ;;;
           ret None
  | TimedOut =>
      print (Line "The request timed out") ;;;
      ret None
  | RequestFailed e =>
      print (Line ("An error occurred: " ++ e)) ;;;
      ret None
  end.

End Loader.

(** ** The Transformer: scikit-learn and pandas operations *)

Local Open Scope float_scope.

Definition is_numeric (dt : dtype) : bool :=
  match dt with
  | Object => false
  | _ => true
  end.

Definition float_of_nat (n : nat) : float :=
  PrimFloat.of_uint63 (Uint63.of_Z (Z.of_nat n)).

(** A cell as an entry of the float64 array scikit-learn works on. *)
Definition to_float (v : value) : result float :=
  match v with
  | VInt z => Ok (float_of_Z z)
  | VFloat x => Ok x
  | VNone => Ok nan
  | VStr _ => Raise (ValueError "could not convert string to float")
  end.

(** [np.sum] down a column of float64.  numpy adds fewer than 8 numbers one
    after the other; up to 128 numbers it keeps 8 running sums, of every
    eighth number each, adds these up two by two and then adds the numbers
    left over; a longer column is cut in two, the first part a multiple of
    8, and the sums of the parts are added.  (Whether a sum that is zero
    comes out as 0.0 or -0.0 is left aside.) *)
Definition tree8 (r : list float) : float :=
  match r with
  | [r0; r1; r2; r3; r4; r5; r6; r7] =>
      ((r0 + r1) + (r2 + r3)) + ((r4 + r5) + (r6 + r7))
  | _ => fold_left PrimFloat.add r 0
  end.

Fixpoint add_lanes (r a : list float) : list float :=
  match r, a with
  | x :: r', y :: a' => (x + y) :: add_lanes r' a'
  | _, _ => r
  end.

Fixpoint lanes8 (groups : nat) (r xs : list float) : list float * list float :=
  match groups with
  | O => (r, xs)
  | S g => lanes8 g (add_lanes r (firstn 8 xs)) (skipn 8 xs)
  end.

Definition block_sum (xs : list float) : float :=
  let (r, rest) := lanes8 (List.length xs / 8 - 1) (firstn 8 xs) (skipn 8 xs) in
  fold_left PrimFloat.add rest (tree8 r).

Fixpoint pairwise_sum (fuel : nat) (xs : list float) : float :=
  let n := List.length xs in
  if (n <? 8)%nat then fold_left PrimFloat.add xs 0
  else if (n <=? 128)%nat then block_sum xs
  else match fuel with
       | O => block_sum xs
       | S f =>
           let n2 := (n / 2 - (n / 2) mod 8)%nat in
           pairwise_sum f (firstn n2 xs) + pairwise_sum f (skipn n2 xs)
       end.

Definition np_sum (xs : list float) : float :=
  0 + pairwise_sum (List.length xs) xs.

Local Close Scope float_scope.

(** ** The scaler's arithmetic

    [StandardScaler] computes in float64.  Its formula is written once,
    over the operations it uses, and read twice: over float64, which is
    what the program computes, and over the real numbers, which is the
    arithmetic that float64 approximates. *)
Record arithmetic (T : Type) : Type := mkArithmetic {
  a_of_nat : nat -> T;
  a_add : T -> T -> T;
  a_sub : T -> T -> T;
  a_mul : T -> T -> T;
  a_div : T -> T -> T;
  a_sqrt : T -> T;
  a_leb : T -> T -> bool;
  a_isnan : T -> bool;
  a_sum : list T -> T;
  a_eps : T
}.

Arguments a_of_nat {T} _ _.
Arguments a_add {T} _ _ _.
Arguments a_sub {T} _ _ _.
Arguments a_mul {T} _ _ _.
Arguments a_div {T} _ _ _.
Arguments a_sqrt {T} _ _.
Arguments a_leb {T} _ _ _.
Arguments a_isnan {T} _ _.
Arguments a_sum {T} _ _.
Arguments a_eps {T} _.

Section Scaler.

Context {T : Type} (A : arithmetic T).

(** [StandardScaler] on one column, as [_incremental_mean_and_var] and
    [_is_constant_feature] compute it: missing entries count as 0 in the
    sums and are left out of the count, the variance is the population
    variance by the corrected two-pass formula, and a column that is
    constant up to rounding gets scale 1. *)
Definition nansum_in (xs : list T) : T :=
  a_sum A (map (fun x => if a_isnan A x then a_of_nat A 0 else x) xs).

Definition count_in (xs : list T) : T :=
  a_of_nat A (List.length (filter (fun x => negb (a_isnan A x)) xs)).

Definition mean_in (xs : list T) : T := a_div A (nansum_in xs) (count_in xs).

Definition variance_in (xs : list T) : T :=
  let temp := map (fun x => a_sub A x (mean_in xs)) xs in
  let correction := nansum_in temp in
  a_div A
    (a_sub A (nansum_in (map (fun t => a_mul A t t) temp))
             (a_div A (a_mul A correction correction) (count_in xs)))
    (count_in xs).

Definition is_constant_feature_in (var mu n : T) : bool :=
  a_leb A var
    (a_add A (a_mul A (a_mul A n (a_eps A)) var)
             (a_mul A (a_mul A (a_mul A n mu) (a_eps A))
                      (a_mul A (a_mul A n mu) (a_eps A)))).

Definition constant_in (xs : list T) : bool :=
  is_constant_feature_in (variance_in xs) (mean_in xs) (count_in xs).

Definition scale_in (xs : list T) : T :=
  if constant_in xs then a_of_nat A 1 else a_sqrt A (variance_in xs).

Definition standardize_in (xs : list T) : list T :=
  map (fun x => a_div A (a_sub A x (mean_in xs)) (scale_in xs)) xs.

End Scaler.

(** float64, with numpy's sum. *)
Definition float64 : arithmetic float :=
  mkArithmetic float float_of_nat PrimFloat.add PrimFloat.sub PrimFloat.mul
               PrimFloat.div PrimFloat.sqrt PrimFloat.leb PrimFloat.is_nan
               np_sum 0x1p-52%float.

(** The real numbers: nothing is missing and the sum is the sum. *)
Definition exact : arithmetic Rdefinitions.R :=
  mkArithmetic Rdefinitions.R Raxioms.INR Rdefinitions.Rplus Rdefinitions.Rminus
               Rdefinitions.Rmult Rdefinitions.Rdiv R_sqrt.sqrt
               (fun x y => if RIneq.Rle_dec x y then true else false)
               (fun _ => false)
               (fun xs => fold_right Rdefinitions.Rplus (Rdefinitions.IZR 0) xs)
               (Rdefinitions.Rinv (Rdefinitions.IZR (2 ^ 52))).

(** The program's scaler. *)
Definition nansum (xs : list float) : float := nansum_in float64 xs.

Definition count (xs : list float) : float := count_in float64 xs.

Definition mean (xs : list float) : float := mean_in float64 xs.

Definition variance (xs : list float) : float := variance_in float64 xs.

Definition eps : float := a_eps float64.

Definition is_constant_feature (var mu n : float) : bool :=
  is_constant_feature_in float64 var mu n.

Definition scale (xs : list float) : float := scale_in float64 xs.

Definition standardize (xs : list float) : list float :=
  standardize_in float64 xs.

Local Open Scope float_scope.

Local Close Scope float_scope.

(** [StandardScaler().fit_transform(X)], [X] given by its columns and its
    number of rows.  The input validation refuses an array with no column
    or no row, and infinite entries. *)
Definition StandardScaler_fit_transform (n : nat) (X : list (list value))
  : result (list (list float)) :=
  match X with
  | [] => Raise (ValueError "at least one array or dtype is required")
  | _ :: _ =>
      if Nat.eqb n 0
      then Raise (ValueError "Found array with 0 sample(s)")
      else rbind (mapM (mapM to_float) X) (fun A =>
           if existsb (existsb PrimFloat.is_infinity) A
           then Raise (ValueError "Input X contains infinity")
           else Ok (map standardize A))
  end.

(** [data[names]] as the list of its columns. *)
Definition getitem_cols (df : DataFrame) (names : list string)
  : result (list (list value)) :=
  mapM (getitem df) names.

(** [data[names] = Y], [Y] a float64 array given by its columns: in row
    [i], the cell of the column that is the [j]-th of [names] becomes
    [Y[i][j]], and the column becomes a float64 column. *)
Fixpoint index_of (n : string) (names : list string) : option nat :=
  match names with
  | [] => None
  | m :: t =>
      if String.eqb m n then Some O
      else match index_of n t with
           | Some j => Some (S j)
           | None => None
           end
  end.

Fixpoint assign_cells (names : list string) (Y : list (list float)) (i : nat)
    (cols : list (string * dtype)) (r : row) : row :=
  match cols, r with
  | (n, _) :: cols', v :: r' =>
      match index_of n names with
      | Some j => VFloat (nth i (nth j Y []) PrimFloat.nan)
      | None => v
      end :: assign_cells names Y i cols' r'
  | _, _ => r
  end.

Definition setitem_cols (df : DataFrame) (names : list string)
    (Y : list (list float)) : DataFrame :=
  mkDataFrame
    (map (fun c => match index_of (fst c) names with
                   | Some _ => (fst c, Float64)
                   | None => c
                   end) (columns df))
    (map (fun iir => (fst (snd iir),
                      assign_cells names Y (fst iir) (columns df) (snd (snd iir))))
         (combine (seq 0 (List.length (rows df))) (rows df))).

(** [OneHotEncoder(sparse_output=False)]: the categories of a column are
    its distinct values in ascending order, a missing value last. *)
Fixpoint insert_unique (s : string) (l : list string) : list string :=
  match l with
  | [] => [s]
  | x :: t =>
      if String.ltb s x then s :: x :: t
      else if String.eqb s x then x :: t
      else x :: insert_unique s t
  end.

Definition texts (col : list value) : list string :=
  flat_map (fun v => match v with VStr s => [s] | _ => [] end) col.

Definition categories (col : list value) : list value :=
  map VStr (fold_right insert_unique [] (texts col))
  ++ (if existsb (fun v => match v with VNone => true | _ => false end) col
      then [VNone] else [])
  ++ (if existsb (fun v => match v with VFloat _ => true | _ => false end) col
      then [VFloat PrimFloat.nan] else []).

(** The encoder refuses a column that mixes text and numbers. *)
Definition categories_of (col : list value) : result (list value) :=
  if existsb (fun v => match v with
                       | VInt _ => true
                       | VFloat x => negb (PrimFloat.is_nan x)
                       | _ => false
                       end) col
  then Raise (TypeError "Encoders require their input argument must be uniformly strings or numbers")
  else Ok (categories col).

(** [encoder.fit(X)]: the [categories_] of each column.  The columns of a
    frame are checked one by one, so a frame with no column passes. *)
Definition OneHotEncoder_fit (n : nat) (X : list (list value))
  : result (list (list value)) :=
  match X with
  | [] => Ok []
  | _ :: _ =>
      if Nat.eqb n 0
      then Raise (ValueError "Found array with 0 sample(s)")
      else mapM categories_of X
  end.

Definition indicator (c v : value) : float :=
  if value_eqb c v then 1%float else 0%float.

(** [encoder.transform(X)]: one indicator column per category. *)
Definition OneHotEncoder_transform (cats : list (list value))
    (X : list (list value)) : list (list float) :=
  flat_map (fun colcs => map (fun c => map (indicator c) (fst colcs)) (snd colcs))
           (combine X cats).

(** The text of a category in a column name.  A missing text is NaN in a
    pandas column of strings. *)
Definition str_of_category (c : value) : string :=
  match c with
  | VStr s => s
  | _ => "nan"
  end.

(** [encoder.get_feature_names_out(names)]. *)
Definition get_feature_names_out (cats : list (list value)) (names : list string)
  : list string :=
  flat_map (fun ncs => map (fun c => (fst ncs ++ "_" ++ str_of_category c)%string) (snd ncs))
           (combine names cats).

(** [pd.DataFrame(array, columns=names)], the array of [n] rows given by
    its columns: default labels. *)
Definition DataFrame_of_array (n : nat) (Y : list (list float))
    (names : list string) : DataFrame :=
  from_rows (map (fun nm => (nm, Float64)) names)
            (map (fun i => map (fun col => VFloat (nth i col PrimFloat.nan)) Y)
                 (seq 0 n)).

(** [data.drop(names, axis=1)]. *)
Definition dropped (names : list string) (n : string) : bool :=
  existsb (String.eqb n) names.

Fixpoint drop_cells (names : list string) (cols : list (string * dtype))
    (r : row) : row :=
  match cols, r with
  | (n, _) :: cols', v :: r' =>
      if dropped names n then drop_cells names cols' r'
      else v :: drop_cells names cols' r'
  | _, _ => r
  end.

Definition drop (df : DataFrame) (names : list string) : DataFrame :=
  mkDataFrame (filter (fun c => negb (dropped names (fst c))) (columns df))
              (map (fun ir => (fst ir, drop_cells names (columns df) (snd ir)))
                   (rows df)).

(** [pd.concat([a, b], axis=1)]: the rows are matched by label.  With the
    same labels in the same order the rows are put side by side.  Otherwise
    the result has the labels of [a], then those of [b] that [a] lacks, and
    a frame has missing values in the rows it lacks; labels that repeat
    cannot be matched. *)
Definition same_labels (a b : list Z) : bool :=
  Nat.eqb (List.length a) (List.length b)
  && forallb (fun xy => Z.eqb (fst xy) (snd xy)) (combine a b).

Fixpoint unique (l : list Z) : bool :=
  match l with
  | [] => true
  | x :: t => negb (existsb (Z.eqb x) t) && unique t
  end.

Definition missing_cell (c : string * dtype) : value :=
  match snd c with
  | Object => VNone
  | _ => VFloat PrimFloat.nan
  end.

Definition upcast (v : value) : value :=
  match v with
  | VInt z => VFloat (float_of_Z z)
  | _ => v
  end.

(** [df.reindex(labels)]: integer columns become float64 when a label is
    new, for the missing value. *)
Definition reindex (df : DataFrame) (labels : list Z) : DataFrame :=
  let lacks := existsb (fun l => negb (existsb (Z.eqb l) (index df))) labels in
  mkDataFrame
    (map (fun c => match snd c with
                   | Int64 => if lacks then (fst c, Float64) else c
                   | _ => c
                   end) (columns df))
    (map (fun l => match find (fun ir => Z.eqb (fst ir) l) (rows df) with
                   | Some ir => (l, if lacks then map upcast (snd ir) else snd ir)
                   | None => (l, map missing_cell (columns df))
                   end) labels).

Definition side_by_side (a b : DataFrame) : DataFrame :=
  mkDataFrame (columns a ++ columns b)
              (map (fun ab => (fst (fst ab), snd (fst ab) ++ snd (snd ab)))
                   (combine (rows a) (rows b))).

Definition concat_axis1 (a b : DataFrame) : result DataFrame :=
  if same_labels (index a) (index b)
  then Ok (side_by_side a b)
  else if unique (index a) && unique (index b)
  then let labels :=
         index a ++ filter (fun l => negb (existsb (Z.eqb l) (index a))) (index b) in
       Ok (side_by_side (reindex a labels) (reindex b labels))
  else Raise InvalidIndexError.

(** ** The Transformer and the Orchestrator *)

Definition transform_data (data : ref) : M ref :=
  d <- deref data ;;
  let numerical_cols := select_dtypes [Float64; Int64] d in
  X <- lift (getitem_cols d numerical_cols) ;;
  Y <- lift (StandardScaler_fit_transform (List.length (rows d)) X) ;;
  assign data (setitem_cols d numerical_cols Y) ;;;
  d <- deref data ;;
  let categorical_cols := select_dtypes [Object] d in
  X <- lift (getitem_cols d categorical_cols) ;;
  cats <- lift (OneHotEncoder_fit (List.length (rows d)) X) ;;
  encoded_data <-
    new (DataFrame_of_array (List.length (rows d))
                            (OneHotEncoder_transform cats X)
                            (get_feature_names_out cats categorical_cols)) ;;
  d <- deref data ;;
  data <- new (drop d categorical_cols) ;;
  a <- deref data ;;
  b <- deref encoded_data ;;
  c <- lift (concat_axis1 a b) ;;
  data <- new c ;;
  ret data.

Section Orchestrator.

Variable correction : string -> option string.
Variable argsort : list value -> list nat.

Definition perform_analysis (data : ref) : M (ref * ref) :=
  cleaned_data <- clean_data correction data ;;
  c <- deref cleaned_data ;;
  cleaned_data <-
    (if existsb (String.eqb "name") (column_names c)
     then sort_data argsort cleaned_data "name" true
     else ret cleaned_data) ;;
  c <- deref cleaned_data ;;
  (if existsb (String.eqb "some_column") (column_names c)
   then check_domain_constraints cleaned_data "some_column"
          [VStr "Value1"; VStr "Value2"; VStr "Value3"]
   else ret tt) ;;;
  transformed_data <- transform_data cleaned_data ;;
  ret (cleaned_data, transformed_data).

End Orchestrator.

(** The two frames [perform_analysis] returns, read when it returns. *)
Definition run_analysis (correction : string -> option string)
    (argsort : list value -> list nat) (df : DataFrame)
  : result (DataFrame * DataFrame) :=
  match perform_analysis correction argsort 0%nat (mkWorld [df] []) with
  | (Ok (c, t), w') =>
      match nth_error (heap w') c, nth_error (heap w') t with
      | Some dc, Some dt => Ok (dc, dt)
      | _, _ => Raise ReferenceError
      end
  | (Raise e, _) => Raise e
  end.

(** A shop's rows, the second a duplicate of the first. *)
Definition shop_frame : DataFrame :=
  from_rows [("price", Int64); ("colour", Object)]
            [[VInt 1; VStr "red"]; [VInt 1; VStr "red"]; [VInt 3; VStr "blue"]].

(** A response with status 200 whose body is the JSON value [null]. *)
Definition null_response : response := mkResponse 200 "null" (Some JNull).

(** The rows of [df] the Validator reports for column position [p]. *)
Definition invalid_rows (p : nat) (valid_values : list value) (df : DataFrame)
  : DataFrame :=
  mkDataFrame (columns df)
              (filter (fun ir => negb (isin valid_values (cell p ir))) (rows df)).

(** Two rows, a price and a colour each. *)
Definition prices_frame : DataFrame :=
  from_rows [("price", Int64); ("colour", Object)]
            [[VInt 1; VStr "red"]; [VInt 3; VStr "blue"]].

(** The frame the Cleaner returns for [shop_frame]: the second row was a
    duplicate, so the labels are 0 and 2. *)
Definition cleaned_shop_frame : DataFrame :=
  mkDataFrame [("price", Int64); ("colour", Object)]
              [(0, [VInt 1; VStr "red"]); (2, [VInt 3; VStr "blue"])].

(** ** What the claims about the Transformer speak of *)

(** The cells of a column, when the frame has it. *)
Definition column (df : DataFrame) (name : string) : list value :=
  match column_pos name (columns df) with
  | Some p => map (cell p) (rows df)
  | None => []
  end.

(** A numeric cell as a float. *)
Definition as_float (v : value) : float :=
  match v with
  | VInt z => float_of_Z z
  | VFloat x => x
  | _ => PrimFloat.nan
  end.

(** No number of the frame is infinite. *)
Definition finite (df : DataFrame) : Prop :=
  Forall (Forall (fun v => PrimFloat.is_infinity (as_float v) = false)) (values df).

(** The rows carry the labels a loader gives them. *)
Definition default_labels (df : DataFrame) : Prop :=
  index df = RangeIndex 0 (List.length (rows df)).

(** What [transform_data] needs to return: a well-formed frame under
    default labels with a row, a numeric column and no infinite number. *)
Definition transformable (df : DataFrame) : Prop :=
  well_formed df /\ default_labels df /\ rows df <> [] /\
  select_dtypes [Float64; Int64] df <> [] /\ finite df.

(** Mean and population standard deviation of a list of floats, as numpy
    computes them. *)
Definition np_mean (xs : list float) : float :=
  (np_sum xs / float_of_nat (List.length xs))%float.

Definition np_std (xs : list float) : float :=
  PrimFloat.sqrt
    (np_mean (map (fun x => PrimFloat.mul (PrimFloat.sub x (np_mean xs))
                                          (PrimFloat.sub x (np_mean xs))) xs)).

(** [|x - y| <= tol]. *)
Definition close (x y tol : float) : bool :=
  PrimFloat.leb (PrimFloat.abs (PrimFloat.sub x y)) tol.

Definition one_two_three_frame : DataFrame :=
  from_rows [("n", Int64); ("c", Object)]
            [[VInt 1; VStr "red"]; [VInt 2; VStr "blue"]; [VInt 3; VStr "red"]].

Definition fives_frame : DataFrame :=
  from_rows [("n", Int64); ("c", Object)]
            [[VInt 5; VStr "red"]; [VInt 5; VStr "blue"]; [VInt 5; VStr "red"]].

(** Numbers only. *)
Definition sizes_frame : DataFrame :=
  from_rows [("width", Int64); ("height", Float64)]
            [[VInt 1; VFloat 2%float]; [VInt 3; VFloat 4%float]].

(** Every row has a cell for every column. *)
Definition shaped (df : DataFrame) : Prop :=
  Forall (fun ir => List.length (snd ir) = List.length (columns df)) (rows df).

(** ** The Transformer as a function on frames

    What [transform_data] computes when the labels of the frame are the
    default ones, so that the rows of the two frames it joins match one to
    one: the frame after the scaling statement, the frame of indicator
    columns, and the two side by side without the textual columns. *)
Definition scaled_frame (df : DataFrame) : DataFrame :=
  setitem_cols df (select_dtypes [Float64; Int64] df)
    (map (fun n => standardize (map as_float (column df n)))
         (select_dtypes [Float64; Int64] df)).

Definition encoded_frame (df : DataFrame) : DataFrame :=
  let categorical_cols := select_dtypes [Object] df in
  let X := map (column df) categorical_cols in
  DataFrame_of_array (List.length (rows df))
    (OneHotEncoder_transform (map categories X) X)
    (get_feature_names_out (map categories X) categorical_cols).

Definition transform_frame (df : DataFrame) : DataFrame :=
  side_by_side (drop (scaled_frame df) (select_dtypes [Object] df))
               (encoded_frame df).

Ltac prove_transformable :=
  split;
  [ split;
    [ cbn; repeat constructor;
      let H := fresh in
      intro H; cbn in H;
      repeat (destruct H as [H|H]; [discriminate H|]); contradiction
    | unfold well_typed; cbn; repeat constructor ]
  | split;
    [ reflexivity
    | split;
      [ discriminate
      | split; [ discriminate | unfold finite; cbn; repeat constructor ] ] ] ].

(** ** Beyond the claims: what further properties speak of *)

(** What the scaler needs of a frame: cells of the type of their column,
    a row, a numeric column and no infinite number.  The labels are free. *)
Definition scalable (df : DataFrame) : Prop :=
  well_formed df /\ rows df <> [] /\
  select_dtypes [Float64; Int64] df <> [] /\ finite df.

(** The frame the argument of [m] refers to once [m] has run on a heap
    that holds [df] alone. *)
Definition argument_after (m : ref -> M ref) (df : DataFrame) : option DataFrame :=
  nth_error (heap (snd (m 0%nat (mkWorld [df] [])))) 0.

(** The labels of [0 .. n-1] that a list of labels lacks. *)
Definition new_labels (labels : list Z) (n : nat) : list Z :=
  filter (fun l => negb (existsb (Z.eqb l) labels)) (RangeIndex 0 n).

(** [a] is [b] with some elements left out. *)
Inductive subseq {A : Type} : list A -> list A -> Prop :=
| subseq_nil : subseq [] []
| subseq_skip x a b : subseq a b -> subseq a (x :: b)
| subseq_keep x a b : subseq a b -> subseq (x :: a) (x :: b).

(** The characters the Cleaner leaves in a text. *)
Definition wanted (c : ascii) : bool := is_alnum c || is_space c.

(** ['name' in df.columns]. *)
Definition has_column (df : DataFrame) (name : string) : bool :=
  existsb (String.eqb name) (column_names df).

(** The frame [perform_analysis] hands to the Transformer for a cleaned
    frame [c]: [c] sorted by name when it has that column, [c] itself
    otherwise. *)
Definition staged (argsort : list value -> list nat) (c : DataFrame) : DataFrame :=
  if has_column c "name"
  then match sort_values argsort c "name" true with
       | Ok s => s
       | Raise _ => c
       end
  else c.

(** What [check_domain_constraints] prints for a frame. *)
Definition validation_report (column_name : string) (valid_values : list value)
    (d : DataFrame) : list output :=
  match column_pos column_name (columns d) with
  | Some p =>
      match rows (invalid_rows p valid_values d) with
      | [] => [Line ("No domain constraint problems found in column '"
                     ++ column_name ++ "'.")]
      | _ :: _ => [Line ("Invalid values found in column '" ++ column_name ++ "':");
                   Table (invalid_rows p valid_values d)]
      end
  | None => []
  end.

(** What [perform_analysis] prints for a cleaned and sorted frame. *)
Definition analysis_report (d : DataFrame) : list output :=
  if has_column d "some_column"
  then validation_report "some_column"
         [VStr "Value1"; VStr "Value2"; VStr "Value3"] d
  else [].

(** A dataset in which every row has a gap. *)
Definition gaps_frame : DataFrame :=
  from_rows [("price", Float64); ("colour", Object)]
            [[VFloat 1%float; VNone]; [VFloat PrimFloat.nan; VStr "blue"]].

(** ** The entry point

    The script body under [if __name__ == "__main__"].  What it reads from
    the outside is gathered in an [environment]: the file and database
    libraries, the network, the spelling dictionary and numpy's [argsort].
    [pd.read_csv], [pd.read_excel], [create_engine] and [pd.read_sql] give a
    value or raise; the program catches none of their exceptions, so all
    that matters of one is that it ends the run. *)

Inductive loaded : Type :=
| Frame (df : DataFrame)
| Fails (error : string).

Record environment : Type := mkEnvironment {
  read_csv : string -> loaded;
  read_excel : string -> loaded;
  engine : Type;
  create_engine : string -> engine + string;
  read_sql : string -> engine -> loaded;
  get : string -> Z -> get_outcome;
  DataFrame_of_json : json -> result DataFrame;
  spell : string -> option string;
  np_argsort : list value -> list nat
}.

Definition load_csv (env : environment) (file_path : string) : loaded :=
  read_csv env file_path.

Definition load_excel (env : environment) (file_path : string) : loaded :=
  read_excel env file_path.

Definition load_database (env : environment) (connection_string query : string)
  : loaded :=
  match create_engine env connection_string with
  | inl engine => read_sql env query engine
  | inr error => Fails error
  end.

(** How the process ends: [sys.exit(status)] (the end of the script is
    [Exit 0]), or an exception nothing catches, raised by the pipeline or by
    a loader. *)
Inductive ending : Type :=
| Exit (status : Z)
| Traceback (e : exn)
| LoadTraceback (error : string).

(** The exit status of the interpreter: 1 after an uncaught exception. *)
Definition exit_status (e : ending) : Z :=
  match e with
  | Exit status => status
  | Traceback _ | LoadTraceback _ => 1
  end.

(** [df.to_csv(path, index=False)]: the file holds the column names and the
    cells of the rows, without the labels.  The write itself is taken to
    succeed: the file system is no part of the [environment]. *)
Record csv : Type := mkCsv {
  header : list string;
  records : list row
}.

Definition to_csv (df : DataFrame) : csv := mkCsv (column_names df) (values df).

(** A run: how it ended, what it printed, and the files it wrote, in the
    order it wrote them. *)
Record process : Type := mkProcess {
  ended : ending;
  printed : list output;
  written : list (string * csv)
}.

(** The dispatch on [data_source]: either [data] is set, to a frame or to
    [None], or the run is over. *)
Inductive loading : Type :=
| Loaded (data : option ref) (w : world)
| Over (p : process).

Definition from_loader (l : loaded) : loading :=
  match l with
  | Frame df => Loaded (Some 0%nat) (mkWorld [df] [])
  | Fails error => Over (mkProcess (LoadTraceback error) [] [])
  end.

Definition load (env : environment) (data_source source_path_or_url : string)
    (rest : list string) : loading :=
  if String.eqb data_source "csv"
  then from_loader (load_csv env source_path_or_url)
  else if String.eqb data_source "excel"
  then from_loader (load_excel env source_path_or_url)
  else if String.eqb data_source "api"
  then match load_api (get env) (DataFrame_of_json env) source_path_or_url
               (mkWorld [] []) with
       | (Ok data, w) => Loaded data w
       | (Raise e, w) => Over (mkProcess (Traceback e) (stdout w) [])
       end
  else if String.eqb data_source "database"
  then match rest with
       | query :: _ => from_loader (load_database env source_path_or_url query)
       | [] =>
           Over (mkProcess (Exit 1)
                   [Line "Usage for database: python file.py database <connection_string> <query>"]
                   [])
       end
  else Over (mkProcess (Exit 1) [Line "Unsupported data source"] []).

(** From the test [data is None] to the end of the script. *)
Definition analyse (env : environment) (data : option ref) (w : world) : process :=
  match data with
  | None =>
      mkProcess (Exit 1) (stdout w ++ [Line "Failed to load data. Exiting."]) []
  | Some data =>
      match perform_analysis (spell env) (np_argsort env) data w with
      | (Ok (cleaned_data, transformed_data), w') =>
          match nth_error (heap w') cleaned_data,
                nth_error (heap w') transformed_data with
          | Some c, Some t =>
              mkProcess (Exit 0) (stdout w')
                        [("cleaned_data.csv", to_csv c);
                         ("transformed_data.csv", to_csv t)]
          | _, _ => mkProcess (Traceback ReferenceError) (stdout w') []
          end
      | (Raise e, w') => mkProcess (Traceback e) (stdout w') []
      end
  end.

(** [argv] is [sys.argv]: the name of the script, then the arguments. *)
Definition main (env : environment) (argv : list string) : process :=
  match argv with
  | _ :: data_source :: source_path_or_url :: rest =>
      match load env data_source source_path_or_url rest with
      | Loaded data w => analyse env data w
      | Over p => p
      end
  | _ =>
      mkProcess (Exit 1)
                [Line "Usage: python file.py <data_source> <source_path_or_url>"] []
  end.

(** A machine with one file, whatever the path, and no network. *)
Definition one_file (df : DataFrame) : environment :=
  mkEnvironment (fun _ => Frame df) (fun _ => Fails "No such file or directory")
                unit (fun _ => inr "Could not parse SQLAlchemy URL")
                (fun _ _ => Fails "no such table")
                (fun _ _ => RequestFailed "Connection refused")
                (fun _ => Raise (ValueError "DataFrame constructor not properly called!"))
                all_known insertion_argsort.

(** The indicator cells of the row at position [i]: for each textual
    column, in order, one cell per category of the column, holding 1.0 when
    the row has that category in the column and 0.0 otherwise. *)
Definition indicator_cells (df : DataFrame) (i : nat) : row :=
  flat_map (fun n => map (fun c => VFloat (indicator c (nth i (column df n) VNone)))
                         (categories (column df n)))
           (select_dtypes [Object] df).

(** The names of the indicator columns. *)
Definition indicator_names (df : DataFrame) : list string :=
  get_feature_names_out (map (fun n => categories (column df n))
                             (select_dtypes [Object] df))
                        (select_dtypes [Object] df).

(** A cell that holds a number: neither missing nor text.  A pandas column
    of dtype object can hold such cells beside its texts. *)
Definition number_cell (v : value) : bool :=
  match v with
  | VInt _ => true
  | VFloat x => negb (PrimFloat.is_nan x)
  | _ => false
  end.

(** A dataset with a number in a column of texts. *)
Definition mixed_frame : DataFrame :=
  from_rows [("code", Object)] [[VStr "a1"]; [VInt 7]].

(** Two people as [sort_values] leaves them: sorted by name, each row under
    the label it had before. *)
Definition sorted_people_frame : DataFrame :=
  mkDataFrame [("age", Int64); ("name", Object)]
              [(1, [VInt 40; VStr "ann"]); (0, [VInt 31; VStr "kim"])].

(** The same two people as a loader gives them. *)
Definition people_frame : DataFrame :=
  from_rows [("age", Int64); ("name", Object)]
            [[VInt 31; VStr "kim"]; [VInt 40; VStr "ann"]].

(** ** Cells as real numbers

    The number a float64 stands for, and the number in a numeric cell.
    What is no number (a NaN, an infinity, a text) is given 0; the
    properties stated over the reals are about the values of a column that
    are not missing, in frames without infinities. *)
Definition real_of_float (x : float) : Rdefinitions.R :=
  match Prim2SF x with
  | S754_finite s m e =>
      Rdefinitions.Rmult (Rdefinitions.IZR (if s then Z.neg m else Z.pos m))
                         (Rfunctions.powerRZ (Rdefinitions.IZR 2) e)
  | _ => Rdefinitions.IZR 0
  end.

Definition as_real (v : value) : Rdefinitions.R :=
  match v with
  | VInt z => Rdefinitions.IZR z
  | VFloat x => real_of_float x
  | _ => Rdefinitions.IZR 0
  end.

(** ** numpy's argsort, kind='quicksort'

    An array of 64-bit numbers is sorted by vector code (x86-simd-sort, on
    processors with AVX2 or AVX-512).  Up to four keys fit the first lanes
    of one register, the free lanes holding a padding above every key; the
    register goes through three stages of compare-exchange, on the lanes
    (0,1) (2,3), then (0,3) (1,2), then (0,1) (2,3).  A compare-exchange
    leaves the lesser key in the lower lane; an index follows its key, and
    stays where it is when the two keys are equal. *)

(** A lane holds the index of a key, or the padding. *)
Definition lane_ltb (ks : list value) (a b : option nat) : bool :=
  match a, b with
  | Some i, Some j => value_ltb (nth i ks VNone) (nth j ks VNone)
  | Some _, None => true
  | None, _ => false
  end.

Definition compare_exchange (ks : list value) (lo hi : option nat)
  : option nat * option nat :=
  if lane_ltb ks hi lo then (hi, lo) else (lo, hi).

Definition network4 (ks : list value) (a b c d : option nat) : list (option nat) :=
  let '(a, b) := compare_exchange ks a b in
  let '(c, d) := compare_exchange ks c d in
  let '(a, d) := compare_exchange ks a d in
  let '(b, c) := compare_exchange ks b c in
  let '(a, b) := compare_exchange ks a b in
  let '(c, d) := compare_exchange ks c d in
  [a; b; c; d].

Definition lane (n i : nat) : option nat :=
  if (i <? n)%nat then Some i else None.

(** The first lanes, as many as there are keys, are stored back. *)
Definition network_argsort (ks : list value) : list nat :=
  let n := List.length ks in
  flat_map (fun l => match l with
                     | Some i => [i]
                     | None => []
                     end)
           (firstn n (network4 ks (lane n 0) (lane n 1) (lane n 2) (lane n 3))).

(** The keys of an int64 or of a float64 array. *)
Definition int64_keys (ks : list value) : bool :=
  forallb (fun v => match v with
                    | VInt _ => true
                    | _ => false
                    end) ks.

Definition float64_keys (ks : list value) : bool :=
  forallb (fun v => match v with
                    | VFloat _ => true
                    | _ => false
                    end) ks.

(** [np.argsort(kind='quicksort')] on the keys of a column.  The vector
    code is modelled for up to four numbers; for more it uses larger
    networks and partitions, for which the insertion sort stands in here,
    as it does for the texts: the keys come out in the same order, only the
    order of equal keys can differ from numpy's. *)
Definition numpy_argsort (ks : list value) : list nat :=
  if (List.length ks <=? 4)%nat && (int64_keys ks || float64_keys ks)
  then network_argsort ks
  else insertion_argsort ks.

(** Four rows, two ages. *)
Definition ages_frame : DataFrame :=
  from_rows [("age", Int64); ("name", Object)]
            [[VInt 1; VStr "kim"]; [VInt 1; VStr "ann"];
             [VInt 0; VStr "lee"]; [VInt 0; VStr "bob"]].

Ltac order_cases :=
  repeat match goal with
         | H : context [Pos.compare_cont Eq ?a ?b] |- _ =>
             change (Pos.compare_cont Eq a b) with (Pos.compare a b) in H
         | |- context [Pos.compare_cont Eq ?a ?b] =>
             change (Pos.compare_cont Eq a b) with (Pos.compare a b)
         end;
  repeat match goal with
         | H : context [Z.compare ?a ?b] |- _ =>
             destruct (Z.compare_spec a b); cbn in H
         | |- context [Z.compare ?a ?b] =>
             destruct (Z.compare_spec a b); cbn
         | H : context [Pos.compare ?a ?b] |- _ =>
             destruct (Pos.compare_spec a b); cbn in H
         | |- context [Pos.compare ?a ?b] =>
             destruct (Pos.compare_spec a b); cbn
         end;
  subst; try discriminate; try reflexivity; try lia; auto.

(** Two keys of one kind: two integers, two floats or two texts. *)
Definition same_kind (a b : value) : Prop :=
  match a, b with
  | VInt _, VInt _ => True
  | VFloat _, VFloat _ => True
  | VStr _, VStr _ => True
  | _, _ => False
  end.

(** Proof steps for the sorting network: the cases of its comparisons, and
    what follows from their outcomes by [asym] (a key less than another is
    not greater) and [Htr] (not greater is transitive). *)
Ltac listed := cbn; auto 8.

Ltac order_facts asym Htr :=
  repeat match goal with
         | H : value_ltb ?x ?y = true |- _ =>
             lazymatch goal with
             | _ : value_ltb y x = false |- _ => fail
             | _ => pose proof (asym x y H)
             end
         end;
  repeat match goal with
         | H1 : value_ltb ?b ?a = false, H2 : value_ltb ?c ?b = false |- _ =>
             lazymatch goal with
             | _ : value_ltb c a = false |- _ => fail
             | _ => assert (value_ltb c a = false)
                      by (apply (Htr a b c); [listed|listed|listed|exact H1|exact H2])
             end
         end.

Ltac in_order asym Htr :=
  match goal with
  | |- value_ltb ?b ?a = false =>
      let G := fresh "G" in
      apply not_true_is_false; intros G;
      order_facts asym Htr;
      match goal with
      | H1 : ?t = true, H2 : ?t = false |- _ => rewrite H1 in H2; discriminate H2
      end
  end.

Ltac same_elements :=
  apply NoDup_Permutation;
  [ repeat constructor; cbn; lia
  | repeat constructor; cbn; lia
  | intros x; cbn; tauto ].

Ltac network_cases :=
  unfold network_argsort, network4, compare_exchange, lane; cbn;
  repeat match goal with
         | H : value_ltb ?x ?y = _ |- context [if value_ltb ?x ?y then _ else _] =>
             rewrite H; cbn
         | |- context [if value_ltb ?x ?y then _ else _] =>
             destruct (value_ltb x y) eqn:?; cbn
         end.

(** A key that is a text. *)
Definition text_key (v : value) : bool :=
  match v with
  | VStr _ => true
  | _ => false
  end.

(** [a] may come before [b]: its key is not the greater one, and of two
    equal keys the one met first comes first. *)
Definition stable_order (ks : list value) (a b : nat) : Prop :=
  value_ltb (nth b ks VNone) (nth a ks VNone) = false /\
  (value_ltb (nth a ks VNone) (nth b ks VNone) = false -> (a < b)%nat).

(** * Properties *)

(** ** Lists and results *)

Lemma mapM_ok {A B : Type} (f : A -> result B) (g : A -> B) (l : list A) :
  (forall x, In x l -> f x = Ok (g x)) -> mapM f l = Ok (map g l).
Proof.
  induction l as [|x t IH]; intros H; cbn; [reflexivity|].
  rewrite (H x (or_introl eq_refl)); cbn.
  rewrite IH; [reflexivity|].
  intros y Hy; apply H; right; exact Hy.
Qed.

Lemma set_nth_length {A : Type} (n : nat) (x : A) (l : list A) :
  List.length (set_nth n x l) = List.length l.
Proof.
  revert n; induction l as [|y t IH]; intros [|n]; cbn; auto.
Qed.

Lemma nth_error_set_nth_eq {A : Type} (n : nat) (x : A) (l : list A) :
  (n < List.length l)%nat -> nth_error (set_nth n x l) n = Some x.
Proof.
  revert n; induction l as [|y t IH]; intros [|n] H; cbn in *; try lia; auto.
  apply IH; lia.
Qed.

Lemma nth_error_set_nth_neq {A : Type} (n m : nat) (x : A) (l : list A) :
  n <> m -> nth_error (set_nth n x l) m = nth_error l m.
Proof.
  revert n m; induction l as [|y t IH]; intros [|n] [|m] H; cbn; auto.
  - contradiction.
Qed.

Lemma set_nth_twice {A : Type} (n : nat) (x y : A) (l : list A) :
  set_nth n y (set_nth n x l) = set_nth n y l.
Proof.
  revert n; induction l as [|z t IH]; intros [|n]; cbn; auto.
  now rewrite IH.
Qed.

Lemma set_nth_same {A : Type} (n : nat) (x : A) (l : list A) :
  nth_error l n = Some x -> set_nth n x l = l.
Proof.
  revert n; induction l as [|z t IH]; intros [|n] H; cbn in *; auto.
  - now inversion H.
  - now rewrite IH.
Qed.

Lemma set_nth_last {A : Type} (x y : A) (l : list A) :
  set_nth (List.length l) x (l ++ [y]) = l ++ [x].
Proof.
  induction l as [|z t IH]; cbn; auto. now rewrite IH.
Qed.

(** ** One pass over one column *)

Lemma sel_cells_nil f cols r : sel_cells f [] cols r = r.
Proof.
  revert r; induction cols as [|[n dt] cols IH]; intros [|v r]; cbn; auto.
  now rewrite IH.
Qed.


Lemma NoDup_fst_functional {A B : Type} (l : list (A * B)) a b b' :
  NoDup (map fst l) -> In (a, b) l -> In (a, b') l -> b = b'.
Proof.
  induction l as [|[x y] l IH]; cbn; intros Hnd H1 H2; [contradiction|].
  inversion Hnd as [|? ? Hx Hnd']; subst.
  destruct H1 as [H1|H1], H2 as [H2|H2].
  - congruence.
  - inversion H1; subst. exfalso; apply Hx.
    change a with (fst (a, b')); now apply in_map.
  - inversion H2; subst. exfalso; apply Hx.
    change a with (fst (a, b)); now apply in_map.
  - now apply IH.
Qed.

Lemma cell_ok_text f dt v : cell_ok dt (cell_text f v) = cell_ok dt v.
Proof. destruct dt, v; reflexivity. Qed.

Lemma row_ok_sel_cells f names cols r :
  row_ok (map snd cols) (sel_cells f names cols r) = row_ok (map snd cols) r.
Proof.
  revert r; induction cols as [|[n dt] cols IH]; intros [|v r]; cbn; auto.
  rewrite IH. destruct (existsb (String.eqb n) names); [|reflexivity].
  now rewrite cell_ok_text.
Qed.

Lemma row_ok_text_cells f cols r :
  row_ok (map snd cols) (text_cells f cols r) = row_ok (map snd cols) r.
Proof.
  revert r; induction cols as [|[n dt] cols IH]; intros [|v r]; cbn; auto.
  rewrite IH. destruct dt; try reflexivity. now rewrite cell_ok_text.
Qed.

Lemma sel_cells_cons f c names cols r :
  ~ In c names ->
  sel_cells f [c] cols (sel_cells f names cols r) = sel_cells f (c :: names) cols r.
Proof.
  intros Hc. revert r; induction cols as [|[n dt] cols IH]; intros [|v r]; cbn; auto.
  rewrite IH. f_equal.
  destruct (String.eqb n c) eqn:E; cbn; [|now destruct (existsb _ names)].
  apply String.eqb_eq in E; subst c.
  destruct (existsb (String.eqb n) names) eqn:E'; [|reflexivity].
  apply existsb_exists in E'. destruct E' as [m [Hm He]].
  apply String.eqb_eq in He; subst m. contradiction.
Qed.

Lemma sel_cells_text f names cols r :
  (forall n dt, In (n, dt) cols -> (In n names <-> dt = Object)) ->
  sel_cells f names cols r = text_cells f cols r.
Proof.
  revert r; induction cols as [|[n dt] cols IH]; intros [|v r] H; cbn; auto.
  rewrite IH by (intros m d Hm; apply H; right; exact Hm).
  f_equal. specialize (H n dt (or_introl eq_refl)).
  destruct (existsb (String.eqb n) names) eqn:E.
  - apply existsb_exists in E. destruct E as [m [Hm He]].
    apply String.eqb_eq in He; subst m.
    apply H in Hm; subst dt; reflexivity.
  - destruct dt; try reflexivity.
    assert (Hin : In n names) by now apply H.
    assert (E' : existsb (String.eqb n) names = true).
    { apply existsb_exists. exists n. split; [exact Hin|apply String.eqb_refl]. }
    congruence.
Qed.

Lemma spell_lambda_reads correction :
  lambda_reads (spell_lambda correction) (correct_text correction).
Proof. intros [z|x|s|]; cbn; intros H; try discriminate; reflexivity. Qed.

Lemma strip_lambda_reads : lambda_reads strip_lambda re_sub_unwanted.
Proof. intros [z|x|s|]; cbn; intros H; try discriminate; reflexivity. Qed.

Lemma apply_cells_ok lam f col cols r :
  lambda_reads lam f ->
  (forall n dt, In (n, dt) cols -> n = col -> dt = Object) ->
  row_ok (map snd cols) r = true ->
  apply_cells lam col cols r = Ok (sel_cells f [col] cols r).
Proof.
  intros Hlam. revert r; induction cols as [|[n dt] cols IH]; intros [|v r] Hc Hr;
    cbn in *; try discriminate; auto.
  apply andb_prop in Hr. destruct Hr as [Hv Hr].
  rewrite (IH r) by (auto; intros m d Hm; apply Hc; right; exact Hm).
  destruct (String.eqb n col) eqn:E; cbn; [|reflexivity].
  apply String.eqb_eq in E.
  rewrite (Hc n dt (or_introl eq_refl) E) in Hv.
  now rewrite (Hlam v Hv).
Qed.

Lemma apply_column_ok lam f col df :
  lambda_reads lam f ->
  NoDup (column_names df) ->
  In (col, Object) (columns df) ->
  well_typed df ->
  apply_column lam col df = Ok (map_rows (sel_cells f [col] (columns df)) df).
Proof.
  intros Hlam Hnd Hin Hwt. unfold apply_column.
  assert (E : existsb (String.eqb col) (column_names df) = true).
  { apply existsb_exists. exists col. split; [|apply String.eqb_refl].
    change col with (fst (col, Object)). now apply in_map. }
  rewrite E.
  rewrite (mapM_ok _ (fun ir => (fst ir, sel_cells f [col] (columns df) (snd ir)))).
  - reflexivity.
  - intros [i r] Hr; cbn.
    rewrite (apply_cells_ok lam f); auto.
    + intros n dt Hn Hc; subst n.
      now apply (NoDup_fst_functional (columns df) col dt Object).
    + unfold well_typed in Hwt. rewrite Forall_forall in Hwt. apply Hwt.
      unfold values. change r with (snd (i, r)). now apply in_map.
Qed.

Lemma map_rows_map_rows g h df :
  map_rows g (map_rows h df) = map_rows (fun r => g (h r)) df.
Proof. unfold map_rows; cbn. now rewrite map_map. Qed.

Lemma map_rows_ext g h df :
  (forall r, g r = h r) -> map_rows g df = map_rows h df.
Proof.
  intros H. unfold map_rows. f_equal. apply map_ext. intros [i r]; cbn. now rewrite H.
Qed.

Lemma well_typed_map_rows g df :
  (forall r, row_ok (map snd (columns df)) (g r) = row_ok (map snd (columns df)) r) ->
  well_typed df -> well_typed (map_rows g df).
Proof.
  intros Hg Hwt. unfold well_typed, values in *; cbn.
  rewrite map_map; cbn. rewrite Forall_forall in *.
  intros r Hr. apply in_map_iff in Hr. destruct Hr as [[i r0] [<- Hin]]; cbn.
  rewrite Hg. apply Hwt. change r0 with (snd (i, r0)). now apply in_map.
Qed.

(** ** Running the loops of the Cleaner *)

Lemma for_each_pass lam f data cols rows0 :
  lambda_reads lam f ->
  NoDup (map fst cols) ->
  well_typed (mkDataFrame cols rows0) ->
  forall L done w,
    nth_error (heap w) data
    = Some (map_rows (sel_cells f done cols) (mkDataFrame cols rows0)) ->
    NoDup L ->
    (forall c, In c L -> ~ In c done) ->
    (forall c, In c L -> In (c, Object) cols) ->
    for_each L (fun col => setitem_apply data col lam) w
    = (Ok tt,
       mkWorld (set_nth data (map_rows (sel_cells f (rev L ++ done) cols)
                                       (mkDataFrame cols rows0)) (heap w))
               (stdout w)).
Proof.
  intros Hlam Hnd Hwt L. induction L as [|c L IH]; intros done w Hget HL Hdone Hobj.
  - cbn. unfold ret. rewrite (set_nth_same _ _ _ Hget). now destruct w.
  - cbn [for_each]. unfold bind at 1. unfold setitem_apply at 1.
    unfold bind, deref, lift, assign. rewrite Hget.
    rewrite (apply_column_ok lam f); auto.
    + cbn [columns map_rows]. rewrite map_rows_map_rows.
      rewrite (map_rows_ext _ (sel_cells f (c :: done) cols))
        by (intros r; apply sel_cells_cons; apply Hdone; now left).
      inversion HL as [|? ? Hc HL']; subst.
      rewrite (IH (c :: done)); auto.
      * cbn [heap stdout]. rewrite set_nth_twice.
        cbn [rev]. now rewrite <- app_assoc.
      * cbn [heap]. apply nth_error_set_nth_eq.
        apply nth_error_Some. congruence.
      * intros x Hx [Hx'|Hx']; [subst; contradiction|].
        apply (Hdone x); [now right|exact Hx'].
      * intros x Hx. apply Hobj. now right.
    + apply Hobj; now left.
    + apply well_typed_map_rows; auto. intros r; apply row_ok_sel_cells.
Qed.

Lemma select_dtypes_object_NoDup df :
  NoDup (column_names df) -> NoDup (select_dtypes [Object] df).
Proof.
  unfold column_names, select_dtypes. generalize (columns df) as cols.
  induction cols as [|[n dt] cols IH]; cbn; intros H; [constructor|].
  inversion H as [|? ? Hn H']; subst.
  destruct dt; cbn; auto. constructor; auto.
  intros Hin. apply Hn. apply in_map_iff in Hin. destruct Hin as [[m d] [<- Hin]].
  apply filter_In in Hin. destruct Hin as [Hin _].
  change (fst (m, d)) with (fst (m, d)). now apply in_map.
Qed.

Lemma select_dtypes_object_In df c :
  In c (select_dtypes [Object] df) <-> In (c, Object) (columns df).
Proof.
  unfold select_dtypes. rewrite in_map_iff. split.
  - intros [[m d] [<- Hin]]. apply filter_In in Hin. destruct Hin as [Hin Hd].
    destruct d; cbn in Hd; try discriminate. exact Hin.
  - intros H. exists (c, Object). split; [reflexivity|].
    apply filter_In. split; [exact H|reflexivity].
Qed.

(** One loop of [clean_data] over the textual columns, on the frame [data]
    refers to: [f] on every textual cell. *)
Lemma text_pass_run lam f data df w :
  lambda_reads lam f ->
  well_formed df ->
  nth_error (heap w) data = Some df ->
  for_each (select_dtypes [Object] df) (fun col => setitem_apply data col lam) w
  = (Ok tt, mkWorld (set_nth data (map_rows (text_cells f (columns df)) df) (heap w))
                    (stdout w)).
Proof.
  intros Hlam [Hnd Hwt] Hget. destruct df as [cols rows0]. cbn [columns] in *.
  rewrite (for_each_pass lam f data cols rows0 Hlam Hnd Hwt _ []).
  - do 2 f_equal. f_equal. apply map_rows_ext. intros r.
    apply sel_cells_text. intros n dt Hin. rewrite app_nil_r, <- in_rev.
    rewrite select_dtypes_object_In; cbn [columns]. split.
    + intros H. now apply (NoDup_fst_functional cols n dt Object).
    + now intros ->.
  - rewrite Hget. f_equal. unfold map_rows; cbn. f_equal.
    rewrite <- (map_id rows0) at 1. apply map_ext. intros [i r]; cbn.
    now rewrite sel_cells_nil.
  - now apply select_dtypes_object_NoDup.
  - intros c _ [].
  - intros c. apply select_dtypes_object_In.
Qed.

(** ** The Cleaner returns a fresh frame holding [clean_frame] *)

Lemma dedup_In seen l x : In x (dedup seen l) -> In x l.
Proof.
  revert seen; induction l as [|[i r] l IH]; cbn; intros seen H; auto.
  destruct (existsb _ seen).
  - right; eapply IH; eauto.
  - destruct H as [H|H]; [now left|right; eapply IH; eauto].
Qed.

Lemma well_formed_sub df rs :
  (forall x, In x rs -> In x (rows df)) ->
  well_formed df -> well_formed (mkDataFrame (columns df) rs).
Proof.
  intros Hsub [Hnd Hwt]. split; [exact Hnd|].
  unfold well_typed, values in *; cbn. rewrite Forall_forall in *.
  intros r Hr. apply in_map_iff in Hr. destruct Hr as [x [<- Hx]].
  apply Hwt. apply in_map. now apply Hsub.
Qed.

Lemma well_formed_drop_duplicates df :
  well_formed df -> well_formed (drop_duplicates df).
Proof. apply well_formed_sub. intros x. apply dedup_In. Qed.

Lemma well_formed_dropna df : well_formed df -> well_formed (dropna df).
Proof.
  apply well_formed_sub. intros x Hx. apply filter_In in Hx. tauto.
Qed.

Lemma well_formed_text_cells f df :
  well_formed df -> well_formed (map_rows (text_cells f (columns df)) df).
Proof.
  intros [Hnd Hwt]. split; [exact Hnd|].
  apply well_typed_map_rows; auto. intros r. apply row_ok_text_cells.
Qed.

Lemma text_cells_text_cells g f cols r :
  text_cells g cols (text_cells f cols r) = text_cells (fun s => g (f s)) cols r.
Proof.
  revert r; induction cols as [|[n dt] cols IH]; intros [|v r]; cbn; auto.
  rewrite IH. f_equal. destruct dt; try reflexivity. now destruct v.
Qed.

Lemma nth_error_snoc {A : Type} (l : list A) (x : A) :
  nth_error (l ++ [x]) (List.length l) = Some x.
Proof. induction l; cbn; auto. Qed.

Lemma clean_data_run correction data df w :
  nth_error (heap w) data = Some df ->
  well_formed df ->
  clean_data correction data w
  = (Ok (S (List.length (heap w))),
     mkWorld (heap w ++ [drop_duplicates df; clean_frame correction df]) (stdout w)).
Proof.
  intros Hget Hwf. unfold clean_data.
  unfold bind at 1. unfold deref at 1. rewrite Hget.
  unfold bind at 1. unfold new at 1. cbn [heap stdout].
  unfold bind at 1. unfold deref at 1. cbn [heap]. rewrite nth_error_snoc.
  unfold bind at 1. unfold new at 1. cbn [heap stdout].
  unfold bind at 1. unfold deref at 1. cbn [heap]. rewrite nth_error_snoc.
  set (B := dropna (drop_duplicates df)).
  set (h2 := (heap w ++ [drop_duplicates df]) ++ [B]).
  set (r2 := List.length (heap w ++ [drop_duplicates df])).
  assert (HB : well_formed B)
    by (apply well_formed_dropna, well_formed_drop_duplicates, Hwf).
  unfold bind at 1.
  rewrite (text_pass_run _ (correct_text correction) r2 B);
    [|apply spell_lambda_reads|exact HB|apply nth_error_snoc].
  cbn [heap stdout].
  set (B1 := map_rows (text_cells (correct_text correction) (columns B)) B).
  assert (Hr2 : (r2 < List.length h2)%nat)
    by (unfold h2, r2; rewrite !length_app; cbn; lia).
  unfold bind at 1. unfold deref at 1. cbn [heap].
  rewrite (nth_error_set_nth_eq r2 B1 h2 Hr2).
  unfold bind at 1.
  rewrite (text_pass_run _ re_sub_unwanted r2 B1);
    [|apply strip_lambda_reads|apply well_formed_text_cells, HB
     |cbn [heap]; apply nth_error_set_nth_eq, Hr2].
  cbn [heap stdout]. unfold ret. f_equal.
  - unfold r2. rewrite length_app. cbn. f_equal. lia.
  - f_equal. rewrite set_nth_twice. unfold h2, r2. rewrite set_nth_last.
    rewrite <- app_assoc. cbn [app]. do 3 f_equal.
    unfold B1. rewrite map_rows_map_rows. cbn [columns map_rows].
    unfold clean_frame. fold B. apply map_rows_ext. intros r.
    unfold normalise_row, clean_text. apply text_cells_text_cells.
Qed.

Lemma run_clean_data correction df :
  well_formed df ->
  run_frame (clean_data correction) df = Ok (clean_frame correction df).
Proof.
  intros Hwf. unfold run_frame.
  rewrite (clean_data_run correction 0%nat df); [|reflexivity|exact Hwf].
  reflexivity.
Qed.

(** ** Duplicates and missing values *)

Lemma value_eqb_refl v : value_eqb v v = true.
Proof.
  destruct v as [z|x|s|]; cbn; auto.
  - apply Z.eqb_refl.
  - unfold PrimFloat.is_nan. now destruct (PrimFloat.eqb x x).
  - apply String.eqb_refl.
Qed.

Lemma row_eqb_refl r : row_eqb r r = true.
Proof. induction r as [|v r IH]; cbn; auto. now rewrite value_eqb_refl. Qed.

Lemma dedup_not_seen seen l x :
  In x (dedup seen l) -> forall s, In s seen -> row_eqb s (snd x) = false.
Proof.
  revert seen; induction l as [|[i r] l IH]; cbn; intros seen H s Hs; [contradiction|].
  destruct (existsb (fun s0 => row_eqb s0 r) seen) eqn:E.
  - eapply IH; eauto.
  - destruct H as [<-|H]; cbn.
    + destruct (row_eqb s r) eqn:E'; auto.
      assert (existsb (fun s0 => row_eqb s0 r) seen = true)
        by (apply existsb_exists; eauto).
      congruence.
    + eapply IH; eauto. apply in_or_app; now left.
Qed.

Lemma dedup_distinct seen l :
  ForallOrdPairs (fun a b => row_eqb (snd a) (snd b) = false) (dedup seen l).
Proof.
  revert seen; induction l as [|[i r] l IH]; cbn; intros seen; [constructor|].
  destruct (existsb _ seen); auto.
  constructor; auto. apply Forall_forall. intros x Hx.
  apply (dedup_not_seen _ _ _ Hx). apply in_or_app; right; now left.
Qed.

Lemma ForallOrdPairs_filter {A : Type} (R : A -> A -> Prop) p (l : list A) :
  ForallOrdPairs R l -> ForallOrdPairs R (filter p l).
Proof.
  induction 1 as [|a l Ha Hl IH]; cbn; [constructor|].
  destruct (p a); auto. constructor; auto.
  rewrite Forall_forall in *. intros x Hx. apply Ha.
  apply filter_In in Hx; tauto.
Qed.

Lemma dedup_fixed seen l :
  ForallOrdPairs (fun a b => row_eqb (snd a) (snd b) = false) l ->
  (forall s x, In s seen -> In x l -> row_eqb s (snd x) = false) ->
  dedup seen l = l.
Proof.
  intros H; revert seen; induction H as [|[i r] l Ha Hl IH]; intros seen Hs; cbn; auto.
  assert (E : existsb (fun s => row_eqb s r) seen = false).
  { destruct (existsb _ seen) eqn:E; auto.
    apply existsb_exists in E. destruct E as [s [Hin He]].
    pose proof (Hs s (i, r) Hin (or_introl eq_refl)) as Hf. cbn in Hf.
    congruence. }
  rewrite E. f_equal. apply IH.
  intros s x Hin Hx. apply in_app_or in Hin. destruct Hin as [Hin|[<-|[]]].
  - apply Hs; auto. now right.
  - rewrite Forall_forall in Ha. now apply (Ha x).
Qed.

Lemma notnull_cell_text f v : notnull (cell_text f v) = notnull v.
Proof. now destruct v. Qed.

Lemma complete_text_cells f cols r : complete (text_cells f cols r) = complete r.
Proof.
  unfold complete.
  revert r; induction cols as [|[n dt] cols IH]; intros [|v r]; cbn; auto.
  rewrite IH. f_equal. destruct dt; auto. apply notnull_cell_text.
Qed.

Lemma no_missing_dropna df : no_missing (dropna df).
Proof.
  unfold no_missing, values, dropna; cbn. apply Forall_forall.
  intros r Hr. apply in_map_iff in Hr. destruct Hr as [x [<- Hx]].
  apply filter_In in Hx. tauto.
Qed.

Lemma no_duplicates_clean_source df : no_duplicates (dropna (drop_duplicates df)).
Proof. apply ForallOrdPairs_filter, dedup_distinct. Qed.

Lemma no_missing_map_text f df :
  no_missing df -> no_missing (map_rows (text_cells f (columns df)) df).
Proof.
  unfold no_missing, values, map_rows; cbn. rewrite map_map; cbn.
  rewrite !Forall_forall. intros H r Hr.
  apply in_map_iff in Hr. destruct Hr as [x [<- Hx]].
  rewrite complete_text_cells. apply H. now apply in_map.
Qed.

Lemma text_cells_no_text f cols r :
  filter (fun c => existsb (dtype_eqb (snd c)) [Object]) cols = [] ->
  text_cells f cols r = r.
Proof.
  revert r; induction cols as [|[n dt] cols IH]; intros [|v r] H; cbn in *; auto.
  destruct dt; cbn in H; try discriminate; now rewrite IH.
Qed.

Lemma map_rows_id g df :
  (forall x, In x (rows df) -> g (snd x) = snd x) -> map_rows g df = df.
Proof.
  intros H. destruct df as [cols rs]; unfold map_rows; cbn in *. f_equal.
  rewrite <- (map_id rs) at 2. apply map_ext_in. intros [i r] Hin.
  pose proof (H (i, r) Hin) as E. cbn in *. now rewrite E.
Qed.

Lemma clean_frame_no_text correction df :
  no_text df -> clean_frame correction df = dropna (drop_duplicates df).
Proof.
  intros H. unfold clean_frame. apply map_rows_id. intros x _.
  apply text_cells_no_text. unfold no_text, select_dtypes in H.
  now apply map_eq_nil in H.
Qed.

Lemma well_formed_clean_frame correction df :
  well_formed df -> well_formed (clean_frame correction df).
Proof.
  intros H. unfold clean_frame, normalise_row.
  apply (well_formed_text_cells _ (dropna (drop_duplicates df))).
  now apply well_formed_dropna, well_formed_drop_duplicates.
Qed.

Lemma no_missing_clean_frame correction df : no_missing (clean_frame correction df).
Proof.
  unfold clean_frame, normalise_row.
  apply (no_missing_map_text _ (dropna (drop_duplicates df))), no_missing_dropna.
Qed.

Lemma fruit_frame_well_formed : well_formed fruit_frame.
Proof.
  split.
  - cbn. repeat constructor. intros [].
  - unfold well_typed. cbn. repeat constructor.
Qed.

Lemma aba_frame_well_formed : well_formed aba_frame.
Proof.
  split.
  - cbn. repeat constructor. intros [].
  - unfold well_typed. cbn. repeat constructor.
Qed.

(** C2, as stated, fails: the Cleaner drops duplicates before it rewrites
    the text, so two rows that differ in spacing only come out equal. *)
Lemma clean_data_leaves_duplicates :
  well_formed fruit_frame /\
  exists c,
    run_frame (clean_data all_known) fruit_frame = Ok c /\
    values c = [[VStr "red apple"]; [VStr "red apple"]] /\
    ~ no_duplicates c.
Proof.
  split; [exact fruit_frame_well_formed|].
  eexists. split; [vm_compute; reflexivity|]. split; [reflexivity|].
  intros H. inversion H as [|a l Ha Hl]; subst.
  inversion Ha as [|b l' Hb]; subst. cbn in Hb. discriminate.
Qed.

(** C2 (amended): for every well-formed dataset the Cleaner returns a
    dataset with no missing value, which is the text normalisation of a
    duplicate-free dataset (the input after [drop_duplicates] and [dropna]);
    it has no duplicate row when the dataset has no textual column. *)
Theorem clean_data_invariant correction df :
  well_formed df ->
  exists c,
    run_frame (clean_data correction) df = Ok c /\
    no_missing c /\
    no_duplicates (dropna (drop_duplicates df)) /\
    c = map_rows (normalise_row correction (columns df)) (dropna (drop_duplicates df)) /\
    (no_text df -> no_duplicates c).
Proof.
  intros Hwf. exists (clean_frame correction df).
  split; [now apply run_clean_data|].
  split; [apply no_missing_clean_frame|].
  split; [apply no_duplicates_clean_source|].
  split; [reflexivity|].
  intros Hnt. rewrite (clean_frame_no_text correction df Hnt).
  apply no_duplicates_clean_source.
Qed.

Lemma clean_data_invariant_witness :
  exists c,
    run_frame (clean_data all_known) fruit_frame = Ok c /\
    no_missing c /\
    no_duplicates (dropna (drop_duplicates fruit_frame)) /\
    c = map_rows (normalise_row all_known (columns fruit_frame))
                 (dropna (drop_duplicates fruit_frame)) /\
    (no_text fruit_frame -> no_duplicates c).
Proof. exact (clean_data_invariant all_known fruit_frame fruit_frame_well_formed). Defined.

(** ** First occurrence and completeness *)

Lemma index_clean_frame correction df x :
  In x (index (clean_frame correction df)) ->
  exists cells, In (x, cells) (rows df) /\ complete cells = true.
Proof.
  unfold index, clean_frame, map_rows; cbn. rewrite map_map; cbn.
  intros H. apply in_map_iff in H. destruct H as [[i r] [<- H]].
  apply filter_In in H. destruct H as [H Hc]. apply dedup_In in H.
  exists r. split; auto.
Qed.

(** C6, as stated, fails: the surviving rows are the first A and B, but
    they come out with their text rewritten. *)
Lemma clean_data_aba_rewritten :
  well_formed aba_frame /\
  exists c,
    run_frame (clean_data all_known) aba_frame = Ok c /\
    values c = [[VStr "red apple"]; [VStr "pear"]] /\
    values c <> [[VStr "red  apple"]; [VStr "pear"]].
Proof.
  split; [exact aba_frame_well_formed|].
  eexists. split; [vm_compute; reflexivity|]. split; [reflexivity|].
  cbn. discriminate.
Qed.

(** C6 (amended): for rows [A, B, A] with A and B complete and different,
    the Cleaner returns the first A and B in this order, under labels 0 and
    1, each with its text normalised (so [A, B] itself when no column is
    textual); and a row that has a missing value is absent from the
    result of the Cleaner, whatever the dataset. *)
Theorem clean_data_first_occurrence correction cols A B :
  well_formed (from_rows cols [A; B; A]) ->
  complete A = true -> complete B = true -> row_eqb A B = false ->
  run_frame (clean_data correction) (from_rows cols [A; B; A])
  = Ok (mkDataFrame cols [(0, normalise_row correction cols A);
                          (1, normalise_row correction cols B)])
  /\ (no_text (from_rows cols [A; B; A]) ->
      run_frame (clean_data correction) (from_rows cols [A; B; A])
      = Ok (mkDataFrame cols [(0, A); (1, B)]))
  /\ (forall df r cells c,
        well_formed df -> NoDup (index df) ->
        In (r, cells) (rows df) -> complete cells = false ->
        run_frame (clean_data correction) df = Ok c ->
        ~ In r (index c)).
Proof.
  intros Hwf HA HB HAB.
  assert (E : clean_frame correction (from_rows cols [A; B; A])
              = mkDataFrame cols [(0, normalise_row correction cols A);
                                  (1, normalise_row correction cols B)]).
  { unfold clean_frame, map_rows, dropna, drop_duplicates, from_rows.
    cbn -[complete row_eqb normalise_row].
    rewrite HAB, row_eqb_refl. cbn -[complete row_eqb normalise_row].
    rewrite HA, HB. reflexivity. }
  split; [|split].
  - rewrite run_clean_data by exact Hwf. now rewrite E.
  - intros Hnt. rewrite run_clean_data by exact Hwf. rewrite E. do 2 f_equal.
    unfold no_text, select_dtypes in Hnt. apply map_eq_nil in Hnt. cbn in Hnt.
    unfold normalise_row. now rewrite !text_cells_no_text.
  - intros df r cells c Hdf Hnd Hin Hc Hrun Hr.
    rewrite run_clean_data in Hrun by exact Hdf. inversion Hrun; subst c.
    apply index_clean_frame in Hr. destruct Hr as [cells' [Hin' Hc']].
    assert (cells = cells') by (eapply NoDup_fst_functional; eauto).
    congruence.
Qed.

Lemma clean_data_first_occurrence_witness :
  run_frame (clean_data all_known) aba_frame
  = Ok (mkDataFrame [("fruit", Object)]
          [(0, normalise_row all_known [("fruit", Object)] [VStr "red  apple"]);
           (1, normalise_row all_known [("fruit", Object)] [VStr "pear"])]).
Proof.
  exact (proj1 (clean_data_first_occurrence all_known [("fruit", Object)]
                  [VStr "red  apple"] [VStr "pear"]
                  aba_frame_well_formed eq_refl eq_refl eq_refl)).
Defined.

(** ** Running the Cleaner twice *)

Lemma filter_all {A : Type} (p : A -> bool) (l : list A) :
  Forall (fun x => p x = true) l -> filter p l = l.
Proof.
  induction 1 as [|x l Hx Hl IH]; cbn; auto. now rewrite Hx, IH.
Qed.

Lemma clean_frame_fixed correction c :
  no_duplicates c -> no_missing c ->
  Forall (fun r => normalise_row correction (columns c) r = r) (values c) ->
  clean_frame correction c = c.
Proof.
  intros Hd Hm Hn.
  assert (E1 : drop_duplicates c = c).
  { destruct c as [cols rs]; unfold drop_duplicates; cbn in *. f_equal.
    apply dedup_fixed; [exact Hd|]. intros s x []. }
  assert (E2 : dropna c = c).
  { destruct c as [cols rs]; unfold dropna; cbn in *. f_equal.
    apply filter_all. unfold no_missing, values in Hm; cbn in Hm.
    rewrite Forall_forall in *. intros x Hx. apply Hm. now apply in_map. }
  unfold clean_frame. rewrite E1, E2. apply map_rows_id.
  intros x Hx. rewrite Forall_forall in Hn. apply Hn. unfold values. now apply in_map.
Qed.

(** C7, as stated, fails: the first run leaves two equal rows, the second
    run drops one of them. *)
Lemma clean_data_twice_differs :
  well_formed fruit_frame /\
  exists c c2,
    run_frame (clean_data all_known) fruit_frame = Ok c /\
    run_frame (clean_data all_known) c = Ok c2 /\
    List.length (rows c) = 2%nat /\ List.length (rows c2) = 1%nat /\ c2 <> c.
Proof.
  split; [exact fruit_frame_well_formed|].
  do 2 eexists. split; [vm_compute; reflexivity|].
  split; [vm_compute; reflexivity|].
  split; [reflexivity|]. split; [reflexivity|]. discriminate.
Qed.

(** C7 (amended): running the Cleaner on its own result returns the same
    dataset whenever that result has no two equal rows and its text is
    already normalised; this is so for every dataset with no textual
    column. *)
Theorem clean_data_idempotent correction df c :
  well_formed df ->
  run_frame (clean_data correction) df = Ok c ->
  (no_duplicates c /\
   Forall (fun r => normalise_row correction (columns c) r = r) (values c))
  \/ no_text df ->
  run_frame (clean_data correction) c = Ok c.
Proof.
  intros Hwf Hrun Hcase.
  rewrite run_clean_data in Hrun by exact Hwf. injection Hrun as <-.
  assert (Hwc : well_formed (clean_frame correction df))
    by now apply well_formed_clean_frame.
  pose proof (no_missing_clean_frame correction df) as Hm.
  rewrite run_clean_data by exact Hwc. f_equal.
  destruct Hcase as [[Hd Hn]|Hnt].
  - now apply clean_frame_fixed.
  - apply clean_frame_fixed; auto.
    + rewrite (clean_frame_no_text correction df Hnt).
      apply no_duplicates_clean_source.
    + apply Forall_forall. intros r _. unfold normalise_row.
      apply text_cells_no_text.
      unfold no_text, select_dtypes in Hnt. apply map_eq_nil in Hnt.
      exact Hnt.
Qed.

Lemma numbers_frame_well_formed : well_formed numbers_frame.
Proof.
  split.
  - cbn. repeat constructor. intros [].
  - unfold well_typed. cbn. repeat constructor.
Qed.

Lemma clean_data_idempotent_witness :
  run_frame (clean_data all_known)
            (mkDataFrame [("n", Int64)] [(0, [VInt 1]); (2, [VInt 2])])
  = Ok (mkDataFrame [("n", Int64)] [(0, [VInt 1]); (2, [VInt 2])]).
Proof.
  exact (clean_data_idempotent all_known numbers_frame
           (mkDataFrame [("n", Int64)] [(0, [VInt 1]); (2, [VInt 2])])
           numbers_frame_well_formed eq_refl (or_intror eq_refl)).
Defined.

(** ** The Sorter *)

Lemma select_map {A B : Type} (g : A -> B) (l : list A) (js : list nat) :
  map g (select l js) = select (map g l) js.
Proof.
  unfold select. induction js as [|j js IH]; cbn; auto.
  rewrite map_app, IH. f_equal. rewrite nth_error_map.
  now destruct (nth_error l j).
Qed.

Lemma select_In {A : Type} (l : list A) (js : list nat) x :
  In x (select l js) -> In x l.
Proof.
  unfold select. intros H. apply in_flat_map in H. destruct H as [j [_ H]].
  destruct (nth_error l j) eqn:E; [|contradiction].
  destruct H as [<-|[]]. eapply nth_error_In; eauto.
Qed.

Lemma select_seq {A : Type} (pre l : list A) :
  select (pre ++ l) (seq (List.length pre) (List.length l)) = l.
Proof.
  revert pre; induction l as [|x l IH]; intros pre; cbn; auto.
  rewrite nth_error_app2, Nat.sub_diag by lia. cbn. f_equal.
  specialize (IH (pre ++ [x])). rewrite length_app in IH. cbn in IH.
  rewrite Nat.add_1_r in IH. rewrite <- app_assoc in IH. exact IH.
Qed.

Lemma select_Permutation {A : Type} (l : list A) (js : list nat) :
  Permutation js (seq 0 (List.length l)) -> Permutation (select l js) l.
Proof.
  intros H. unfold select.
  rewrite (Permutation_flat_map _ H).
  change (Permutation (select ([] ++ l) (seq (List.length (@nil A)) (List.length l))) l).
  now rewrite select_seq.
Qed.

Lemma filter_partition {A : Type} (p : A -> bool) (l : list A) :
  Permutation (filter p l ++ filter (fun x => negb (p x)) l) l.
Proof.
  induction l as [|x l IH]; cbn; auto.
  destruct (p x); cbn.
  - now constructor.
  - rewrite <- Permutation_middle. now constructor.
Qed.

Lemma ForallOrdPairs_app {A : Type} (R : A -> A -> Prop) (l1 l2 : list A) :
  ForallOrdPairs R l1 -> ForallOrdPairs R l2 ->
  (forall a b, In a l1 -> In b l2 -> R a b) ->
  ForallOrdPairs R (l1 ++ l2).
Proof.
  induction 1 as [|a l1 Ha Hl IH]; cbn; intros H2 H12; auto.
  constructor.
  - apply Forall_app. split; [exact Ha|].
    apply Forall_forall. intros b Hb. apply H12; [now left|exact Hb].
  - apply IH; [exact H2|]. intros x y Hx Hy. apply H12; [now right|exact Hy].
Qed.

Lemma ForallOrdPairs_rev {A : Type} (R : A -> A -> Prop) (l : list A) :
  ForallOrdPairs R l -> ForallOrdPairs (fun a b => R b a) (rev l).
Proof.
  induction 1 as [|a l Ha Hl IH]; cbn; [constructor|].
  apply ForallOrdPairs_app; auto.
  - repeat constructor.
  - intros x y Hx [<-|[]]. rewrite Forall_forall in Ha.
    apply Ha. now apply in_rev.
Qed.

Lemma sort_data_run argsort data df col asc w :
  nth_error (heap w) data = Some df ->
  sort_data argsort data col asc w
  = match sort_values argsort df col asc with
    | Ok d' => (Ok (List.length (heap w)), mkWorld (heap w ++ [d']) (stdout w))
    | Raise e => (Raise e, w)
    end.
Proof.
  intros H. unfold sort_data, bind, deref, lift, new. rewrite H.
  now destruct (sort_values argsort df col asc).
Qed.

(** Whatever [argsort] is, if it returns the indices that would sort the
    keys handed to it, the rows come out ordered by the column, those with
    a missing value last. *)
Lemma sort_data_by_contract argsort df col asc p :
  column_pos col (columns df) = Some p ->
  sorts argsort (sort_keys df col asc) ->
  exists out,
    run_frame (fun r => sort_data argsort r col asc) df = Ok out /\
    columns out = columns df /\
    Permutation (rows out) (rows df) /\
    exists present absent,
      rows out = present ++ absent /\
      Forall (fun ir => notnull (cell p ir) = true) present /\
      Forall (fun ir => isna (cell p ir) = true) absent /\
      ForallOrdPairs (fun a b => if asc then value_ltb b a = false
                                 else value_ltb a b = false)
                     (map (cell p) present).
Proof.
  intros Hp [Hperm Hsorted]. unfold sort_keys in *. rewrite Hp in *.
  rewrite length_map in Hperm.
  set (pres := present_rows p asc (rows df)) in *.
  set (sorted := select pres (argsort (map (cell p) pres))).
  exists (mkDataFrame (columns df) (sort_rows argsort p asc (rows df))).
  assert (Hsel : Permutation sorted pres) by now apply select_Permutation.
  assert (Hpres : Permutation pres (filter (fun ir => notnull (cell p ir)) (rows df))).
  { unfold pres, present_rows. destruct asc; [reflexivity|].
    symmetry. apply Permutation_rev. }
  split; [|split; [reflexivity|split]].
  - unfold run_frame. rewrite (sort_data_run argsort 0%nat df) by reflexivity.
    unfold sort_values. rewrite Hp. reflexivity.
  - cbn [rows]. unfold sort_rows. fold pres. fold sorted.
    rewrite <- (filter_partition (fun ir => notnull (cell p ir)) (rows df)) at 2.
    apply Permutation_app.
    + rewrite <- Hpres, <- Hsel. destruct asc; [reflexivity|].
      symmetry. apply Permutation_rev.
    + erewrite filter_ext; [reflexivity|].
      intros ir. unfold notnull. now rewrite negb_involutive.
  - exists (if asc then sorted else rev sorted),
           (filter (fun ir => isna (cell p ir)) (rows df)).
    split; [reflexivity|]. split; [|split].
    + apply Forall_forall. intros x Hx.
      assert (Hx' : In x (filter (fun ir => notnull (cell p ir)) (rows df))).
      { apply (Permutation_in x Hpres). apply (Permutation_in x Hsel).
        destruct asc; [exact Hx|]. now apply in_rev. }
      apply filter_In in Hx'. tauto.
    + apply Forall_forall. intros x Hx. apply filter_In in Hx. tauto.
    + unfold sorted. destruct asc.
      * now rewrite select_map.
      * rewrite map_rev, select_map.
        now apply (ForallOrdPairs_rev (fun a b => value_ltb b a = false)).
Qed.

(** ** The Validator *)

Lemma mask_filter {A : Type} (f : A -> bool) (l : list A) :
  map fst (filter (fun rm => snd rm) (combine l (map f l))) = filter f l.
Proof.
  induction l as [|x l IH]; cbn; auto.
  destruct (f x); cbn; now rewrite IH.
Qed.

Lemma nth_error_app_old {A : Type} (l l' : list A) r x :
  nth_error l r = Some x -> nth_error (l ++ l') r = Some x.
Proof.
  intros H. rewrite nth_error_app1; auto. apply nth_error_Some. congruence.
Qed.

(** C9: [check_domain_constraints] leaves every frame of the heap as it
    was, the dataset it was given included, whether it returns or raises;
    all it does is print.  When the column exists it returns, and what it
    prints is either the heading and the rows whose value is not among the
    valid values, or the line saying that there is no problem. *)
Theorem check_domain_constraints_diagnostic data column_name valid_values w :
  (forall r df,
      nth_error (heap w) r = Some df ->
      nth_error (heap (snd (check_domain_constraints data column_name valid_values w))) r
      = Some df) /\
  (exists report,
      stdout (snd (check_domain_constraints data column_name valid_values w))
      = stdout w ++ report) /\
  (forall d p,
      nth_error (heap w) data = Some d ->
      column_pos column_name (columns d) = Some p ->
      fst (check_domain_constraints data column_name valid_values w) = Ok tt /\
      stdout (snd (check_domain_constraints data column_name valid_values w))
      = stdout w ++
        match rows (invalid_rows p valid_values d) with
        | [] => [Line ("No domain constraint problems found in column '"
                       ++ column_name ++ "'.")]
        | _ :: _ => [Line ("Invalid values found in column '" ++ column_name ++ "':");
                     Table (invalid_rows p valid_values d)]
        end).
Proof.
  unfold check_domain_constraints, bind, deref, lift, new, print, getitem.
  destruct (nth_error (heap w) data) as [d|] eqn:Hd.
  2:{ cbn. split; [auto|]. split; [exists []; now rewrite app_nil_r|].
      intros d p H; discriminate. }
  destruct (column_pos column_name (columns d)) as [p|] eqn:Hp.
  2:{ cbn. split; [auto|]. split; [exists []; now rewrite app_nil_r|].
      intros d' p' H H'. congruence. }
  cbn [heap stdout fst snd]. rewrite nth_error_snoc.
  rewrite map_map.
  assert (E : getitem_mask d (map (fun x => negb (isin valid_values (cell p x))) (rows d))
              = invalid_rows p valid_values d).
  { unfold getitem_mask, invalid_rows. f_equal. apply mask_filter. }
  rewrite E.
  assert (Hc : columns d <> []) by (intros Hn; rewrite Hn in Hp; discriminate).
  unfold empty. cbn [rows columns invalid_rows].
  destruct (filter _ (rows d)) as [|x l] eqn:Hf; cbn.
  - split; [intros r df H; now apply nth_error_app_old|].
    split; [eexists; reflexivity|].
    intros d' p' Hd' Hp'. injection Hd' as <-. rewrite Hp in Hp'. injection Hp' as <-.
    cbn. rewrite Hf. split; reflexivity.
  - destruct (columns d) as [|c cs] eqn:Hcols; [contradiction|]. cbn.
    split; [intros r df H; now apply nth_error_app_old|].
    split; [eexists; rewrite <- app_assoc; reflexivity|].
    intros d' p' Hd' Hp'. injection Hd' as <-. rewrite Hcols in Hp'.
    rewrite Hp in Hp'. injection Hp' as <-.
    cbn. rewrite ?Hcols, ?Hf. rewrite <- ?app_assoc. split; reflexivity.
Qed.

(** ** The API loader *)

(** C5, the failing input: a 200 response whose body is the JSON value
    [null] has no [data] key, and [load_api] raises [TypeError]; nothing is
    printed and no frame is made. *)
Theorem load_api_null_body_raises pd_DataFrame api_url w :
  load_api (fun _ _ => Responded null_response) pd_DataFrame api_url w
  = (Raise (TypeError "argument is not iterable"), w).
Proof. reflexivity. Qed.

(** The paths on which [load_api] does what the claim says. *)
Lemma load_api_fail_soft requests_get pd_DataFrame api_url w :
  match requests_get api_url 10 with
  | TimedOut | RequestFailed _ => True
  | Responded r =>
      status_code r <> 200 \/ body r = None \/
      exists fields, body r = Some (JObj fields) /\
                     existsb (fun kv => String.eqb (fst kv) "data") fields = false
  end ->
  exists report,
    load_api requests_get pd_DataFrame api_url w
    = (Ok None, mkWorld (heap w) (stdout w ++ report)) /\ report <> [].
Proof.
  unfold load_api. destruct (requests_get api_url 10) as [|e|r]; intros H.
  - eexists. split; [reflexivity|discriminate].
  - eexists. split; [reflexivity|discriminate].
  - destruct (status_code r =? 200) eqn:E.
    + apply Z.eqb_eq in E.
      destruct H as [H|[H|[fields [H Hk]]]]; [contradiction| |]; rewrite H.
      * eexists. split; [reflexivity|discriminate].
      * unfold bind, lift, contains. rewrite Hk.
        eexists. split; [reflexivity|discriminate].
    + eexists. unfold bind, print, ret; cbn. rewrite <- app_assoc.
      split; [reflexivity|discriminate].
Qed.

(** On an answer with status 200 whose JSON object has the key [data],
    [load_api] returns [pd.DataFrame] of the value under the key as a new
    frame and prints nothing; what the constructor raises is not caught, and
    then nothing has changed. *)
Lemma load_api_builds_frame requests_get pd_DataFrame api_url w r fields v :
  requests_get api_url 10 = Responded r ->
  status_code r = 200 ->
  body r = Some (JObj fields) ->
  find (fun kv => String.eqb (fst kv) "data") fields = Some ("data", v) ->
  load_api requests_get pd_DataFrame api_url w
  = match pd_DataFrame v with
    | Ok df => (Ok (Some (List.length (heap w))),
                mkWorld (heap w ++ [df]) (stdout w))
    | Raise e => (Raise e, w)
    end.
Proof.
  intros Hget Hs Hb Hf. unfold load_api. rewrite Hget, Hs, Hb. cbn.
  unfold bind, lift, contains, json_getitem, new, ret.
  assert (E : existsb (fun kv => String.eqb (fst kv) "data") fields = true).
  { apply existsb_exists. exists ("data", v). split; [|reflexivity].
    now apply find_some in Hf. }
  rewrite E, Hf. cbn. now destruct (pd_DataFrame v).
Qed.

(** ** The Orchestrator and the Transformer on concrete datasets *)

(** C1, the failing input: for a dataset of two rows with a price and a
    colour, the Cleaner returns the prices 1 and 3 as integers, and the
    cleaned dataset [perform_analysis] returns has the column rescaled to
    -1 and 1 as floats: [transform_data] assigned into the frame it was
    given.  The colour column of the cleaned dataset is as the Cleaner left
    it. *)
Theorem perform_analysis_rescales_cleaned :
  run_frame (clean_data all_known) prices_frame
  = Ok (mkDataFrame [("price", Int64); ("colour", Object)]
                    [(0, [VInt 1; VStr "red"]); (1, [VInt 3; VStr "blue"])]) /\
  run_analysis all_known numpy_argsort prices_frame
  = Ok (mkDataFrame [("price", Float64); ("colour", Object)]
                    [(0, [VFloat (-1)%float; VStr "red"]);
                     (1, [VFloat 1%float; VStr "blue"])],
        mkDataFrame [("price", Float64); ("colour_blue", Float64);
                     ("colour_red", Float64)]
                    [(0, [VFloat (-1)%float; VFloat 0%float; VFloat 1%float]);
                     (1, [VFloat 1%float; VFloat 1%float; VFloat 0%float])]).
Proof. split; vm_compute; reflexivity. Qed.

(** C3, the failing input: the Cleaner dropped the middle row of
    [shop_frame], so its result has the labels 0 and 2.  [transform_data]
    labels the indicator rows 0 and 1 and joins the two frames by label: the
    result has three rows, the indicators of the second row of the input
    stand in a row of their own, and the second row has none. *)
Theorem transform_data_misaligned :
  run_frame (clean_data all_known) shop_frame = Ok cleaned_shop_frame /\
  run_frame transform_data cleaned_shop_frame
  = Ok (mkDataFrame [("price", Float64); ("colour_blue", Float64);
                     ("colour_red", Float64)]
                    [(0, [VFloat (-1)%float; VFloat 0%float; VFloat 1%float]);
                     (2, [VFloat 1%float; VFloat PrimFloat.nan; VFloat PrimFloat.nan]);
                     (1, [VFloat PrimFloat.nan; VFloat 1%float; VFloat 0%float])]).
Proof. split; vm_compute; reflexivity. Qed.

(** ** Columns and positions *)

Lemma column_pos_In n cols :
  In n (map fst cols) -> exists p, column_pos n cols = Some p.
Proof.
  induction cols as [|[m dt] cols IH]; cbn; intros H; [contradiction|].
  destruct (String.eqb m n) eqn:E; [eauto|].
  destruct H as [H|H]; [subst; rewrite String.eqb_refl in E; discriminate|].
  destruct (IH H) as [p Hp]. rewrite Hp. eauto.
Qed.

Lemma column_pos_nth n cols p :
  column_pos n cols = Some p -> exists dt, nth_error cols p = Some (n, dt).
Proof.
  revert p; induction cols as [|[m dt] cols IH]; cbn; intros p H; [discriminate|].
  destruct (String.eqb m n) eqn:E.
  - injection H as <-. apply String.eqb_eq in E; subst. cbn. eauto.
  - destruct (column_pos n cols) as [q|]; [|discriminate].
    injection H as <-. cbn. now apply IH.
Qed.

Lemma column_pos_names n cols cols' :
  map fst cols = map fst cols' -> column_pos n cols = column_pos n cols'.
Proof.
  revert cols'; induction cols as [|[m dt] cols IH]; intros [|[m' dt'] cols'] H;
    cbn in *; try discriminate; auto.
  injection H as -> H. now rewrite (IH cols' H).
Qed.

Lemma column_pos_app n cols cols' p :
  column_pos n cols = Some p -> column_pos n (cols ++ cols') = Some p.
Proof.
  revert p; induction cols as [|[m dt] cols IH]; cbn; intros p H; [discriminate|].
  destruct (String.eqb m n); auto.
  destruct (column_pos n cols) as [q|]; [|discriminate].
  now rewrite (IH q eq_refl).
Qed.

Lemma row_ok_length dts r : row_ok dts r = true -> List.length r = List.length dts.
Proof.
  revert r; induction dts as [|dt dts IH]; intros [|v r] H; cbn in *;
    try discriminate; auto.
  apply andb_prop in H. destruct H as [_ H]. now rewrite (IH r H).
Qed.

Lemma row_ok_cell (cols : list (string * dtype)) r p n dt :
  row_ok (map snd cols) r = true ->
  nth_error cols p = Some (n, dt) ->
  cell_ok dt (nth p r VNone) = true.
Proof.
  revert r p; induction cols as [|[m d] cols IH]; intros [|v r] [|p] H Hn; cbn in *;
    try discriminate.
  - injection Hn as -> ->. apply andb_prop in H; tauto.
  - apply andb_prop in H. destruct H as [_ H]. now apply IH.
Qed.

Lemma in_values df r : In r (values df) <-> exists i, In (i, r) (rows df).
Proof.
  unfold values. rewrite in_map_iff. split.
  - intros [[i r'] [E H]]. cbn in E. subst r'. now exists i.
  - intros [i H]. now exists (i, r).
Qed.

Lemma well_typed_row df i r :
  well_typed df -> In (i, r) (rows df) -> row_ok (map snd (columns df)) r = true.
Proof.
  intros H Hin. unfold well_typed in H. rewrite Forall_forall in H.
  apply H. apply in_values. eauto.
Qed.

Lemma select_dtypes_In incl df n :
  In n (select_dtypes incl df) <->
  exists dt, In (n, dt) (columns df) /\ existsb (dtype_eqb dt) incl = true.
Proof.
  unfold select_dtypes. rewrite in_map_iff. split.
  - intros [[m d] [<- H]]. apply filter_In in H. now exists d.
  - intros [dt [H E]]. exists (n, dt). split; [reflexivity|].
    now apply filter_In.
Qed.

Lemma select_dtypes_names incl df n :
  In n (select_dtypes incl df) -> In n (column_names df).
Proof.
  intros H. apply select_dtypes_In in H. destruct H as [dt [H _]].
  unfold column_names. change n with (fst (n, dt)). now apply in_map.
Qed.

Lemma getitem_column df n :
  In n (column_names df) -> getitem df n = Ok (column df n).
Proof.
  intros H. unfold getitem, column.
  destruct (column_pos_In n (columns df) H) as [p ->]. reflexivity.
Qed.

Lemma getitem_cols_columns df names :
  (forall n, In n names -> In n (column_names df)) ->
  getitem_cols df names = Ok (map (column df) names).
Proof.
  intros H. unfold getitem_cols. apply mapM_ok.
  intros n Hn. now apply getitem_column, H.
Qed.

(** The dtype of a column of a frame with distinct column names. *)
Lemma column_dtype df n dt p :
  NoDup (column_names df) ->
  In (n, dt) (columns df) ->
  column_pos n (columns df) = Some p ->
  nth_error (columns df) p = Some (n, dt).
Proof.
  intros Hnd Hin Hp. destruct (column_pos_nth _ _ _ Hp) as [dt' Hn].
  rewrite Hn. do 2 f_equal.
  apply (NoDup_fst_functional (columns df) n dt' dt Hnd); auto.
  eapply nth_error_In; eauto.
Qed.

Lemma column_typed df n dt v :
  well_formed df -> In (n, dt) (columns df) -> In v (column df n) ->
  cell_ok dt v = true.
Proof.
  intros [Hnd Hwt] Hin Hv. unfold column in Hv.
  destruct (column_pos n (columns df)) as [p|] eqn:Hp; [|contradiction].
  apply in_map_iff in Hv. destruct Hv as [[i r] [<- Hr]].
  unfold cell; cbn.
  apply (row_ok_cell (columns df) r p n dt).
  - eapply well_typed_row; eauto.
  - now apply column_dtype.
Qed.

Lemma column_length df n :
  In n (column_names df) -> List.length (column df n) = List.length (rows df).
Proof.
  intros H. unfold column.
  destruct (column_pos_In n (columns df) H) as [p ->]. apply length_map.
Qed.

(** ** The scaler on the numeric columns *)

Lemma mapM_ok_map {A B : Type} (f : A -> result B) (g : A -> B) (l : list A) :
  Forall (fun x => f x = Ok (g x)) l -> mapM f l = Ok (map g l).
Proof. intros H. apply mapM_ok. now apply Forall_forall. Qed.

Lemma to_float_numeric dt v :
  is_numeric dt = true -> cell_ok dt v = true -> to_float v = Ok (as_float v).
Proof. destruct dt, v; cbn; intros; try discriminate; reflexivity. Qed.

Lemma numeric_selected df n :
  In n (select_dtypes [Float64; Int64] df) <->
  exists dt, In (n, dt) (columns df) /\ is_numeric dt = true.
Proof.
  rewrite select_dtypes_In. split; intros [dt [H E]]; exists dt; split; auto;
    destruct dt; cbn in *; auto.
Qed.

Lemma object_selected df n :
  In n (select_dtypes [Object] df) <-> In (n, Object) (columns df).
Proof. apply select_dtypes_object_In. Qed.

Lemma column_finite df n v :
  finite df -> In v (column df n) -> PrimFloat.is_infinity (as_float v) = false.
Proof.
  intros Hf Hv. unfold column in Hv.
  destruct (column_pos n (columns df)) as [p|]; [|contradiction].
  apply in_map_iff in Hv. destruct Hv as [[i r] [<- Hr]]. unfold cell; cbn.
  destruct (nth_in_or_default p r VNone) as [Hin | ->]; [|reflexivity].
  unfold finite in Hf. rewrite Forall_forall in Hf.
  assert (Hrv : In r (values df)) by (apply in_values; eauto).
  specialize (Hf r Hrv). rewrite Forall_forall in Hf. now apply Hf.
Qed.

Lemma existsb_false {A : Type} (f : A -> bool) (l : list A) :
  (forall x, In x l -> f x = false) -> existsb f l = false.
Proof.
  induction l as [|x l IH]; cbn; intros H; auto.
  rewrite (H x (or_introl eq_refl)), IH; auto.
Qed.

Lemma scaler_ok df :
  transformable df ->
  StandardScaler_fit_transform
    (List.length (rows df)) (map (column df) (select_dtypes [Float64; Int64] df))
  = Ok (map (fun n => standardize (map as_float (column df n)))
            (select_dtypes [Float64; Int64] df)).
Proof.
  intros [Hwf [_ [Hrows [Hnum Hfin]]]]. unfold StandardScaler_fit_transform.
  destruct (map (column df) (select_dtypes [Float64; Int64] df)) as [|c0 cs] eqn:HX.
  { apply map_eq_nil in HX. contradiction. }
  rewrite <- HX. clear HX c0 cs.
  destruct (List.length (rows df)) as [|len] eqn:Hlen.
  { apply length_zero_iff_nil in Hlen. contradiction. }
  cbn [Nat.eqb].
  rewrite (mapM_ok _ (map as_float)).
  - cbn [rbind]. rewrite existsb_false.
    + now rewrite !map_map.
    + intros A HA. apply in_map_iff in HA. destruct HA as [c [<- Hc]].
      apply in_map_iff in Hc. destruct Hc as [n [<- Hn]].
      apply existsb_false. intros y Hy. apply in_map_iff in Hy.
      destruct Hy as [v [<- Hv]]. now apply (column_finite df n).
  - intros c Hc. apply in_map_iff in Hc. destruct Hc as [n [<- Hn]].
    apply mapM_ok. intros v Hv.
    apply numeric_selected in Hn. destruct Hn as [dt [Hin Hdt]].
    apply (to_float_numeric dt); auto. now apply (column_typed df n).
Qed.

(** ** Assigning the scaled columns *)

Lemma index_of_nth n names j :
  index_of n names = Some j -> nth_error names j = Some n.
Proof.
  revert j; induction names as [|m names IH]; cbn; intros j H; [discriminate|].
  destruct (String.eqb m n) eqn:E.
  - injection H as <-. apply String.eqb_eq in E; now subst.
  - destruct (index_of n names) as [k|]; [|discriminate].
    injection H as <-. now apply IH.
Qed.

Lemma index_of_In n names : In n names -> exists j, index_of n names = Some j.
Proof.
  induction names as [|m names IH]; cbn; intros H; [contradiction|].
  destruct (String.eqb m n) eqn:E; [eauto|].
  destruct H as [H|H]; [subst; rewrite String.eqb_refl in E; discriminate|].
  destruct (IH H) as [j ->]. eauto.
Qed.


Lemma index_of_Some_In n names j : index_of n names = Some j -> In n names.
Proof. intros H. apply index_of_nth in H. eapply nth_error_In; eauto. Qed.

Lemma nth_assign_cells names Y i (cols : list (string * dtype)) r p m dt :
  nth_error cols p = Some (m, dt) ->
  List.length r = List.length cols ->
  nth p (assign_cells names Y i cols r) VNone
  = match index_of m names with
    | Some j => VFloat (nth i (nth j Y []) PrimFloat.nan)
    | None => nth p r VNone
    end.
Proof.
  revert r p; induction cols as [|[n d] cols IH]; intros [|v r] [|p] Hn Hl;
    cbn in *; try discriminate.
  - injection Hn as -> ->. reflexivity.
  - apply IH; auto.
Qed.

Lemma assign_cells_length names Y i (cols : list (string * dtype)) r :
  List.length (assign_cells names Y i cols r) = List.length r.
Proof.
  revert r; induction cols as [|[n d] cols IH]; intros [|v r]; cbn; auto.
Qed.

Lemma map_combine_fst {A B C : Type} (g : A -> C) (a : list A) (b : list B) :
  List.length a = List.length b ->
  map (fun ab => g (fst ab)) (combine a b) = map g a.
Proof.
  revert b; induction a as [|x a IH]; intros [|y b] H; cbn in *; try discriminate; auto.
  f_equal. apply IH. lia.
Qed.

Lemma map_combine_snd {A B C : Type} (g : B -> C) (a : list A) (b : list B) :
  List.length a = List.length b ->
  map (fun ab => g (snd ab)) (combine a b) = map g b.
Proof.
  revert b; induction a as [|x a IH]; intros [|y b] H; cbn in *; try discriminate; auto.
  f_equal. apply IH. lia.
Qed.

Lemma map_nth_seq {A : Type} (l : list A) (d : A) :
  map (fun i => nth i l d) (seq 0 (List.length l)) = l.
Proof.
  induction l as [|x l IH]; cbn; auto. f_equal.
  rewrite <- seq_shift, map_map. exact IH.
Qed.

Lemma setitem_cols_names df names Y :
  column_names (setitem_cols df names Y) = column_names df.
Proof.
  unfold column_names, setitem_cols; cbn. rewrite map_map.
  apply map_ext. intros [n dt]; cbn. now destruct (index_of n names).
Qed.

Lemma setitem_cols_rows_length df names Y :
  List.length (rows (setitem_cols df names Y)) = List.length (rows df).
Proof.
  unfold setitem_cols; cbn. rewrite length_map, length_combine, length_seq. lia.
Qed.

Lemma setitem_cols_index df names Y :
  index (setitem_cols df names Y) = index df.
Proof.
  unfold index, setitem_cols; cbn. rewrite map_map; cbn.
  rewrite (map_combine_snd (fun ir => fst ir)); auto. apply length_seq.
Qed.

Lemma setitem_cols_column_pos df names Y m :
  column_pos m (columns (setitem_cols df names Y)) = column_pos m (columns df).
Proof. apply column_pos_names. apply setitem_cols_names. Qed.

Lemma setitem_cols_column df names Y m :
  well_typed df ->
  In m (column_names df) ->
  column (setitem_cols df names Y) m
  = match index_of m names with
    | Some j => map (fun i => VFloat (nth i (nth j Y []) PrimFloat.nan))
                    (seq 0 (List.length (rows df)))
    | None => column df m
    end.
Proof.
  intros Hwt Hm. unfold column. rewrite setitem_cols_column_pos.
  destruct (column_pos_In m (columns df) Hm) as [p Hp]. rewrite Hp.
  destruct (column_pos_nth _ _ _ Hp) as [dt Hdt].
  unfold setitem_cols; cbn [rows]. rewrite map_map.
  assert (E : forall iir,
             In iir (combine (seq 0 (List.length (rows df))) (rows df)) ->
             cell p (fst (snd iir),
                     assign_cells names Y (fst iir) (columns df) (snd (snd iir)))
             = match index_of m names with
               | Some j => VFloat (nth (fst iir) (nth j Y []) PrimFloat.nan)
               | None => cell p (snd iir)
               end).
  { intros [i [lbl r]] Hin. unfold cell; cbn.
    apply (nth_assign_cells names Y i (columns df) r p m dt Hdt).
    apply in_combine_r in Hin.
    rewrite (row_ok_length (map snd (columns df)) r), length_map; auto.
    eapply well_typed_row; eauto. }
  rewrite (map_ext_in _ _ _ E).
  destruct (index_of m names) as [j|].
  - rewrite (map_combine_fst (fun i => VFloat (nth i (nth j Y []) PrimFloat.nan)));
      auto. apply length_seq.
  - rewrite (map_combine_snd (cell p)); auto. apply length_seq.
Qed.

Lemma standardize_length xs : List.length (standardize xs) = List.length xs.
Proof. unfold standardize. apply length_map. Qed.

Lemma scaled_column df m :
  well_typed df ->
  In m (select_dtypes [Float64; Int64] df) ->
  column (setitem_cols df (select_dtypes [Float64; Int64] df)
            (map (fun n => standardize (map as_float (column df n)))
                 (select_dtypes [Float64; Int64] df))) m
  = map VFloat (standardize (map as_float (column df m))).
Proof.
  intros Hwt Hm.
  pose proof (select_dtypes_names _ _ _ Hm) as Hname.
  rewrite setitem_cols_column; auto.
  destruct (index_of_In m _ Hm) as [j Hj]. rewrite Hj.
  apply index_of_nth in Hj.
  set (F := fun n => standardize (map as_float (column df n))).
  assert (E : nth j (map F (select_dtypes [Float64; Int64] df)) [] = F m).
  { apply nth_error_nth. rewrite nth_error_map, Hj. reflexivity. }
  rewrite E. unfold F.
  rewrite <- (map_map (fun i => nth i _ PrimFloat.nan) VFloat). f_equal.
  rewrite <- (column_length df m Hname).
  rewrite <- (length_map as_float (column df m)).
  rewrite <- (standardize_length (map as_float (column df m))).
  apply map_nth_seq.
Qed.

Lemma unscaled_column df names Y m :
  well_typed df -> In m (column_names df) -> ~ In m names ->
  column (setitem_cols df names Y) m = column df m.
Proof.
  intros Hwt Hm Hn. rewrite setitem_cols_column; auto.
  destruct (index_of m names) eqn:E; auto.
  apply index_of_Some_In in E. contradiction.
Qed.

Lemma setitem_cols_objects df :
  NoDup (column_names df) ->
  forall Y,
    select_dtypes [Object]
      (setitem_cols df (select_dtypes [Float64; Int64] df) Y)
    = select_dtypes [Object] df.
Proof.
  intros Hnd Y. unfold select_dtypes at 1 3. unfold setitem_cols; cbn [columns].
  set (nums := select_dtypes [Float64; Int64] df).
  assert (H : forall c, In c (columns df) ->
                        index_of (fst c) nums <> None -> is_numeric (snd c) = true).
  { intros [n dt] Hc Hi; cbn in *.
    destruct (index_of n nums) eqn:E; [|contradiction].
    apply index_of_Some_In in E. apply numeric_selected in E.
    destruct E as [dt' [Hin Hdt]].
    now rewrite (NoDup_fst_functional (columns df) n dt dt' Hnd Hc Hin). }
  revert H. generalize (columns df) as cols.
  induction cols as [|[n dt] cols IH]; intros H; cbn; auto.
  assert (IH' := IH (fun c Hc => H c (or_intror Hc))).
  specialize (H (n, dt) (or_introl eq_refl)). cbn in H.
  destruct (index_of n nums) eqn:E; cbn.
  - assert (Hd : is_numeric dt = true) by (apply H; discriminate).
    destruct dt; try discriminate; cbn in *; exact IH'.
  - destruct dt; cbn in *; now rewrite ?IH'.
Qed.

(** ** The encoder on the textual columns *)

Lemma categories_of_ok col :
  Forall (fun v => cell_ok Object v = true) col ->
  categories_of col = Ok (categories col).
Proof.
  intros H. unfold categories_of. rewrite existsb_false; auto.
  intros v Hv. rewrite Forall_forall in H. specialize (H v Hv).
  destruct v; cbn in *; try discriminate; reflexivity.
Qed.

Lemma encoder_fit_ok n X :
  n <> 0%nat ->
  Forall (Forall (fun v => cell_ok Object v = true)) X ->
  OneHotEncoder_fit n X = Ok (map categories X).
Proof.
  intros Hn H. unfold OneHotEncoder_fit. destruct X as [|c X]; [reflexivity|].
  destruct n; [contradiction|]. cbn [Nat.eqb].
  apply mapM_ok_map. rewrite Forall_forall in *. intros x Hx.
  apply categories_of_ok, H, Hx.
Qed.

(** ** Dropping the textual columns and joining the frames *)

Lemma well_typed_shaped df : well_typed df -> shaped df.
Proof.
  intros H. unfold shaped. apply Forall_forall. intros [i r] Hin; cbn.
  rewrite (row_ok_length (map snd (columns df)) r), length_map; auto.
  eapply well_typed_row; eauto.
Qed.

Lemma setitem_cols_shaped df names Y : shaped df -> shaped (setitem_cols df names Y).
Proof.
  unfold shaped, setitem_cols; cbn. rewrite !Forall_forall. intros H x Hx.
  apply in_map_iff in Hx. destruct Hx as [[i [lbl r]] [<- Hin]]; cbn.
  rewrite assign_cells_length, length_map.
  apply in_combine_r in Hin. apply (H (lbl, r) Hin).
Qed.

Lemma drop_index df names : index (drop df names) = index df.
Proof. unfold index, drop; cbn. now rewrite map_map. Qed.

Lemma drop_rows_length df names :
  List.length (rows (drop df names)) = List.length (rows df).
Proof. unfold drop; cbn. apply length_map. Qed.

Lemma drop_cells_length names (cols : list (string * dtype)) r :
  List.length r = List.length cols ->
  List.length (drop_cells names cols r)
  = List.length (filter (fun c => negb (dropped names (fst c))) cols).
Proof.
  revert r; induction cols as [|[n dt] cols IH]; intros [|v r] H;
    cbn -[dropped] in *; try discriminate; auto.
  destruct (dropped names n); cbn -[dropped]; rewrite IH; auto.
Qed.

Lemma drop_shaped df names : shaped df -> shaped (drop df names).
Proof.
  unfold shaped, drop; cbn. rewrite !Forall_forall. intros H x Hx.
  apply in_map_iff in Hx. destruct Hx as [[lbl r] [<- Hin]]; cbn.
  apply drop_cells_length. apply (H (lbl, r) Hin).
Qed.

Lemma drop_pos names (cols : list (string * dtype)) m p :
  column_pos m cols = Some p ->
  dropped names m = false ->
  exists q,
    column_pos m (filter (fun c => negb (dropped names (fst c))) cols) = Some q /\
    forall r, List.length r = List.length cols ->
              nth q (drop_cells names cols r) VNone = nth p r VNone.
Proof.
  revert p; induction cols as [|[n dt] cols IH]; cbn -[dropped]; intros p Hp Hd;
    [discriminate|].
  destruct (String.eqb n m) eqn:E.
  - injection Hp as <-. apply String.eqb_eq in E; subst n.
    cbn -[dropped]. rewrite Hd. cbn -[dropped]. rewrite String.eqb_refl.
    exists 0%nat. split; auto.
    intros [|v r] Hl; cbn -[dropped] in *; [discriminate|]. now rewrite ?Hd.
  - destruct (column_pos m cols) as [p'|] eqn:Hp'; [|discriminate].
    injection Hp as <-. destruct (IH p' eq_refl Hd) as [q [Hq Hr]].
    cbn -[dropped]. destruct (dropped names n) eqn:Hn; cbn -[dropped].
    + exists q. split; auto. intros [|v r] Hl; cbn -[dropped] in *; [discriminate|].
      rewrite ?Hn. apply Hr. lia.
    + rewrite E, Hq. exists (S q). split; auto.
      intros [|v r] Hl; cbn -[dropped] in *; [discriminate|].
      rewrite ?Hn. cbn. apply Hr. lia.
Qed.

Lemma drop_column df names m :
  shaped df -> In m (column_names df) -> dropped names m = false ->
  column (drop df names) m = column df m /\ In m (column_names (drop df names)).
Proof.
  intros Hs Hm Hd. unfold column.
  destruct (column_pos_In m (columns df) Hm) as [p Hp]. rewrite Hp.
  destruct (drop_pos names (columns df) m p Hp Hd) as [q [Hq Hr]].
  unfold drop at 1; cbn [columns rows]. rewrite Hq. split.
  - cbn [rows drop]. rewrite map_map. apply map_ext_in. intros [lbl r] Hin.
    unfold cell; cbn. apply Hr. unfold shaped in Hs. rewrite Forall_forall in Hs.
    apply (Hs (lbl, r) Hin).
  - destruct (column_pos_nth _ _ _ Hq) as [dt Hdt].
    unfold column_names, drop; cbn. change m with (fst (m, dt)).
    apply in_map. eapply nth_error_In; eauto.
Qed.

Lemma side_by_side_index a b :
  List.length (rows a) = List.length (rows b) ->
  index (side_by_side a b) = index a.
Proof.
  intros H. unfold index, side_by_side; cbn. rewrite map_map; cbn.
  rewrite (map_combine_fst (fun ir => fst ir)); auto.
Qed.

Lemma side_by_side_column a b m :
  List.length (rows a) = List.length (rows b) ->
  shaped a -> In m (column_names a) ->
  column (side_by_side a b) m = column a m.
Proof.
  intros Hl Hs Hm. unfold column.
  destruct (column_pos_In m (columns a) Hm) as [p Hp]. rewrite Hp.
  unfold side_by_side; cbn [columns rows].
  rewrite (column_pos_app m (columns a) (columns b) p Hp).
  rewrite map_map.
  rewrite <- (map_combine_fst (cell p) (rows a) (rows b) Hl).
  apply map_ext_in. intros [[la ra] [lb rb]] Hin. unfold cell; cbn.
  apply app_nth1. apply in_combine_l in Hin.
  unfold shaped in Hs. rewrite Forall_forall in Hs.
  specialize (Hs (la, ra) Hin). cbn in Hs. rewrite Hs.
  destruct (column_pos_nth _ _ _ Hp) as [dt Hdt].
  apply nth_error_Some. congruence.
Qed.

Lemma RangeIndex_length s n : List.length (RangeIndex s n) = n.
Proof. revert s; induction n; cbn; auto. Qed.

Lemma from_rows_index cols rs : index (from_rows cols rs) = RangeIndex 0 (List.length rs).
Proof.
  unfold index, from_rows; cbn.
  rewrite <- (map_id (RangeIndex 0 (List.length rs))) at 2.
  apply (map_combine_fst (fun x => x)). apply RangeIndex_length.
Qed.

Lemma from_rows_length cols rs : List.length (rows (from_rows cols rs)) = List.length rs.
Proof.
  unfold from_rows; cbn. rewrite length_combine, RangeIndex_length. lia.
Qed.

Lemma same_labels_refl l : same_labels l l = true.
Proof.
  unfold same_labels. rewrite Nat.eqb_refl; cbn.
  induction l as [|x l IH]; cbn; auto. now rewrite Z.eqb_refl.
Qed.

Lemma encoded_frame_index df :
  index (encoded_frame df) = RangeIndex 0 (List.length (rows df)).
Proof.
  unfold encoded_frame, DataFrame_of_array. rewrite from_rows_index.
  now rewrite length_map, length_seq.
Qed.

Lemma encoded_frame_length df :
  List.length (rows (encoded_frame df)) = List.length (rows df).
Proof.
  unfold encoded_frame, DataFrame_of_array. rewrite from_rows_length.
  now rewrite length_map, length_seq.
Qed.

(** ** The Transformer returns [transform_frame] on a frame with default labels *)

Lemma numeric_not_object df n :
  NoDup (column_names df) ->
  In n (select_dtypes [Object] df) -> ~ In n (select_dtypes [Float64; Int64] df).
Proof.
  intros Hnd Ho Hn. apply object_selected in Ho. apply numeric_selected in Hn.
  destruct Hn as [dt [Hin Hdt]].
  rewrite (NoDup_fst_functional (columns df) n dt Object Hnd Hin Ho) in Hdt.
  discriminate.
Qed.

Lemma scaled_frame_objects df :
  well_formed df ->
  select_dtypes [Object] (scaled_frame df) = select_dtypes [Object] df /\
  map (column (scaled_frame df)) (select_dtypes [Object] df)
  = map (column df) (select_dtypes [Object] df).
Proof.
  intros [Hnd Hwt]. split; [now apply setitem_cols_objects|].
  apply map_ext_in. intros n Hn. apply unscaled_column; auto.
  - eapply select_dtypes_names; eauto.
  - now apply numeric_not_object.
Qed.

Lemma object_columns_typed df :
  well_formed df ->
  Forall (Forall (fun v => cell_ok Object v = true))
         (map (column df) (select_dtypes [Object] df)).
Proof.
  intros Hwf. apply Forall_forall. intros c Hc.
  apply in_map_iff in Hc. destruct Hc as [n [<- Hn]].
  apply Forall_forall. intros v Hv. apply object_selected in Hn.
  now apply (column_typed df n Object v).
Qed.

Lemma transform_data_run df :
  transformable df -> run_frame transform_data df = Ok (transform_frame df).
Proof.
  intros Ht. pose proof Ht as [Hwf [Hlab [Hrows [Hnum Hfin]]]].
  pose proof Hwf as [Hnd Hwt].
  destruct (scaled_frame_objects df Hwf) as [Hobj Hcols].
  unfold run_frame, transform_data. cbv zeta.
  unfold bind at 1. unfold deref at 1. cbn [heap nth_error].
  unfold bind at 1. unfold lift at 1.
  rewrite getitem_cols_columns
    by (intros n Hn; eapply select_dtypes_names; eauto).
  unfold bind at 1. unfold lift at 1. rewrite scaler_ok by exact Ht.
  fold (scaled_frame df).
  unfold bind at 1. unfold assign at 1. cbn [heap stdout set_nth].
  unfold bind at 1. unfold deref at 1. cbn [heap nth_error].
  rewrite Hobj.
  unfold bind at 1. unfold lift at 1.
  rewrite getitem_cols_columns.
  2:{ intros n Hn. unfold scaled_frame. rewrite setitem_cols_names.
      eapply select_dtypes_names; eauto. }
  rewrite Hcols.
  unfold bind at 1. unfold lift at 1.
  assert (Hlen : List.length (rows (scaled_frame df)) = List.length (rows df))
    by apply setitem_cols_rows_length.
  rewrite Hlen.
  rewrite encoder_fit_ok;
    [|intros H0; apply length_zero_iff_nil in H0; contradiction
     |now apply object_columns_typed].
  fold (encoded_frame df).
  unfold bind at 1. unfold new at 1. cbn [heap stdout List.length app].
  unfold bind at 1. unfold deref at 1. cbn [heap nth_error].
  unfold bind at 1. unfold new at 1. cbn [heap stdout List.length app].
  unfold bind at 1. unfold deref at 1. cbn [heap nth_error].
  unfold bind at 1. unfold deref at 1. cbn [heap nth_error].
  unfold bind at 1. unfold lift at 1.
  unfold concat_axis1.
  rewrite drop_index. unfold scaled_frame at 1. rewrite setitem_cols_index.
  rewrite encoded_frame_index. unfold default_labels in Hlab. rewrite Hlab.
  rewrite same_labels_refl.
  unfold bind at 1. unfold new at 1. cbn [heap stdout List.length app].
  unfold ret. cbn [heap nth_error]. reflexivity.
Qed.

Lemma not_dropped names n : ~ In n names -> dropped names n = false.
Proof.
  intros H. unfold dropped. apply existsb_false. intros m Hm.
  destruct (String.eqb n m) eqn:E; auto.
  apply String.eqb_eq in E; subst. contradiction.
Qed.

Lemma scaled_frame_shaped df : well_typed df -> shaped (scaled_frame df).
Proof. intros H. apply setitem_cols_shaped. now apply well_typed_shaped. Qed.

Lemma transform_frame_index df : index (transform_frame df) = index df.
Proof.
  unfold transform_frame. rewrite side_by_side_index.
  - rewrite drop_index. apply setitem_cols_index.
  - rewrite drop_rows_length, encoded_frame_length. apply setitem_cols_rows_length.
Qed.

Lemma transform_frame_column df n :
  well_formed df ->
  In n (select_dtypes [Float64; Int64] df) ->
  getitem (transform_frame df) n
  = Ok (map VFloat (standardize (map as_float (column df n)))).
Proof.
  intros [Hnd Hwt] Hn.
  assert (Hname : In n (column_names (scaled_frame df))).
  { unfold scaled_frame. rewrite setitem_cols_names.
    eapply select_dtypes_names; eauto. }
  assert (Hd : dropped (select_dtypes [Object] df) n = false).
  { apply not_dropped. intros Ho. now apply (numeric_not_object df n Hnd Ho). }
  destruct (drop_column (scaled_frame df) (select_dtypes [Object] df) n
              (scaled_frame_shaped df Hwt) Hname Hd) as [Hcol Hin].
  assert (Hin' : In n (column_names (transform_frame df))).
  { unfold transform_frame, column_names, side_by_side; cbn [columns].
    rewrite map_app. apply in_or_app. now left. }
  rewrite (getitem_column _ n Hin'). f_equal.
  unfold transform_frame. rewrite side_by_side_column; auto.
  - rewrite Hcol. now apply scaled_column.
  - rewrite drop_rows_length, encoded_frame_length. apply setitem_cols_rows_length.
  - apply drop_shaped. now apply scaled_frame_shaped.
Qed.

Lemma drop_nothing_names df : column_names (drop df []) = column_names df.
Proof.
  unfold column_names, drop; cbn. f_equal.
  apply filter_all. apply Forall_forall. intros c _. reflexivity.
Qed.

Lemma transform_frame_no_text_names df :
  no_text df -> column_names (transform_frame df) = column_names df.
Proof.
  intros Hnt. unfold no_text in Hnt.
  unfold transform_frame, encoded_frame. rewrite Hnt.
  unfold column_names at 1. unfold side_by_side; cbn [columns].
  rewrite map_app. cbn. rewrite app_nil_r.
  change (column_names (drop (scaled_frame df) []) = column_names df).
  rewrite drop_nothing_names. apply setitem_cols_names.
Qed.

Lemma no_text_all_numeric df n :
  no_text df -> In n (column_names df) -> In n (select_dtypes [Float64; Int64] df).
Proof.
  intros Hnt Hn. unfold column_names in Hn. apply in_map_iff in Hn.
  destruct Hn as [[m dt] [<- Hin]]. cbn. apply numeric_selected.
  exists dt. split; auto. destruct dt; auto.
  assert (Ho : In m (select_dtypes [Object] df)) by now apply object_selected.
  unfold no_text in Hnt. rewrite Hnt in Ho. contradiction.
Qed.

(** The scaler refuses a frame with no numeric column, and one with no row. *)
Lemma transform_data_no_numeric df :
  select_dtypes [Float64; Int64] df = [] ->
  run_frame transform_data df
  = Raise (ValueError "at least one array or dtype is required").
Proof.
  intros H. unfold run_frame, transform_data. cbv zeta.
  unfold bind at 1. unfold deref at 1. cbn [heap nth_error].
  rewrite H. reflexivity.
Qed.

Lemma transform_data_no_row df :
  rows df = [] -> select_dtypes [Float64; Int64] df <> [] ->
  run_frame transform_data df = Raise (ValueError "Found array with 0 sample(s)").
Proof.
  intros Hr Hn. unfold run_frame, transform_data. cbv zeta.
  unfold bind at 1. unfold deref at 1. cbn [heap nth_error].
  unfold bind at 1. unfold lift at 1.
  rewrite getitem_cols_columns
    by (intros n Hin; eapply select_dtypes_names; eauto).
  unfold bind at 1. unfold lift at 1. unfold StandardScaler_fit_transform.
  destruct (map (column df) (select_dtypes [Float64; Int64] df)) eqn:E.
  - apply map_eq_nil in E. contradiction.
  - rewrite Hr. reflexivity.
Qed.

(** ** Standardization *)

Lemma one_two_three_transformable : transformable one_two_three_frame.
Proof. prove_transformable. Qed.

Lemma fives_transformable : transformable fives_frame.
Proof. prove_transformable. Qed.

Lemma sizes_transformable : transformable sizes_frame.
Proof. prove_transformable. Qed.


(** *** The scaler over the real numbers *)

Section ExactScaler.

Import Reals Lra.
Local Open Scope R_scope.

Lemma exact_nansum xs : nansum_in exact xs = fold_right Rplus 0 xs.
Proof. unfold nansum_in; cbn. now rewrite map_id. Qed.

Lemma exact_count xs : count_in exact xs = INR (List.length xs).
Proof.
  unfold count_in; cbn [a_of_nat a_isnan exact negb]. f_equal.
  induction xs as [|x xs IH]; cbn; [reflexivity|now rewrite IH].
Qed.

Lemma sum_shift c k xs :
  fold_right Rplus 0 (map (fun x => (x - c) * k) xs)
  = (fold_right Rplus 0 xs - INR (List.length xs) * c) * k.
Proof.
  induction xs as [|x xs IH]; [cbn; ring|].
  cbn [map fold_right List.length]. rewrite IH, S_INR. ring.
Qed.

Lemma sum_squares c k xs :
  fold_right Rplus 0 (map (fun x => ((x - c) * k) * ((x - c) * k)) xs)
  = fold_right Rplus 0 (map (fun x => (x - c) * (x - c)) xs) * (k * k).
Proof.
  induction xs as [|x xs IH]; [cbn; ring|].
  cbn [map fold_right]. rewrite IH. ring.
Qed.

Lemma sum_squares_nonneg c xs :
  0 <= fold_right Rplus 0 (map (fun x => (x - c) * (x - c)) xs).
Proof.
  induction xs as [|x xs IH]; cbn; [lra|].
  pose proof (Rle_0_sqr (x - c)) as H. unfold Rsqr in H. lra.
Qed.

(** The mean and the variance of the scaler are the mean and the
    population variance. *)
Lemma exact_mean xs :
  mean_in exact xs = fold_right Rplus 0 xs / INR (List.length xs).
Proof. unfold mean_in. now rewrite exact_nansum, exact_count. Qed.

Lemma exact_variance xs :
  xs <> [] ->
  variance_in exact xs
  = fold_right Rplus 0 (map (fun x => (x - mean_in exact xs) * (x - mean_in exact xs)) xs)
    / INR (List.length xs).
Proof.
  intros Hne.
  assert (Hn : INR (List.length xs) <> 0).
  { apply not_0_INR. destruct xs; [contradiction|discriminate]. }
  unfold variance_in. rewrite !exact_nansum, exact_count. cbn [a_sub a_mul a_div exact].
  rewrite map_map.
  assert (E : fold_right Rplus 0 (map (fun x => x - mean_in exact xs) xs) = 0).
  { rewrite (map_ext _ (fun x => (x - mean_in exact xs) * 1))
      by (intros; ring).
    rewrite sum_shift, exact_mean. field. exact Hn. }
  rewrite E. field. exact Hn.
Qed.

(** For a column that the scaler's test does not take for constant, the
    standardized column has mean 0 and variance 1. *)
Lemma exact_standardize xs :
  constant_in exact xs = false ->
  mean_in exact (standardize_in exact xs) = 0 /\
  variance_in exact (standardize_in exact xs) = 1.
Proof.
  intros Hc.
  assert (Hne : xs <> []).
  { intros ->. unfold constant_in, is_constant_feature_in in Hc.
    cbn in Hc. destruct (Rle_dec _ _) as [_|Hn]; [discriminate|].
    apply Hn. apply Req_le. unfold Rdiv. ring. }
  set (n := INR (List.length xs)).
  assert (Hn : 0 < n).
  { apply lt_0_INR. destruct xs; [contradiction|cbn; lia]. }
  set (mu := mean_in exact xs).
  set (q := fold_right Rplus 0 (map (fun x => (x - mu) * (x - mu)) xs)).
  assert (Hq : 0 <= q) by apply sum_squares_nonneg.
  assert (Hv : variance_in exact xs = q / n) by now apply exact_variance.
  assert (Hpos : 0 < variance_in exact xs).
  { unfold constant_in, is_constant_feature_in in Hc.
    rewrite exact_count in Hc. fold n mu in Hc. cbn [a_leb a_add a_mul a_eps exact] in Hc.
    destruct (Rle_dec _ _) as [|Hnle]; [discriminate|].
    rewrite Hv in *.
    assert (Hvn : 0 <= q / n).
    { unfold Rdiv. apply Rmult_le_pos; [exact Hq|].
      left. now apply Rinv_0_lt_compat. }
    destruct Hvn as [Hlt|Heq]; [exact Hlt|].
    exfalso. apply Hnle. rewrite <- Heq.
    pose proof (Rle_0_sqr (n * mu * / IZR (2 ^ 52))) as Hs. unfold Rsqr in Hs.
    lra. }
  set (s := sqrt (variance_in exact xs)).
  assert (Hs : 0 < s) by now apply sqrt_lt_R0.
  assert (Hss : s * s = q / n).
  { unfold s. rewrite sqrt_sqrt; [exact Hv|lra]. }
  assert (Hq0 : 0 < q).
  { rewrite Hv in Hpos. unfold Rdiv in Hpos.
    destruct Hq as [Hq|Hq]; [exact Hq|].
    rewrite <- Hq, Rmult_0_l in Hpos. lra. }
  assert (Hstd : standardize_in exact xs = map (fun x => (x - mu) * / s) xs).
  { unfold standardize_in, scale_in. rewrite Hc. reflexivity. }
  assert (Hlen : List.length (standardize_in exact xs) = List.length xs)
    by (unfold standardize_in; apply length_map).
  assert (Hsum : fold_right Rplus 0 (standardize_in exact xs) = 0).
  { rewrite Hstd, sum_shift. fold n. unfold mu. rewrite exact_mean. fold n.
    field. split; lra. }
  assert (Hm : mean_in exact (standardize_in exact xs) = 0).
  { rewrite exact_mean, Hsum. unfold Rdiv. apply Rmult_0_l. }
  split; [exact Hm|].
  rewrite exact_variance by (intros E; rewrite E in Hlen; destruct xs; [contradiction|discriminate]).
  rewrite Hm, Hlen. fold n. rewrite Hstd, map_map.
  rewrite (map_ext _ (fun x => ((x - mu) * / s) * ((x - mu) * / s)))
    by (intros; ring).
  rewrite sum_squares. fold q.
  replace (/ s * / s) with (/ (s * s)) by (field; lra).
  rewrite Hss. field. split; lra.
Qed.

(** The scaler does not take the values 1, 2, 3 for constant. *)
Lemma one_two_three_not_constant :
  constant_in exact (map as_real (filter notnull (column one_two_three_frame "n"))) = false.
Proof.
  unfold constant_in, is_constant_feature_in.
  rewrite exact_variance by discriminate.
  rewrite exact_mean, exact_count.
  cbn [a_leb a_add a_mul a_eps exact].
  change (map as_real (filter notnull (column one_two_three_frame "n"))) with [1; 2; 3].
  cbn [List.length map fold_right INR].
  change (2 ^ 52)%Z with 4503599627370496%Z.
  destruct (Rle_dec _ _) as [H|]; [|reflexivity].
  exfalso. revert H.
  replace ((1 + (2 + (3 + 0))) / (1 + 1 + 1)) with 2 by lra.
  intros H. lra.
Qed.

End ExactScaler.



(** ** A dataset of numbers only *)

(** C10, as stated, fails: on a dataset of two numeric columns and no
    textual column [transform_data] returns the dataset with its columns
    scaled; the encoder is given a frame with no column and adds none. *)
Lemma transform_data_numbers_only_returns :
  no_text sizes_frame /\ rows sizes_frame <> [] /\
  run_frame transform_data sizes_frame
  = Ok (mkDataFrame [("width", Float64); ("height", Float64)]
                    [(0, [VFloat (-1)%float; VFloat (-1)%float]);
                     (1, [VFloat 1%float; VFloat 1%float])]).
Proof.
  split; [reflexivity|]. split; [discriminate|]. vm_compute. reflexivity.
Qed.

(** C10 (amended): for a dataset with no textual column (default labels,
    at least one row and one numeric column, no infinite number)
    [transform_data] returns the dataset with the same labels and column
    names, every column standardized, and no indicator column.  It raises
    [ValueError] when the dataset has no numeric column, or has a numeric
    column and no row: it is the scaler that refuses an empty selection. *)
Theorem transform_data_numbers_only :
  (forall df,
      transformable df -> no_text df ->
      exists out,
        run_frame transform_data df = Ok out /\
        index out = index df /\
        column_names out = column_names df /\
        forall n, In n (column_names df) ->
                  getitem out n
                  = Ok (map VFloat (standardize (map as_float (column df n))))) /\
  (forall df,
      select_dtypes [Float64; Int64] df = [] ->
      run_frame transform_data df
      = Raise (ValueError "at least one array or dtype is required")) /\
  (forall df,
      rows df = [] -> select_dtypes [Float64; Int64] df <> [] ->
      run_frame transform_data df
      = Raise (ValueError "Found array with 0 sample(s)")).
Proof.
  split; [|split].
  - intros df Ht Hnt. exists (transform_frame df).
    split; [now apply transform_data_run|].
    split; [apply transform_frame_index|].
    split; [now apply transform_frame_no_text_names|].
    intros n Hn. destruct Ht as [Hwf _]. apply transform_frame_column; auto.
    now apply no_text_all_numeric.
  - apply transform_data_no_numeric.
  - apply transform_data_no_row.
Qed.

Lemma transform_data_numbers_only_witness :
  exists out,
    run_frame transform_data sizes_frame = Ok out /\
    index out = index sizes_frame /\
    column_names out = column_names sizes_frame /\
    forall n, In n (column_names sizes_frame) ->
              getitem out n
              = Ok (map VFloat (standardize (map as_float (column sizes_frame n)))).
Proof.
  apply (proj1 transform_data_numbers_only sizes_frame).
  - exact sizes_transformable.
  - reflexivity.
Defined.

(** * Further properties of the program *)

(** ** [transform_data] on any heap and any labels *)

Lemma scaler_ok_scalable df :
  scalable df ->
  StandardScaler_fit_transform
    (List.length (rows df)) (map (column df) (select_dtypes [Float64; Int64] df))
  = Ok (map (fun n => standardize (map as_float (column df n)))
            (select_dtypes [Float64; Int64] df)).
Proof.
  intros [Hwf [Hrows [Hnum Hfin]]]. unfold StandardScaler_fit_transform.
  destruct (map (column df) (select_dtypes [Float64; Int64] df)) as [|c0 cs] eqn:HX.
  { apply map_eq_nil in HX. contradiction. }
  rewrite <- HX. clear HX c0 cs.
  destruct (List.length (rows df)) as [|len] eqn:Hlen.
  { apply length_zero_iff_nil in Hlen. contradiction. }
  cbn [Nat.eqb].
  rewrite (mapM_ok _ (map as_float)).
  - cbn [rbind]. rewrite existsb_false.
    + now rewrite !map_map.
    + intros A HA. apply in_map_iff in HA. destruct HA as [c [<- Hc]].
      apply in_map_iff in Hc. destruct Hc as [n [<- Hn]].
      apply existsb_false. intros y Hy. apply in_map_iff in Hy.
      destruct Hy as [v [<- Hv]]. now apply (column_finite df n).
  - intros c Hc. apply in_map_iff in Hc. destruct Hc as [n [<- Hn]].
    apply mapM_ok. intros v Hv.
    apply numeric_selected in Hn. destruct Hn as [dt [Hin Hdt]].
    apply (to_float_numeric dt); auto. now apply (column_typed df n).
Qed.

Lemma nth_error_snoc2 {A : Type} (l : list A) (x y : A) :
  nth_error ((l ++ [x]) ++ [y]) (List.length l) = Some x.
Proof. apply nth_error_app_old, nth_error_snoc. Qed.

(** What [transform_data] does to the world when the scaler accepts the
    frame: the frame it was given is assigned the scaled columns, two frames
    are made, and the join of the two either makes a third or raises. *)
Lemma transform_data_world w data df :
  nth_error (heap w) data = Some df ->
  scalable df ->
  transform_data data w
  = match concat_axis1 (drop (scaled_frame df) (select_dtypes [Object] df))
                       (encoded_frame df) with
    | Ok out =>
        (Ok (S (S (List.length (heap w)))),
         mkWorld (set_nth data (scaled_frame df) (heap w)
                  ++ [encoded_frame df;
                      drop (scaled_frame df) (select_dtypes [Object] df);
                      out])
                 (stdout w))
    | Raise e =>
        (Raise e,
         mkWorld (set_nth data (scaled_frame df) (heap w)
                  ++ [encoded_frame df;
                      drop (scaled_frame df) (select_dtypes [Object] df)])
                 (stdout w))
    end.
Proof.
  intros Hget Hs. pose proof Hs as [Hwf [Hrows [Hnum Hfin]]].
  pose proof Hwf as [Hnd Hwt].
  destruct (scaled_frame_objects df Hwf) as [Hobj Hcols].
  assert (Hlt : (data < List.length (heap w))%nat)
    by (apply nth_error_Some; congruence).
  unfold transform_data. cbv zeta.
  unfold bind at 1. unfold deref at 1. rewrite Hget.
  unfold bind at 1. unfold lift at 1.
  rewrite getitem_cols_columns
    by (intros n Hn; eapply select_dtypes_names; eauto).
  unfold bind at 1. unfold lift at 1. rewrite scaler_ok_scalable by exact Hs.
  fold (scaled_frame df).
  unfold bind at 1. unfold assign at 1. cbn [heap stdout].
  set (h1 := set_nth data (scaled_frame df) (heap w)).
  assert (Hh1 : nth_error h1 data = Some (scaled_frame df))
    by (apply nth_error_set_nth_eq, Hlt).
  assert (Hl1 : List.length h1 = List.length (heap w))
    by apply set_nth_length.
  unfold bind at 1. unfold deref at 1. cbn [heap]. rewrite Hh1.
  rewrite Hobj.
  unfold bind at 1. unfold lift at 1.
  rewrite getitem_cols_columns.
  2:{ intros n Hn. unfold scaled_frame. rewrite setitem_cols_names.
      eapply select_dtypes_names; eauto. }
  rewrite Hcols.
  unfold bind at 1. unfold lift at 1.
  assert (Hlen : List.length (rows (scaled_frame df)) = List.length (rows df))
    by apply setitem_cols_rows_length.
  rewrite Hlen.
  rewrite encoder_fit_ok;
    [|intros H0; apply length_zero_iff_nil in H0; contradiction
     |now apply object_columns_typed].
  fold (encoded_frame df).
  unfold bind at 1. unfold new at 1. cbn [heap stdout].
  unfold bind at 1. unfold deref at 1. cbn [heap].
  rewrite (nth_error_app_old h1 [encoded_frame df] data _ Hh1).
  unfold bind at 1. unfold new at 1. cbn [heap stdout].
  unfold bind at 1. unfold deref at 1. cbn [heap]. rewrite nth_error_snoc.
  unfold bind at 1. unfold deref at 1. cbn [heap]. rewrite nth_error_snoc2.
  unfold bind at 1. unfold lift at 1.
  destruct (concat_axis1 _ _) as [out|e].
  - unfold bind at 1. unfold new at 1. cbn [heap stdout]. unfold ret.
    f_equal.
    + rewrite !length_app. cbn. rewrite Hl1. f_equal. lia.
    + f_equal. rewrite <- !app_assoc. reflexivity.
  - f_equal. f_equal. rewrite <- !app_assoc. reflexivity.
Qed.

Lemma setitem_cols_dtype df names Y n :
  In n names -> In n (column_names df) ->
  In (n, Float64) (columns (setitem_cols df names Y)).
Proof.
  intros Hn Hc. unfold column_names in Hc. apply in_map_iff in Hc.
  destruct Hc as [[m dt] [E Hin]]. cbn in E. subst m.
  unfold setitem_cols; cbn [columns]. apply in_map_iff.
  exists (n, dt). split; auto. cbn.
  destruct (index_of_In n names Hn) as [j ->]. reflexivity.
Qed.

Lemma scaled_frame_index df : index (scaled_frame df) = index df.
Proof. apply setitem_cols_index. Qed.

Lemma scaled_frame_names df : column_names (scaled_frame df) = column_names df.
Proof. apply setitem_cols_names. Qed.

(** [transform_data] changes the frame it is given: whenever the scaler
    accepts the frame, the caller's frame holds the standardized values,
    as float64 columns, under the same labels and column names; its textual
    columns stay.  This is so whether the later join returns or raises. *)
Theorem transform_data_in_place df :
  scalable df ->
  argument_after transform_data df = Some (scaled_frame df) /\
  column_names (scaled_frame df) = column_names df /\
  index (scaled_frame df) = index df /\
  (forall n, In n (select_dtypes [Float64; Int64] df) ->
             In (n, Float64) (columns (scaled_frame df)) /\
             column (scaled_frame df) n
             = map VFloat (standardize (map as_float (column df n)))) /\
  (forall n, In n (select_dtypes [Object] df) ->
             In (n, Object) (columns (scaled_frame df)) /\
             column (scaled_frame df) n = column df n).
Proof.
  intros Hs. pose proof Hs as [Hwf _]. pose proof Hwf as [Hnd Hwt].
  split; [|split; [apply scaled_frame_names|split; [apply scaled_frame_index|split]]].
  - unfold argument_after.
    rewrite (transform_data_world (mkWorld [df] []) 0%nat df eq_refl Hs).
    now destruct (concat_axis1 _ _).
  - intros n Hn. split.
    + apply setitem_cols_dtype; auto. eapply select_dtypes_names; eauto.
    + now apply scaled_column.
  - intros n Hn. split.
    + apply object_selected. destruct (scaled_frame_objects df Hwf) as [-> _].
      exact Hn.
    + apply unscaled_column; auto.
      * eapply select_dtypes_names; eauto.
      * now apply numeric_not_object.
Qed.

Lemma prices_scalable : scalable prices_frame.
Proof.
  split; [split|split; [discriminate|split; [discriminate|]]].
  - cbn. repeat constructor; intros H; cbn in H;
      repeat (destruct H as [H|H]; [discriminate H|]); contradiction.
  - unfold well_typed; cbn; repeat constructor.
  - unfold finite; cbn; repeat constructor.
Qed.

Lemma transform_data_in_place_witness :
  argument_after transform_data prices_frame = Some (scaled_frame prices_frame).
Proof. exact (proj1 (transform_data_in_place prices_frame prices_scalable)). Defined.

(** ** Labels that are not the default ones *)

Lemma RangeIndex_ge s n x : In x (RangeIndex s n) -> s <= x.
Proof.
  revert s; induction n as [|n IH]; cbn; intros s H; [contradiction|].
  destruct H as [<-|H]; [lia|]. apply IH in H. lia.
Qed.

Lemma unique_RangeIndex s n : unique (RangeIndex s n) = true.
Proof.
  revert s; induction n as [|n IH]; cbn; intros s; auto.
  rewrite IH, andb_true_r. apply negb_true_iff, existsb_false.
  intros x Hx. apply RangeIndex_ge in Hx. apply Z.eqb_neq. lia.
Qed.

Lemma reindex_index df labels : index (reindex df labels) = labels.
Proof.
  unfold index, reindex; cbn. rewrite map_map.
  rewrite <- (map_id labels) at 2. apply map_ext. intros l.
  now destruct (find _ (rows df)).
Qed.

Lemma reindex_length df labels :
  List.length (rows (reindex df labels)) = List.length labels.
Proof. unfold reindex; cbn. apply length_map. Qed.

(** The join of [transform_data] on a frame the scaler accepts. *)
Lemma run_transform_data df :
  scalable df ->
  run_frame transform_data df
  = concat_axis1 (drop (scaled_frame df) (select_dtypes [Object] df))
                 (encoded_frame df).
Proof.
  intros Hs. unfold run_frame.
  rewrite (transform_data_world (mkWorld [df] []) 0%nat df eq_refl Hs).
  now destruct (concat_axis1 _ _).
Qed.

(** When the labels of the frame are not [0 .. n-1] in order,
    [transform_data] joins the scaled rows and the indicator rows by label:
    with distinct labels the result has the labels of the frame followed by
    those of [0 .. n-1] that the frame lacks, a row for each; with a label
    that repeats the join raises. *)
Theorem transform_data_other_labels df :
  scalable df ->
  same_labels (index df) (RangeIndex 0 (List.length (rows df))) = false ->
  (unique (index df) = true ->
   exists out,
     run_frame transform_data df = Ok out /\
     index out = index df ++ new_labels (index df) (List.length (rows df)) /\
     List.length (rows out)
     = (List.length (rows df)
        + List.length (new_labels (index df) (List.length (rows df))))%nat) /\
  (unique (index df) = false ->
   run_frame transform_data df = Raise InvalidIndexError).
Proof.
  intros Hs Hsame.
  rewrite (run_transform_data df Hs). unfold concat_axis1.
  rewrite drop_index, scaled_frame_index, encoded_frame_index, Hsame.
  rewrite unique_RangeIndex, andb_true_r.
  split; intros Hu; rewrite Hu; [|reflexivity].
  eexists. split; [reflexivity|].
  set (labels := index df ++ _).
  assert (Hl : List.length (rows (reindex (drop (scaled_frame df)
                                  (select_dtypes [Object] df)) labels))
               = List.length (rows (reindex (encoded_frame df) labels)))
    by now rewrite !reindex_length.
  split.
  - rewrite (side_by_side_index _ _ Hl). apply reindex_index.
  - unfold side_by_side; cbn [rows].
    rewrite length_map, length_combine, <- Hl, Nat.min_id, reindex_length.
    unfold labels. rewrite length_app. unfold index at 1. now rewrite length_map.
Qed.

Lemma cleaned_shop_scalable : scalable cleaned_shop_frame.
Proof.
  split; [split|split; [discriminate|split; [discriminate|]]].
  - cbn. repeat constructor; intros H; cbn in H;
      repeat (destruct H as [H|H]; [discriminate H|]); contradiction.
  - unfold well_typed; cbn; repeat constructor.
  - unfold finite; cbn; repeat constructor.
Qed.

Lemma transform_data_other_labels_witness :
  exists out,
    run_frame transform_data cleaned_shop_frame = Ok out /\
    index out = index cleaned_shop_frame
                ++ new_labels (index cleaned_shop_frame)
                              (List.length (rows cleaned_shop_frame)) /\
    List.length (rows out)
    = (List.length (rows cleaned_shop_frame)
       + List.length (new_labels (index cleaned_shop_frame)
                                 (List.length (rows cleaned_shop_frame))))%nat.
Proof.
  exact (proj1 (transform_data_other_labels cleaned_shop_frame
                  cleaned_shop_scalable eq_refl) eq_refl).
Defined.

(** ** The Orchestrator as a composition *)

Lemma has_column_pos df name :
  has_column df name = true -> exists p, column_pos name (columns df) = Some p.
Proof.
  unfold has_column. intros H. apply existsb_exists in H.
  destruct H as [n [Hin E]]. apply String.eqb_eq in E; subst n.
  now apply column_pos_In.
Qed.

Lemma check_domain_constraints_world data column_name valid_values w d p :
  nth_error (heap w) data = Some d ->
  column_pos column_name (columns d) = Some p ->
  check_domain_constraints data column_name valid_values w
  = (Ok tt,
     mkWorld (heap w ++ [invalid_rows p valid_values d])
             (stdout w ++ validation_report column_name valid_values d)).
Proof.
  intros Hd Hp.
  unfold check_domain_constraints, bind, deref, lift, new, print, getitem,
    validation_report.
  rewrite Hd, Hp. cbn [heap stdout fst snd]. rewrite nth_error_snoc.
  rewrite map_map.
  assert (E : getitem_mask d (map (fun x => negb (isin valid_values (cell p x))) (rows d))
              = invalid_rows p valid_values d).
  { unfold getitem_mask, invalid_rows. f_equal. apply mask_filter. }
  rewrite E. unfold empty. cbn [rows columns invalid_rows].
  destruct (filter _ (rows d)) as [|x l]; cbn; [reflexivity|].
  destruct (columns d) as [|c cs]; [discriminate|]. cbn.
  now rewrite <- app_assoc.
Qed.

Lemma staged_columns argsort c : columns (staged argsort c) = columns c.
Proof.
  unfold staged. destruct (has_column c "name"); auto.
  unfold sort_values. now destruct (column_pos "name" (columns c)).
Qed.

(** [perform_analysis] up to its call of the Transformer: the frame it was
    given is still in place, the cleaned (and sorted) frame is in the heap
    under the reference that is handed on, and the report is printed. *)
Lemma perform_analysis_stages correction argsort df :
  well_formed df ->
  exists h cleaned,
    nth_error (df :: h) cleaned = Some (staged argsort (clean_frame correction df)) /\
    cleaned <> 0%nat /\
    perform_analysis correction argsort 0%nat (mkWorld [df] [])
    = (transformed_data <- transform_data cleaned ;; ret (cleaned, transformed_data))
        (mkWorld (df :: h)
                 (analysis_report (staged argsort (clean_frame correction df)))).
Proof.
  intros Hwf.
  set (c := clean_frame correction df) in *.
  unfold perform_analysis.
  unfold bind at 1.
  rewrite (clean_data_run correction 0%nat df (mkWorld [df] []) eq_refl Hwf).
  fold c. cbn [heap stdout app List.length].
  unfold bind at 1. unfold deref at 1. cbn [heap nth_error].
  fold (has_column c "name"). unfold analysis_report, staged.
  destruct (has_column c "name") eqn:Hname.
  - destruct (has_column_pos c "name" Hname) as [p Hp].
    unfold bind at 1.
    erewrite sort_data_run by reflexivity.
    unfold sort_values. rewrite Hp.
    set (s := mkDataFrame (columns c) (sort_rows argsort p true (rows c))).
    cbn [heap stdout app List.length].
    unfold bind at 1. unfold deref at 1. cbn [heap nth_error].
    fold (has_column s "some_column").
    destruct (has_column s "some_column") eqn:Hsome.
    + destruct (has_column_pos s "some_column" Hsome) as [q Hq].
      unfold bind at 1.
      erewrite check_domain_constraints_world; [|reflexivity|exact Hq].
      cbn [heap stdout app].
      exists [drop_duplicates df; c; s;
              invalid_rows q [VStr "Value1"; VStr "Value2"; VStr "Value3"] s], 3%nat.
      split; [reflexivity|]. split; [discriminate|reflexivity].
    + unfold bind at 1. unfold ret at 1.
      exists [drop_duplicates df; c; s], 3%nat.
      split; [reflexivity|]. split; [discriminate|reflexivity].
  - unfold bind at 1. unfold ret at 1.
    unfold bind at 1. unfold deref at 1. cbn [heap nth_error].
    fold (has_column c "some_column").
    destruct (has_column c "some_column") eqn:Hsome.
    + destruct (has_column_pos c "some_column" Hsome) as [q Hq].
      unfold bind at 1.
      erewrite check_domain_constraints_world; [|reflexivity|exact Hq].
      cbn [heap stdout app].
      exists [drop_duplicates df; c;
              invalid_rows q [VStr "Value1"; VStr "Value2"; VStr "Value3"] c], 2%nat.
      split; [reflexivity|]. split; [discriminate|reflexivity].
    + unfold bind at 1. unfold ret at 1.
      exists [drop_duplicates df; c], 2%nat.
      split; [reflexivity|]. split; [discriminate|reflexivity].
Qed.

Lemma nth_error_third {A : Type} (l : list A) (x y z : A) :
  nth_error (l ++ [x; y; z]) (S (S (List.length l))) = Some z.
Proof.
  rewrite nth_error_app2 by lia.
  replace (S (S (List.length l)) - List.length l)%nat with 2%nat by lia.
  reflexivity.
Qed.

(** Where [perform_analysis] ends when the scaler accepts the cleaned (and
    sorted) frame. *)
Lemma perform_analysis_outcome correction argsort df :
  well_formed df ->
  scalable (staged argsort (clean_frame correction df)) ->
  exists w',
    stdout w' = analysis_report (staged argsort (clean_frame correction df)) /\
    nth_error (heap w') 0%nat = Some df /\
    match run_frame transform_data (staged argsort (clean_frame correction df)) with
    | Ok t =>
        exists cleaned transformed,
          perform_analysis correction argsort 0%nat (mkWorld [df] [])
          = (Ok (cleaned, transformed), w') /\
          nth_error (heap w') cleaned
          = Some (scaled_frame (staged argsort (clean_frame correction df))) /\
          nth_error (heap w') transformed = Some t
    | Raise e =>
        perform_analysis correction argsort 0%nat (mkWorld [df] []) = (Raise e, w')
    end.
Proof.
  intros Hwf Hs.
  destruct (perform_analysis_stages correction argsort df Hwf)
    as [h [cl [Hcl [Hne Heq]]]].
  rewrite Heq. clear Heq. unfold bind.
  erewrite transform_data_world; [|exact Hcl|exact Hs].
  rewrite (run_transform_data _ Hs).
  cbn [heap stdout].
  assert (Hlt : (cl < List.length (df :: h))%nat) by (apply nth_error_Some; congruence).
  set (S0 := staged argsort (clean_frame correction df)) in *.
  set (l := set_nth cl (scaled_frame S0) (df :: h)).
  assert (Hl : List.length l = List.length (df :: h)) by apply set_nth_length.
  assert (Hc : nth_error l cl = Some (scaled_frame S0))
    by (apply nth_error_set_nth_eq, Hlt).
  assert (H0 : nth_error l 0 = Some df).
  { unfold l. rewrite nth_error_set_nth_neq by exact Hne. reflexivity. }
  destruct (concat_axis1 _ _) as [t|e]; unfold ret; cbn [fst snd];
    eexists (mkWorld _ _); (split; [|split]).
  3:{ exists cl, (S (S (List.length (df :: h)))).
      split; [reflexivity|]. cbn [heap].
      split; [now apply nth_error_app_old|].
      rewrite <- Hl. apply nth_error_third. }
  3: reflexivity.
  all: try reflexivity.
  all: cbn [heap]; now apply nth_error_app_old.
Qed.

(** [perform_analysis] is the Cleaner, the optional sort by name and the
    Transformer in a row, and the two frames it returns are not independent:
    whenever the scaler accepts the cleaned (and sorted) frame, the cleaned
    frame that is returned is that frame with its numeric columns
    standardized, and the transformed frame is what [transform_data] returns
    for it.  The input frame is left as it was, and the only output is the
    report on the column [some_column]. *)
Theorem perform_analysis_composes correction argsort df :
  well_formed df ->
  scalable (staged argsort (clean_frame correction df)) ->
  run_analysis correction argsort df
  = match run_frame transform_data (staged argsort (clean_frame correction df)) with
    | Ok t => Ok (scaled_frame (staged argsort (clean_frame correction df)), t)
    | Raise e => Raise e
    end /\
  stdout (snd (perform_analysis correction argsort 0%nat (mkWorld [df] [])))
  = analysis_report (staged argsort (clean_frame correction df)) /\
  nth_error (heap (snd (perform_analysis correction argsort 0%nat (mkWorld [df] [])))) 0%nat
  = Some df.
Proof.
  intros Hwf Hs.
  destruct (perform_analysis_outcome correction argsort df Hwf Hs)
    as [w' [Hout [H0 H]]].
  unfold run_analysis.
  destruct (run_frame transform_data _) as [t|e].
  - destruct H as [cl [tr [-> [Hc Ht]]]]. cbn [fst snd]. now rewrite Hc, Ht.
  - rewrite H. auto.
Qed.

Lemma prices_well_formed : well_formed prices_frame.
Proof. exact (proj1 prices_scalable). Qed.

Lemma prices_staged :
  staged numpy_argsort (clean_frame all_known prices_frame) = prices_frame.
Proof. vm_compute. reflexivity. Qed.

Lemma prices_staged_scalable :
  scalable (staged numpy_argsort (clean_frame all_known prices_frame)).
Proof. rewrite prices_staged. exact prices_scalable. Qed.

Lemma perform_analysis_composes_witness :
  run_analysis all_known numpy_argsort prices_frame
  = match run_frame transform_data
            (staged numpy_argsort (clean_frame all_known prices_frame)) with
    | Ok t => Ok (scaled_frame
                    (staged numpy_argsort (clean_frame all_known prices_frame)), t)
    | Raise e => Raise e
    end.
Proof.
  exact (proj1 (perform_analysis_composes all_known numpy_argsort prices_frame
                  prices_well_formed prices_staged_scalable)).
Defined.

(** ** Datasets the pipeline cannot transform *)

Lemma transform_data_refuses_no_numeric w data df :
  nth_error (heap w) data = Some df ->
  select_dtypes [Float64; Int64] df = [] ->
  transform_data data w
  = (Raise (ValueError "at least one array or dtype is required"), w).
Proof.
  intros Hget H. unfold transform_data. cbv zeta.
  unfold bind at 1. unfold deref at 1. rewrite Hget. rewrite H. reflexivity.
Qed.

Lemma transform_data_refuses_no_row w data df :
  nth_error (heap w) data = Some df ->
  rows df = [] -> select_dtypes [Float64; Int64] df <> [] ->
  transform_data data w = (Raise (ValueError "Found array with 0 sample(s)"), w).
Proof.
  intros Hget Hr Hn. unfold transform_data. cbv zeta.
  unfold bind at 1. unfold deref at 1. rewrite Hget.
  unfold bind at 1. unfold lift at 1.
  rewrite getitem_cols_columns
    by (intros n Hin; eapply select_dtypes_names; eauto).
  unfold bind at 1. unfold lift at 1. unfold StandardScaler_fit_transform.
  destruct (map (column df) (select_dtypes [Float64; Int64] df)) eqn:E.
  - apply map_eq_nil in E. contradiction.
  - rewrite Hr. reflexivity.
Qed.

Lemma select_nil {A : Type} (js : list nat) : select (@nil A) js = [].
Proof.
  unfold select. induction js as [|j js IH]; cbn; auto.
  rewrite IH. now destruct j.
Qed.

Lemma staged_rows_nil argsort c : rows c = [] -> rows (staged argsort c) = [].
Proof.
  intros H. unfold staged. destruct (has_column c "name"); auto.
  unfold sort_values. destruct (column_pos "name" (columns c)); auto.
  cbn [rows]. unfold sort_rows, present_rows. rewrite H. cbn.
  rewrite select_nil. reflexivity.
Qed.

Lemma select_dtypes_columns incl a b :
  columns a = columns b -> select_dtypes incl a = select_dtypes incl b.
Proof. intros H. unfold select_dtypes. now rewrite H. Qed.

Lemma filter_none {A : Type} (p : A -> bool) (l : list A) :
  (forall x, In x l -> p x = false) -> filter p l = [].
Proof.
  induction l as [|a l IH]; intros H; cbn; auto.
  rewrite (H a (or_introl eq_refl)). apply IH. intros x Hx. apply H. now right.
Qed.

Lemma clean_frame_rows_nil correction df :
  Forall (fun r => complete r = false) (values df) ->
  rows (clean_frame correction df) = [].
Proof.
  intros H. unfold clean_frame, map_rows, dropna, drop_duplicates; cbn.
  rewrite filter_none; [reflexivity|].
  intros x Hx. apply dedup_In in Hx.
  rewrite Forall_forall in H. apply H. unfold values. now apply in_map.
Qed.

(** Where [perform_analysis] ends when the scaler refuses the cleaned (and
    sorted) frame. *)
Lemma perform_analysis_refused correction argsort df :
  well_formed df ->
  (select_dtypes [Float64; Int64] df = [] ->
   exists w',
     perform_analysis correction argsort 0%nat (mkWorld [df] [])
     = (Raise (ValueError "at least one array or dtype is required"), w') /\
     stdout w' = analysis_report (staged argsort (clean_frame correction df))) /\
  (select_dtypes [Float64; Int64] df <> [] ->
   Forall (fun r => complete r = false) (values df) ->
   exists w',
     perform_analysis correction argsort 0%nat (mkWorld [df] [])
     = (Raise (ValueError "Found array with 0 sample(s)"), w') /\
     stdout w' = analysis_report (staged argsort (clean_frame correction df))).
Proof.
  intros Hwf.
  destruct (perform_analysis_stages correction argsort df Hwf)
    as [h [cl [Hcl [Hne Heq]]]].
  assert (Hcols : forall incl,
             select_dtypes incl (staged argsort (clean_frame correction df))
             = select_dtypes incl df).
  { intros incl. apply select_dtypes_columns. now rewrite staged_columns. }
  rewrite Heq. clear Heq. unfold bind.
  split.
  - intros Hn. eexists.
    erewrite transform_data_refuses_no_numeric;
      [split; reflexivity|exact Hcl|now rewrite Hcols].
  - intros Hn Hall. eexists.
    erewrite transform_data_refuses_no_row;
      [split; reflexivity|exact Hcl| |now rewrite Hcols].
    apply staged_rows_nil. now apply clean_frame_rows_nil.
Qed.

(** [perform_analysis] raises [ValueError] for every dataset that has no
    numeric column, whatever its rows: the scaler is handed a frame with no
    column. *)
Theorem perform_analysis_needs_numbers correction argsort df :
  well_formed df ->
  select_dtypes [Float64; Int64] df = [] ->
  run_analysis correction argsort df
  = Raise (ValueError "at least one array or dtype is required").
Proof.
  intros Hwf Hn.
  destruct (proj1 (perform_analysis_refused correction argsort df Hwf) Hn)
    as [w' [H _]].
  unfold run_analysis. now rewrite H.
Qed.

Lemma perform_analysis_needs_numbers_witness :
  run_analysis all_known numpy_argsort fruit_frame
  = Raise (ValueError "at least one array or dtype is required").
Proof.
  exact (perform_analysis_needs_numbers all_known numpy_argsort fruit_frame
           fruit_frame_well_formed eq_refl).
Defined.

(** [perform_analysis] raises [ValueError] for every dataset with a numeric
    column in which each row has a missing value: the Cleaner leaves no
    row, and the scaler refuses a frame with no row. *)
Theorem perform_analysis_needs_complete_row correction argsort df :
  well_formed df ->
  select_dtypes [Float64; Int64] df <> [] ->
  Forall (fun r => complete r = false) (values df) ->
  run_analysis correction argsort df
  = Raise (ValueError "Found array with 0 sample(s)").
Proof.
  intros Hwf Hn Hall.
  destruct (proj2 (perform_analysis_refused correction argsort df Hwf) Hn Hall)
    as [w' [H _]].
  unfold run_analysis. now rewrite H.
Qed.

Lemma gaps_frame_well_formed : well_formed gaps_frame.
Proof.
  split.
  - cbn. repeat constructor; intros H; cbn in H;
      repeat (destruct H as [H|H]; [discriminate H|]); contradiction.
  - unfold well_typed; cbn; repeat constructor.
Qed.

Lemma perform_analysis_needs_complete_row_witness :
  run_analysis all_known numpy_argsort gaps_frame
  = Raise (ValueError "Found array with 0 sample(s)").
Proof.
  apply (perform_analysis_needs_complete_row all_known numpy_argsort gaps_frame
           gaps_frame_well_formed).
  - discriminate.
  - repeat constructor.
Defined.

(** ** What the Cleaner leaves alone *)

Lemma setitem_apply_frame data col f w :
  stdout (snd (setitem_apply data col f w)) = stdout w /\
  List.length (heap (snd (setitem_apply data col f w))) = List.length (heap w) /\
  forall r, r <> data ->
            nth_error (heap (snd (setitem_apply data col f w))) r
            = nth_error (heap w) r.
Proof.
  unfold setitem_apply, bind, deref, lift, assign.
  destruct (nth_error (heap w) data) as [d|]; [|now cbn].
  destruct (apply_column f col d) as [d'|e]; [|now cbn].
  cbn [snd heap stdout]. split; [reflexivity|].
  split; [apply set_nth_length|].
  intros r Hr. now apply nth_error_set_nth_neq.
Qed.

Lemma for_each_setitem_frame data f cols w :
  stdout (snd (for_each cols (fun col => setitem_apply data col f) w)) = stdout w /\
  List.length (heap (snd (for_each cols (fun col => setitem_apply data col f) w)))
  = List.length (heap w) /\
  forall r, r <> data ->
            nth_error (heap (snd (for_each cols
                                    (fun col => setitem_apply data col f) w))) r
            = nth_error (heap w) r.
Proof.
  revert w; induction cols as [|c cols IH]; intros w; [now cbn|].
  cbn [for_each]. unfold bind.
  pose proof (setitem_apply_frame data c f w) as [Hs [Hl Hn]].
  destruct (setitem_apply data c f w) as [[[]|e] w1]; cbn [snd] in *.
  - destruct (IH w1) as [Hs' [Hl' Hn']].
    split; [congruence|]. split; [congruence|].
    intros r Hr. now rewrite Hn', Hn.
  - auto.
Qed.

(** [clean_data] never changes the dataset it is given and prints
    nothing, whether it returns or raises: it works on the frame that
    [dropna] returned. *)
Theorem clean_data_keeps_argument correction df :
  argument_after (clean_data correction) df = Some df /\
  stdout (snd (clean_data correction 0%nat (mkWorld [df] []))) = [].
Proof.
  assert (H : forall res w',
             clean_data correction 0%nat (mkWorld [df] []) = (res, w') ->
             nth_error (heap w') 0 = Some df /\ stdout w' = []).
  { unfold clean_data.
    unfold bind at 1. unfold deref at 1. cbn [heap nth_error].
    unfold bind at 1. unfold new at 1. cbn [heap stdout app List.length].
    unfold bind at 1. unfold deref at 1. cbn [heap nth_error].
    unfold bind at 1. unfold new at 1. cbn [heap stdout app List.length].
    unfold bind at 1. unfold deref at 1. cbn [heap nth_error].
    set (w2 := mkWorld [df; drop_duplicates df; dropna (drop_duplicates df)] []).
    set (cols := select_dtypes [Object] (dropna (drop_duplicates df))).
    unfold bind at 1.
    pose proof (for_each_setitem_frame 2%nat (spell_lambda correction) cols w2)
      as [Hs [_ Hn]].
    destruct (for_each cols _ w2) as [[[]|e] w3]; cbn [snd] in *.
    2:{ intros res w' E. injection E as <- <-.
        split; [exact (Hn 0%nat (O_S 1))|exact Hs]. }
    unfold bind at 1. unfold deref at 1.
    destruct (nth_error (heap w3) 2) as [d|].
    2:{ intros res w' E. injection E as <- <-.
        split; [exact (Hn 0%nat (O_S 1))|exact Hs]. }
    unfold bind at 1.
    pose proof (for_each_setitem_frame 2%nat strip_lambda
                  (select_dtypes [Object] d) w3) as [Hs' [_ Hn']].
    destruct (for_each (select_dtypes [Object] d) _ w3) as [[[]|e] w4];
      cbn [snd] in *; unfold ret; intros res w' E; injection E as <- <-;
      (split; [exact (eq_trans (Hn' 0%nat (O_S 1)) (Hn 0%nat (O_S 1)))
              |exact (eq_trans Hs' Hs)]). }
  unfold argument_after.
  destruct (clean_data correction 0%nat (mkWorld [df] [])) as [res w'] eqn:E.
  exact (H res w' eq_refl).
Qed.

(** ** What the Cleaner returns *)

Lemma subseq_refl {A : Type} (l : list A) : subseq l l.
Proof. induction l; [apply subseq_nil|now apply subseq_keep]. Qed.

Lemma subseq_trans {A : Type} (a b c : list A) :
  subseq a b -> subseq b c -> subseq a c.
Proof.
  intros Hab Hbc. revert a Hab.
  induction Hbc as [|x b c Hbc IH|x b c Hbc IH]; intros a Hab; auto.
  - apply subseq_skip. auto.
  - inversion Hab; subst; [apply subseq_skip|apply subseq_keep]; auto.
Qed.

Lemma subseq_filter {A : Type} (p : A -> bool) (l : list A) : subseq (filter p l) l.
Proof.
  induction l as [|x l IH]; cbn; [apply subseq_nil|].
  destruct (p x); [now apply subseq_keep|now apply subseq_skip].
Qed.

Lemma subseq_map {A B : Type} (g : A -> B) (a b : list A) :
  subseq a b -> subseq (map g a) (map g b).
Proof.
  induction 1; cbn; [apply subseq_nil|now apply subseq_skip|now apply subseq_keep].
Qed.

Lemma subseq_dedup seen l : subseq (dedup seen l) l.
Proof.
  revert seen; induction l as [|[i r] l IH]; intros seen; cbn; [apply subseq_nil|].
  destruct (existsb _ seen); [apply subseq_skip|apply subseq_keep]; auto.
Qed.

Lemma clean_frame_index correction df :
  subseq (index (clean_frame correction df)) (index df).
Proof.
  unfold index, clean_frame, map_rows, dropna, drop_duplicates; cbn [rows].
  rewrite map_map; cbn [fst].
  apply subseq_map.
  eapply subseq_trans; [apply subseq_filter|apply subseq_dedup].
Qed.

(** The Cleaner keeps the schema and the row labels: the dataset it returns
    has the columns of the input, names and dtypes; its labels are those of
    the rows that survive, in their order, with no renumbering; and the row
    under a label is the text normalisation of the complete row the input
    has under that label. *)
Theorem clean_data_keeps_schema correction df :
  well_formed df ->
  exists c,
    run_frame (clean_data correction) df = Ok c /\
    columns c = columns df /\
    subseq (index c) (index df) /\
    (forall l r, In (l, r) (rows c) ->
                 exists r0, In (l, r0) (rows df) /\ complete r0 = true /\
                            r = normalise_row correction (columns df) r0).
Proof.
  intros Hwf. exists (clean_frame correction df).
  split; [now apply run_clean_data|].
  split; [reflexivity|].
  split; [apply clean_frame_index|].
  intros l r H.
  unfold clean_frame, map_rows, dropna, drop_duplicates in H; cbn [rows columns] in H.
  apply in_map_iff in H. destruct H as [[i r0] [E H]].
  cbn [fst snd] in E. injection E as <- <-.
  apply filter_In in H. destruct H as [H Hc]. apply dedup_In in H.
  exists r0. auto.
Qed.

Lemma shop_frame_well_formed : well_formed shop_frame.
Proof.
  split.
  - cbn. repeat constructor; intros H; cbn in H;
      repeat (destruct H as [H|H]; [discriminate H|]); contradiction.
  - unfold well_typed; cbn; repeat constructor.
Qed.

Lemma clean_data_keeps_schema_witness :
  exists c,
    run_frame (clean_data all_known) shop_frame = Ok c /\
    columns c = columns shop_frame /\
    subseq (index c) (index shop_frame) /\
    (forall l r, In (l, r) (rows c) ->
                 exists r0, In (l, r0) (rows shop_frame) /\ complete r0 = true /\
                            r = normalise_row all_known (columns shop_frame) r0).
Proof. exact (clean_data_keeps_schema all_known shop_frame shop_frame_well_formed). Defined.

Lemma text_cells_In f (cols : list (string * dtype)) r s :
  row_ok (map snd cols) r = true ->
  In (VStr s) (text_cells f cols r) -> exists s0, s = f s0.
Proof.
  revert r; induction cols as [|[n dt] cols IH]; intros [|v r] Hok H;
    cbn in *; try contradiction; try discriminate.
  apply andb_prop in Hok. destruct Hok as [Hv Hr].
  destruct H as [H|H]; [|now apply (IH r)].
  destruct dt, v; cbn in *; try discriminate. injection H as <-. now eexists.
Qed.

Lemma re_sub_unwanted_wanted s :
  forallb wanted (list_ascii_of_string (re_sub_unwanted s)) = true.
Proof.
  unfold re_sub_unwanted. rewrite list_ascii_of_string_of_list_ascii.
  apply forallb_forall. intros c Hc. apply filter_In in Hc. apply Hc.
Qed.

(** Every text in the dataset the Cleaner returns is made of letters,
    digits and whitespace only, whatever the spelling corrector answers:
    the characters are filtered after the correction. *)
Theorem clean_data_text_characters correction df :
  well_formed df ->
  exists c,
    run_frame (clean_data correction) df = Ok c /\
    forall r s, In r (values c) -> In (VStr s) r ->
                forallb wanted (list_ascii_of_string s) = true.
Proof.
  intros Hwf. exists (clean_frame correction df).
  split; [now apply run_clean_data|].
  intros r s Hr Hs.
  unfold values, clean_frame, map_rows, dropna, drop_duplicates in Hr;
    cbn [rows columns] in Hr.
  rewrite map_map in Hr; cbn [snd] in Hr.
  apply in_map_iff in Hr. destruct Hr as [[i r0] [<- H]].
  apply filter_In in H. destruct H as [H _]. apply dedup_In in H.
  destruct Hwf as [_ Hwt].
  assert (Hok : row_ok (map snd (columns df)) r0 = true) by (eapply well_typed_row; eauto).
  destruct (text_cells_In _ _ _ _ Hok Hs) as [s0 ->].
  apply re_sub_unwanted_wanted.
Qed.

Lemma clean_data_text_characters_witness :
  exists c,
    run_frame (clean_data all_known) shop_frame = Ok c /\
    forall r s, In r (values c) -> In (VStr s) r ->
                forallb wanted (list_ascii_of_string s) = true.
Proof. exact (clean_data_text_characters all_known shop_frame shop_frame_well_formed). Defined.

(** ** The Sorter's frame *)



(** ** When the API loader raises *)

Lemma existsb_is_data items :
  existsb (fun x => match x with
                    | JStr s => String.eqb s "data"
                    | _ => false
                    end) items = true
  <-> In (JStr "data") items.
Proof.
  rewrite existsb_exists. split.
  - intros [x [Hin Hx]]. destruct x; try discriminate.
    apply String.eqb_eq in Hx. now subst.
  - intros H. exists (JStr "data"). split; [exact H|reflexivity].
Qed.

(** [load_api] raises in these cases and no others: the answer has status
    200 and a JSON body that is [null], a boolean or a number (the test
    ['data' in data] raises), or a string that contains the text "data" or
    an array with the element "data" (then [data['data']] raises), or an
    object whose value under [data] the frame constructor refuses.  When
    it raises it has printed nothing and built no frame. *)
Theorem load_api_raises requests_get pd_DataFrame api_url w :
  ((exists e, fst (load_api requests_get pd_DataFrame api_url w) = Raise e) <->
   exists r data,
     requests_get api_url 10 = Responded r /\ status_code r = 200 /\
     body r = Some data /\
     match data with
     | JNull | JBool _ | JNum _ => True
     | JStr s => String.index 0%nat "data" s <> None
     | JArr items => In (JStr "data") items
     | JObj fields =>
         exists kv e, find (fun kv => String.eqb (fst kv) "data") fields = Some kv /\
                      pd_DataFrame (snd kv) = Raise e
     end) /\
  (forall e, fst (load_api requests_get pd_DataFrame api_url w) = Raise e ->
             snd (load_api requests_get pd_DataFrame api_url w) = w).
Proof.
  unfold load_api.
  destruct (requests_get api_url 10) as [|msg|r] eqn:Hget.
  1,2: split; [split|]; [intros [e H]; discriminate H
                        |intros [r [d [H _]]]; discriminate H
                        |intros e H; discriminate H].
  destruct (status_code r =? 200) eqn:Hs.
  2:{ apply Z.eqb_neq in Hs.
      split; [split|]; [intros [e H]; discriminate H
                       |intros [r' [d [H [H' _]]]]; injection H as <-; contradiction
                       |intros e H; discriminate H]. }
  apply Z.eqb_eq in Hs.
  destruct (body r) as [data|] eqn:Hb.
  2:{ split; [split|]; [intros [e H]; discriminate H
                       |intros [r' [d [H [_ [H' _]]]]]; injection H as <-; congruence
                       |intros e H; discriminate H]. }
  assert (Hiff : forall P : Prop,
             (P <-> (exists r' d, Responded r = Responded r' /\ status_code r' = 200 /\
                                  body r' = Some d /\
                                  match d with
                                  | JNull | JBool _ | JNum _ => True
                                  | JStr s => String.index 0%nat "data" s <> None
                                  | JArr items => In (JStr "data") items
                                  | JObj fields =>
                                      exists kv e,
                                        find (fun kv => String.eqb (fst kv) "data") fields
                                        = Some kv /\
                                        pd_DataFrame (snd kv) = Raise e
                                  end))
             <-> (P <-> match data with
                        | JNull | JBool _ | JNum _ => True
                        | JStr s => String.index 0%nat "data" s <> None
                        | JArr items => In (JStr "data") items
                        | JObj fields =>
                            exists kv e,
                              find (fun kv => String.eqb (fst kv) "data") fields
                              = Some kv /\
                              pd_DataFrame (snd kv) = Raise e
                        end)).
  { intros P. split; intros HP; split; intros H.
    - apply HP in H. destruct H as [r' [d [E [_ [Hd H]]]]].
      injection E as <-. rewrite Hb in Hd. now injection Hd as <-.
    - apply HP. exists r, data. auto.
    - exists r, data. split; [reflexivity|]. split; [exact Hs|].
      split; [exact Hb|]. now apply HP.
    - apply HP. destruct H as [r' [d [E [_ [Hd H]]]]].
      injection E as <-. rewrite Hb in Hd. now injection Hd as <-. }
  rewrite Hiff. clear Hiff.
  unfold bind, lift, contains, json_getitem, new, print, ret.
  destruct data as [| b | z | s | items | fields]; cbn [fst snd].
  1-3: split; [split; [auto|intros _; eauto]|auto].
  - destruct (String.index 0 "data" s) as [k|]; cbn [fst snd].
    + split; [split; [intros _; discriminate|intros _; eauto]|auto].
    + split; [split; [intros [e H]; discriminate H|intros H; now contradiction H]
             |intros e H; discriminate H].
  - destruct (existsb _ items) eqn:E; cbn [fst snd].
    + apply existsb_is_data in E.
      split; [split; [auto|intros _; eauto]|auto].
    + split; [split|]; [intros [e H]; discriminate H| |intros e H; discriminate H].
      intros H. apply existsb_is_data in H. congruence.
  - destruct (existsb _ fields) eqn:E; cbn [fst snd].
    + destruct (find _ fields) as [kv|] eqn:Hf.
      * destruct (pd_DataFrame (snd kv)) as [df|e] eqn:Hpd; cbn [fst snd].
        -- split; [split|]; [intros [e H]; discriminate H| |intros e H; discriminate H].
           intros [kv' [e [Hkv He]]]. injection Hkv as <-. congruence.
        -- split; [split; [intros _; eauto|intros _; eauto]|auto].
      * apply existsb_exists in E. destruct E as [x [Hin Hx]].
        eapply find_none in Hf; [|exact Hin]. cbn in Hf. congruence.
    + split; [split|]; [intros [e H]; discriminate H| |intros e H; discriminate H].
      intros [kv [e [Hkv _]]]. apply find_some in Hkv. destruct Hkv as [Hin Hx].
      assert (existsb (fun kv => String.eqb (fst kv) "data") fields = true)
        by (apply existsb_exists; eauto).
      congruence.
Qed.

Lemma load_api_builds_frame_witness :
  load_api (fun _ _ => Responded (mkResponse 200 "ok" (Some (JObj [("data", JArr [])]))))
           (fun _ => Ok prices_frame) "http://localhost/prices" (mkWorld [] [])
  = (Ok (Some 0%nat), mkWorld [prices_frame] []).
Proof.
  exact (load_api_builds_frame
           (fun _ _ => Responded (mkResponse 200 "ok" (Some (JObj [("data", JArr [])]))))
           (fun _ => Ok prices_frame) "http://localhost/prices" (mkWorld [] [])
           (mkResponse 200 "ok" (Some (JObj [("data", JArr [])])))
           [("data", JArr [])] (JArr []) eq_refl eq_refl eq_refl eq_refl).
Defined.

(** ** The entry point *)

(** The three ways [load_api] ends. *)
Lemma load_api_outcomes requests_get pd_DataFrame api_url w :
  match load_api requests_get pd_DataFrame api_url w with
  | (Ok (Some r), w') =>
      r = List.length (heap w) /\
      exists df, w' = mkWorld (heap w ++ [df]) (stdout w)
  | (Ok None, w') =>
      heap w' = heap w /\ exists report, report <> [] /\ stdout w' = stdout w ++ report
  | (Raise e, w') => w' = w
  end.
Proof.
  unfold load_api.
  destruct (requests_get api_url 10) as [|msg|r].
  1,2: cbn; split; [reflexivity|eexists; split; [|reflexivity]; discriminate].
  destruct (status_code r =? 200).
  2:{ unfold bind, print, ret; cbn. split; [reflexivity|].
      eexists. rewrite <- app_assoc. split; [|reflexivity]. discriminate. }
  destruct (body r) as [data|].
  2:{ cbn; split; [reflexivity|eexists; split; [|reflexivity]; discriminate]. }
  unfold bind, lift, new, print, ret.
  destruct (contains data "data") as [[|]|e]; cbn [fst snd heap stdout]; auto.
  - destruct (json_getitem data "data") as [v|e]; auto.
    destruct (pd_DataFrame v) as [df|e]; auto.
    split; [reflexivity|]. now exists df.
  - split; [reflexivity|eexists; split; [|reflexivity]; discriminate].
Qed.

Lemma from_loader_data l r w :
  from_loader l = Loaded (Some r) w ->
  r = 0%nat /\ exists df, w = mkWorld [df] [].
Proof.
  destruct l as [df|error]; cbn; intros H; [|discriminate].
  injection H as <- <-. eauto.
Qed.

(** When the dispatch hands on a frame, it is the only frame there is, and
    nothing has been printed. *)
Lemma load_data env data_source source_path_or_url rest r w :
  load env data_source source_path_or_url rest = Loaded (Some r) w ->
  r = 0%nat /\ exists df, w = mkWorld [df] [].
Proof.
  unfold load.
  destruct (String.eqb data_source "csv"); [apply from_loader_data|].
  destruct (String.eqb data_source "excel"); [apply from_loader_data|].
  destruct (String.eqb data_source "api").
  - pose proof (load_api_outcomes (get env) (DataFrame_of_json env)
                  source_path_or_url (mkWorld [] [])) as H.
    destruct (load_api _ _ _ _) as [[[r'|]|e] w']; intros E; try discriminate.
    injection E as <- <-. destruct H as [-> [df ->]]. cbn. eauto.
  - destruct (String.eqb data_source "database"); [|discriminate].
    destruct rest as [|query rest]; [discriminate|apply from_loader_data].
Qed.

Lemma from_loader_written l :
  match from_loader l with
  | Loaded _ _ => True
  | Over p => exit_status (ended p) = 1 /\ written p = []
  end.
Proof. destruct l; cbn; auto. Qed.

Lemma load_over env data_source source_path_or_url rest p :
  load env data_source source_path_or_url rest = Over p ->
  exit_status (ended p) = 1 /\ written p = [].
Proof.
  unfold load.
  assert (Hl : forall l, from_loader l = Over p ->
                         exit_status (ended p) = 1 /\ written p = []).
  { intros l E. pose proof (from_loader_written l) as H. now rewrite E in H. }
  destruct (String.eqb data_source "csv"); [apply Hl|].
  destruct (String.eqb data_source "excel"); [apply Hl|].
  destruct (String.eqb data_source "api").
  - destruct (load_api _ _ _ _) as [[d|e] w']; intros E; [discriminate|].
    injection E as <-. auto.
  - destruct (String.eqb data_source "database").
    + destruct rest as [|query rest]; [|apply Hl].
      intros E. injection E as <-. auto.
    + intros E. injection E as <-. auto.
Qed.

(** The program writes both files or none.  It writes them when it exits
    with status 0, and only then: a run that ends otherwise, by
    [sys.exit(1)] or by an exception, has status 1 and has written no
    file, not even the cleaned dataset. *)
Theorem main_writes_both_or_nothing env argv :
  (ended (main env argv) = Exit 0 /\
   exists c t, written (main env argv)
               = [("cleaned_data.csv", c); ("transformed_data.csv", t)]) \/
  (exit_status (ended (main env argv)) = 1 /\ written (main env argv) = []).
Proof.
  unfold main.
  destruct argv as [|prog [|data_source [|source_path_or_url rest]]];
    try (right; split; reflexivity).
  destruct (load env data_source source_path_or_url rest) as [data w|p] eqn:E.
  - unfold analyse. destruct data as [data|]; [|right; split; reflexivity].
    destruct (perform_analysis _ _ data w) as [[[c t]|e] w'];
      [|right; split; reflexivity].
    destruct (nth_error (heap w') c) as [dc|]; [|right; split; reflexivity].
    destruct (nth_error (heap w') t) as [dt|]; [|right; split; reflexivity].
    left. split; [reflexivity|]. do 2 eexists. reflexivity.
  - right. eapply load_over; eauto.
Qed.

(** A command line the program does not accept (fewer than two arguments,
    a data source other than csv, excel, api and database, or database
    without a query) ends the run with status 1 after one line of output,
    and nothing of the environment is consulted: the run is the same on
    every machine. *)
Theorem main_rejects_command_line env argv :
  (List.length argv < 3)%nat \/
  (exists data_source, nth_error argv 1 = Some data_source /\
                       ~ In data_source ["csv"; "excel"; "api"; "database"]) \/
  (nth_error argv 1 = Some "database" /\ (List.length argv < 4)%nat) ->
  (exists line, main env argv = mkProcess (Exit 1) [Line line] []) /\
  (forall env', main env' argv = main env argv).
Proof.
  intros H. unfold main.
  destruct argv as [|prog [|data_source [|source_path_or_url rest]]];
    try (split; [eexists; reflexivity|reflexivity]).
  destruct H as [H|[[ds [E Hn]]|[E H]]]; [cbn in H; lia| |].
  - cbn in E. injection E as <-. unfold load.
    destruct (String.eqb data_source "csv") eqn:E1;
      [apply String.eqb_eq in E1; subst; exfalso; apply Hn; cbn; auto|].
    destruct (String.eqb data_source "excel") eqn:E2;
      [apply String.eqb_eq in E2; subst; exfalso; apply Hn; cbn; auto|].
    destruct (String.eqb data_source "api") eqn:E3;
      [apply String.eqb_eq in E3; subst; exfalso; apply Hn; cbn; auto|].
    destruct (String.eqb data_source "database") eqn:E4;
      [apply String.eqb_eq in E4; subst; exfalso; apply Hn; cbn; auto 6|].
    split; [eexists; reflexivity|reflexivity].
  - cbn in E. injection E as ->.
    destruct rest as [|query rest]; [|cbn in H; lia].
    split; [eexists; reflexivity|reflexivity].
Qed.

Lemma main_rejects_command_line_witness :
  exists line,
    main (one_file prices_frame) ["demo.py"; "database"; "sqlite:///shop.db"]
    = mkProcess (Exit 1) [Line line] [].
Proof.
  apply (main_rejects_command_line (one_file prices_frame)
           ["demo.py"; "database"; "sqlite:///shop.db"]).
  right. right. split; [reflexivity|cbn; lia].
Defined.

(** End to end: when a loader gives a well-formed dataset whose cleaned
    (and sorted) frame [s] the scaler accepts, the program prints the
    report on [some_column] and nothing else, and, when the join of
    [transform_data] returns, exits with status 0 having written
    [transform_data s] to transformed_data.csv and, to cleaned_data.csv,
    [s] with its numeric columns standardized: the file of cleaned data
    does not hold the numbers of the input.  When the join raises, the run
    ends with that exception and no file. *)
Theorem main_end_to_end env prog data_source source_path_or_url rest r w df :
  load env data_source source_path_or_url rest = Loaded (Some r) w ->
  nth_error (heap w) r = Some df ->
  well_formed df ->
  scalable (staged (np_argsort env) (clean_frame (spell env) df)) ->
  main env (prog :: data_source :: source_path_or_url :: rest)
  = match run_frame transform_data
            (staged (np_argsort env) (clean_frame (spell env) df)) with
    | Ok t =>
        mkProcess (Exit 0)
          (analysis_report (staged (np_argsort env) (clean_frame (spell env) df)))
          [("cleaned_data.csv",
            to_csv (scaled_frame (staged (np_argsort env) (clean_frame (spell env) df))));
           ("transformed_data.csv", to_csv t)]
    | Raise e =>
        mkProcess (Traceback e)
          (analysis_report (staged (np_argsort env) (clean_frame (spell env) df))) []
    end.
Proof.
  intros Hload Hr Hwf Hs.
  destruct (load_data _ _ _ _ _ _ Hload) as [-> [df' ->]].
  cbn in Hr. injection Hr as ->.
  unfold main. rewrite Hload. unfold analyse.
  destruct (perform_analysis_outcome (spell env) (np_argsort env) df Hwf Hs)
    as [w' [Hout [_ H]]].
  destruct (run_frame transform_data _) as [t|e].
  - destruct H as [cl [tr [-> [Hc Ht]]]]. now rewrite Hc, Ht, Hout.
  - now rewrite H, Hout.
Qed.

Lemma main_end_to_end_witness :
  main (one_file prices_frame) ["demo.py"; "csv"; "prices.csv"]
  = match run_frame transform_data
            (staged numpy_argsort (clean_frame all_known prices_frame)) with
    | Ok t =>
        mkProcess (Exit 0)
          (analysis_report (staged numpy_argsort (clean_frame all_known prices_frame)))
          [("cleaned_data.csv",
            to_csv (scaled_frame
                      (staged numpy_argsort (clean_frame all_known prices_frame))));
           ("transformed_data.csv", to_csv t)]
    | Raise e =>
        mkProcess (Traceback e)
          (analysis_report (staged numpy_argsort (clean_frame all_known prices_frame)))
          []
    end.
Proof.
  exact (main_end_to_end (one_file prices_frame) "demo.py" "csv" "prices.csv" []
           0%nat (mkWorld [prices_frame] []) prices_frame
           eq_refl eq_refl prices_well_formed prices_staged_scalable).
Defined.

(** A dataset the pipeline cannot transform ends the run with an uncaught
    [ValueError] and no file: this is so for every well-formed dataset
    with no numeric column, and for every one in which each row has a
    missing value.  The cleaned dataset is not saved either. *)
Theorem main_refuses_dataset env prog data_source source_path_or_url rest r w df :
  load env data_source source_path_or_url rest = Loaded (Some r) w ->
  nth_error (heap w) r = Some df ->
  well_formed df ->
  select_dtypes [Float64; Int64] df = [] \/
  Forall (fun r => complete r = false) (values df) ->
  exists message,
    main env (prog :: data_source :: source_path_or_url :: rest)
    = mkProcess (Traceback (ValueError message))
        (analysis_report (staged (np_argsort env) (clean_frame (spell env) df))) [].
Proof.
  intros Hload Hr Hwf H.
  destruct (load_data _ _ _ _ _ _ Hload) as [-> [df' ->]].
  cbn in Hr. injection Hr as ->.
  unfold main. rewrite Hload. unfold analyse.
  destruct (perform_analysis_refused (spell env) (np_argsort env) df Hwf)
    as [Hnone Hrows].
  destruct (select_dtypes [Float64; Int64] df) as [|n ns] eqn:Hn.
  - destruct (Hnone eq_refl) as [w' [-> ->]]. eauto.
  - destruct H as [H|H]; [discriminate|].
    destruct (Hrows ltac:(discriminate) H) as [w' [-> ->]]. eauto.
Qed.

Lemma main_refuses_dataset_witness :
  exists message,
    main (one_file fruit_frame) ["demo.py"; "csv"; "fruit.csv"]
    = mkProcess (Traceback (ValueError message))
        (analysis_report (staged numpy_argsort (clean_frame all_known fruit_frame)))
        [].
Proof.
  exact (main_refuses_dataset (one_file fruit_frame) "demo.py" "csv" "fruit.csv" []
           0%nat (mkWorld [fruit_frame] []) fruit_frame
           eq_refl eq_refl fruit_frame_well_formed (or_introl eq_refl)).
Defined.

(** The null-data guard: when the request times out or fails, the answer
    has another status than 200, its body is no JSON, or its JSON object
    has no [data] key, the program prints the loader's diagnostic, then
    "Failed to load data. Exiting.", and exits with status 1; the pipeline
    is not run and no file is written. *)
Theorem main_no_data env prog api_url rest :
  match get env api_url 10 with
  | TimedOut | RequestFailed _ => True
  | Responded r =>
      status_code r <> 200 \/ body r = None \/
      exists fields, body r = Some (JObj fields) /\
                     existsb (fun kv => String.eqb (fst kv) "data") fields = false
  end ->
  exists report,
    report <> [] /\
    main env (prog :: "api" :: api_url :: rest)
    = mkProcess (Exit 1) (report ++ [Line "Failed to load data. Exiting."]) [].
Proof.
  intros H.
  destruct (load_api_fail_soft (get env) (DataFrame_of_json env) api_url
              (mkWorld [] []) H) as [report [E Hne]].
  exists report. split; [exact Hne|].
  unfold main, load. cbn [String.eqb Ascii.eqb Bool.eqb].
  now rewrite E.
Qed.

Lemma main_no_data_witness :
  exists report,
    report <> [] /\
    main (one_file prices_frame) ["demo.py"; "api"; "http://localhost/prices"]
    = mkProcess (Exit 1) (report ++ [Line "Failed to load data. Exiting."]) [].
Proof.
  apply (main_no_data (one_file prices_frame) "demo.py" "http://localhost/prices" []).
  exact I.
Defined.

(** ** The indicator columns *)

Lemma ltb_trans a b c :
  String.ltb a b = true -> String.ltb b c = true -> String.ltb a c = true.
Proof.
  unfold String.ltb. intros Hab Hbc.
  destruct (String.compare a b) eqn:Eab; try discriminate.
  destruct (String.compare b c) eqn:Ebc; try discriminate.
  apply OrderedTypeEx.String_as_OT.cmp_lt in Eab, Ebc.
  pose proof (OrderedTypeEx.String_as_OT.lt_trans _ _ _ Eab Ebc) as H.
  apply OrderedTypeEx.String_as_OT.cmp_lt in H.
  unfold OrderedTypeEx.String_as_OT.cmp in H. now rewrite H.
Qed.

Lemma ltb_irrefl a : String.ltb a a = false.
Proof.
  unfold String.ltb.
  assert (H : String.compare a a = Eq)
    by now apply OrderedTypeEx.String_as_OT.cmp_eq.
  now rewrite H.
Qed.

Lemma ltb_total a b :
  String.ltb a b = false -> String.eqb a b = false -> String.ltb b a = true.
Proof.
  unfold String.ltb. intros Hlt Hne.
  rewrite (String.compare_antisym b a).
  destruct (String.compare a b) eqn:E; try discriminate; [|reflexivity].
  apply String.compare_eq_iff in E. subst. now rewrite String.eqb_refl in Hne.
Qed.

Lemma insert_unique_In s x l : In x (insert_unique s l) <-> x = s \/ In x l.
Proof.
  induction l as [|y l IH]; cbn; [intuition|].
  destruct (String.ltb s y); [cbn; intuition|].
  destruct (String.eqb s y) eqn:E.
  - apply String.eqb_eq in E. subst. cbn. intuition.
  - cbn. rewrite IH. intuition.
Qed.

Lemma insert_unique_sorted s l :
  ForallOrdPairs (fun a b => String.ltb a b = true) l ->
  ForallOrdPairs (fun a b => String.ltb a b = true) (insert_unique s l).
Proof.
  induction 1 as [|y l Hy Hl IH]; cbn; [repeat constructor|].
  destruct (String.ltb s y) eqn:Hlt.
  - constructor; [|now constructor].
    constructor; [exact Hlt|].
    eapply Forall_impl; [|exact Hy]. intros z Hz. now apply (ltb_trans s y z).
  - destruct (String.eqb s y) eqn:E; [now constructor|].
    constructor; [|exact IH].
    apply Forall_forall. intros z Hz. apply insert_unique_In in Hz.
    destruct Hz as [->|Hz]; [now apply ltb_total|].
    rewrite Forall_forall in Hy. now apply Hy.
Qed.

Lemma sorted_NoDup l :
  ForallOrdPairs (fun a b => String.ltb a b = true) l -> NoDup l.
Proof.
  induction 1 as [|y l Hy Hl IH]; constructor; auto.
  intros Hin. rewrite Forall_forall in Hy. apply Hy in Hin.
  now rewrite ltb_irrefl in Hin.
Qed.

Lemma unique_texts_sorted l :
  ForallOrdPairs (fun a b => String.ltb a b = true) (fold_right insert_unique [] l).
Proof. induction l; cbn; [constructor|now apply insert_unique_sorted]. Qed.

Lemma unique_texts_In l x : In x (fold_right insert_unique [] l) <-> In x l.
Proof.
  induction l as [|y l IH]; cbn; [reflexivity|].
  rewrite insert_unique_In, IH. intuition.
Qed.

Lemma filter_eqb_one s l :
  NoDup l -> In s l -> List.length (filter (fun x => String.eqb x s) l) = 1%nat.
Proof.
  induction 1 as [|y l Hy Hl IH]; cbn; [contradiction|].
  intros [->|Hin].
  - rewrite String.eqb_refl. cbn. f_equal.
    rewrite filter_none; [reflexivity|].
    intros x Hx. apply String.eqb_neq. intros ->. contradiction.
  - destruct (String.eqb y s) eqn:E; [|now apply IH].
    apply String.eqb_eq in E. subst. contradiction.
Qed.

(** Exactly one category of a textual column equals a given cell of it. *)
Lemma one_category col v :
  Forall (fun v => cell_ok Object v = true) col -> In v col ->
  List.length (filter (fun c => value_eqb c v) (categories col)) = 1%nat.
Proof.
  intros Hcol Hv. unfold categories.
  assert (Hnf : existsb (fun v => match v with VFloat _ => true | _ => false end) col
                = false).
  { apply existsb_false. intros x Hx. rewrite Forall_forall in Hcol.
    apply Hcol in Hx. now destruct x. }
  rewrite Hnf, app_nil_r, filter_app, length_app.
  pose proof (proj1 (Forall_forall _ _) Hcol v Hv) as Hok.
  destruct v as [z|x|s|]; try discriminate.
  - assert (E : filter (fun c => value_eqb c (VStr s))
                       (map VStr (fold_right insert_unique [] (texts col)))
                = map VStr (filter (fun x => String.eqb x s)
                                   (fold_right insert_unique [] (texts col)))).
    { induction (fold_right insert_unique [] (texts col)) as [|y l IH]; cbn; auto.
      destruct (String.eqb y s); cbn; now rewrite IH. }
    rewrite E, length_map, filter_eqb_one.
    + clear Hnf. destruct (existsb _ col); reflexivity.
    + apply sorted_NoDup, unique_texts_sorted.
    + apply unique_texts_In. unfold texts. apply in_flat_map.
      exists (VStr s). split; [exact Hv|now left].
  - rewrite filter_none.
    + assert (E : existsb (fun v => match v with VNone => true | _ => false end) col
                  = true) by (apply existsb_exists; exists VNone; auto).
      now rewrite E.
    + intros x Hx. apply in_map_iff in Hx. now destruct Hx as [y [<- _]].
Qed.

Lemma filter_map_fst {A B : Type} (p : A -> bool) (l : list (A * B)) :
  map fst (filter (fun c => p (fst c)) l) = filter p (map fst l).
Proof.
  induction l as [|[a b] l IH]; cbn; auto.
  destruct (p a); cbn; now rewrite IH.
Qed.

Lemma filter_ext_In {A : Type} (p q : A -> bool) (l : list A) :
  (forall x, In x l -> p x = q x) -> filter p l = filter q l.
Proof.
  induction l as [|a l IH]; cbn; intros H; auto.
  rewrite (H a (or_introl eq_refl)), IH; auto.
Qed.

(** What is left of the scaled frame are the numeric columns, in order. *)
Lemma numeric_names_left df :
  well_formed df ->
  column_names (drop (scaled_frame df) (select_dtypes [Object] df))
  = select_dtypes [Float64; Int64] df.
Proof.
  intros [Hnd Hwt].
  unfold column_names, drop; cbn [columns].
  rewrite (filter_map_fst (fun n => negb (dropped (select_dtypes [Object] df) n))).
  fold (column_names (scaled_frame df)). rewrite scaled_frame_names.
  unfold select_dtypes at 2.
  rewrite (filter_ext_In
             (fun c : string * dtype => existsb (dtype_eqb (snd c)) [Float64; Int64])
             (fun c => negb (dropped (select_dtypes [Object] df) (fst c)))).
  - symmetry. apply (filter_map_fst
                       (fun n => negb (dropped (select_dtypes [Object] df) n))).
  - intros [n dt] Hin; cbn [fst snd].
    destruct (dropped (select_dtypes [Object] df) n) eqn:Hd; cbn [negb].
    + unfold dropped in Hd. apply existsb_exists in Hd.
      destruct Hd as [m [Hm E]]. apply String.eqb_eq in E. subst m.
      apply object_selected in Hm.
      rewrite (NoDup_fst_functional (columns df) n dt Object Hnd Hin Hm).
      reflexivity.
    + destruct dt; try reflexivity. exfalso.
      assert (Ho : In n (select_dtypes [Object] df)).
      { apply select_dtypes_In. exists Object. split; [exact Hin|reflexivity]. }
      unfold dropped in Hd.
      assert (Ht : existsb (String.eqb n) (select_dtypes [Object] df) = true).
      { apply existsb_exists. exists n. split; [exact Ho|apply String.eqb_refl]. }
      congruence.
Qed.

Lemma encoded_frame_names df : column_names (encoded_frame df) = indicator_names df.
Proof.
  unfold encoded_frame, DataFrame_of_array, from_rows, column_names, indicator_names;
    cbn [columns].
  rewrite !map_map. cbn [fst]. now rewrite map_id.
Qed.

Lemma one_hot_row (g : string -> list value) (i : nat) (names : list string) :
  (forall n, In n names -> (i < List.length (g n))%nat) ->
  map (fun col => VFloat (nth i col PrimFloat.nan))
      (OneHotEncoder_transform (map categories (map g names)) (map g names))
  = flat_map (fun n => map (fun c => VFloat (indicator c (nth i (g n) VNone)))
                           (categories (g n))) names.
Proof.
  unfold OneHotEncoder_transform.
  induction names as [|n names IH]; intros H; cbn; [reflexivity|].
  rewrite map_app, IH by (intros m Hm; apply H; now right).
  f_equal. rewrite map_map. apply map_ext. intros c. f_equal.
  rewrite (nth_indep _ PrimFloat.nan (indicator c VNone))
    by (rewrite length_map; apply H; now left).
  apply (map_nth (indicator c)).
Qed.

Lemma encoded_frame_row df i :
  well_formed df -> (i < List.length (rows df))%nat ->
  nth_error (values (encoded_frame df)) i = Some (indicator_cells df i).
Proof.
  intros [Hnd Hwt] Hi.
  unfold values, encoded_frame, DataFrame_of_array, from_rows; cbn [rows].
  rewrite (map_combine_snd (fun x => x)), map_id
    by (rewrite RangeIndex_length; reflexivity).
  rewrite nth_error_map, nth_error_nth' with (d := 0%nat)
    by (rewrite length_seq; exact Hi).
  rewrite seq_nth by exact Hi. cbn [option_map Nat.add].
  apply f_equal. apply one_hot_row.
  intros n Hn. rewrite column_length; [exact Hi|].
  eapply select_dtypes_names; eauto.
Qed.

Lemma side_by_side_row a b i ra rb :
  nth_error (values a) i = Some ra ->
  nth_error (values b) i = Some rb ->
  nth_error (values (side_by_side a b)) i = Some (ra ++ rb).
Proof.
  unfold values, side_by_side; cbn [rows].
  rewrite map_map; cbn [snd].
  generalize (rows a) (rows b). clear a b.
  induction i as [|i IH]; intros [|x la] [|y lb]; cbn; try discriminate.
  - now intros [= <-] [= <-].
  - apply IH.
Qed.

(** One-hot encoding on a dataset under the default labels: the result has
    the numeric columns followed by one indicator column per textual column
    and category, named column_category; the row at each position is the
    row of the scaled frame at that position, without its texts, followed by
    the indicator cells of that position; and within the indicators of one
    textual column exactly one cell of a row is 1.0, the one of the row's
    own category. *)
Theorem transform_data_one_hot df :
  transformable df ->
  exists out,
    run_frame transform_data df = Ok out /\
    column_names out = select_dtypes [Float64; Int64] df ++ indicator_names df /\
    (forall i, (i < List.length (rows df))%nat ->
       exists numbers,
         nth_error (values (drop (scaled_frame df) (select_dtypes [Object] df))) i
         = Some numbers /\
         List.length numbers = List.length (select_dtypes [Float64; Int64] df) /\
         nth_error (values out) i = Some (numbers ++ indicator_cells df i)) /\
    (forall n i, In n (select_dtypes [Object] df) ->
                 (i < List.length (rows df))%nat ->
                 List.length (filter (fun c => value_eqb c (nth i (column df n) VNone))
                                     (categories (column df n))) = 1%nat).
Proof.
  intros Ht. pose proof Ht as [Hwf _]. pose proof Hwf as [Hnd Hwt].
  exists (transform_frame df).
  split; [now apply transform_data_run|].
  set (A := drop (scaled_frame df) (select_dtypes [Object] df)).
  assert (HA : column_names A = select_dtypes [Float64; Int64] df)
    by now apply numeric_names_left.
  split; [|split].
  - unfold transform_frame. unfold column_names at 1.
    unfold side_by_side; cbn [columns]. rewrite map_app.
    change (column_names A ++ column_names (encoded_frame df)
            = select_dtypes [Float64; Int64] df ++ indicator_names df).
    now rewrite HA, encoded_frame_names.
  - intros i Hi.
    assert (Hlen : List.length (values A) = List.length (rows df)).
    { unfold values. rewrite length_map. unfold A.
      rewrite drop_rows_length. apply setitem_cols_rows_length. }
    destruct (nth_error (values A) i) as [ra|] eqn:Hra.
    2:{ apply nth_error_None in Hra. lia. }
    exists ra. split; [reflexivity|]. split.
    + assert (Hsh : shaped A) by (apply drop_shaped; now apply scaled_frame_shaped).
      unfold shaped in Hsh. rewrite Forall_forall in Hsh.
      apply nth_error_In in Hra. unfold values in Hra.
      apply in_map_iff in Hra. destruct Hra as [ir [<- Hin]].
      rewrite <- HA. unfold column_names. rewrite length_map.
      exact (Hsh ir Hin).
    + apply side_by_side_row; [exact Hra|now apply encoded_frame_row].
  - intros n i Hn Hi.
    assert (Hlen : List.length (column df n) = List.length (rows df)).
    { apply column_length. eapply select_dtypes_names; eauto. }
    apply one_category.
    + apply Forall_forall. intros v Hv.
      apply (column_typed df n Object v Hwf); [|exact Hv].
      now apply object_selected.
    + apply nth_In. lia.
Qed.

Lemma transform_data_one_hot_witness :
  exists out,
    run_frame transform_data one_two_three_frame = Ok out /\
    column_names out
    = select_dtypes [Float64; Int64] one_two_three_frame
      ++ indicator_names one_two_three_frame /\
    (forall i, (i < List.length (rows one_two_three_frame))%nat ->
       exists numbers,
         nth_error (values (drop (scaled_frame one_two_three_frame)
                                 (select_dtypes [Object] one_two_three_frame))) i
         = Some numbers /\
         List.length numbers
         = List.length (select_dtypes [Float64; Int64] one_two_three_frame) /\
         nth_error (values out) i
         = Some (numbers ++ indicator_cells one_two_three_frame i)) /\
    (forall n i, In n (select_dtypes [Object] one_two_three_frame) ->
                 (i < List.length (rows one_two_three_frame))%nat ->
                 List.length
                   (filter (fun c => value_eqb c
                                       (nth i (column one_two_three_frame n) VNone))
                           (categories (column one_two_three_frame n))) = 1%nat).
Proof. exact (transform_data_one_hot one_two_three_frame one_two_three_transformable). Defined.

(** ** Numbers in a column of texts *)

Lemma mapM_raise {A B : Type} (g : A -> result B) (l : list A) e :
  mapM g l = Raise e -> exists x, In x l /\ g x = Raise e.
Proof.
  induction l as [|a l IH]; cbn; intros H; [discriminate|].
  destruct (g a) as [b|e'] eqn:E; cbn in H.
  - destruct (mapM g l) as [bs|e'']; cbn in H; [discriminate|].
    injection H as ->. destruct (IH eq_refl) as [x [Hin Hx]]. eauto.
  - injection H as ->. eauto.
Qed.

Lemma mapM_In {A B : Type} (g : A -> result B) (l : list A) l' x :
  mapM g l = Ok l' -> In x l -> exists y, In y l' /\ g x = Ok y.
Proof.
  revert l'; induction l as [|a l IH]; cbn; intros l' H Hin; [contradiction|].
  destruct (g a) as [b|e'] eqn:E; cbn in H; [|discriminate].
  destruct (mapM g l) as [bs|e'']; cbn in H; [|discriminate].
  injection H as <-. destruct Hin as [->|Hin].
  - exists b. split; [now left|exact E].
  - destruct (IH bs eq_refl Hin) as [y [Hy Hg]]. exists y. split; [now right|exact Hg].
Qed.

Lemma apply_cells_other f c (cols : list (string * dtype)) r r' p n dt :
  apply_cells f c cols r = Ok r' ->
  nth_error cols p = Some (n, dt) -> n <> c ->
  nth_error r' p = nth_error r p.
Proof.
  revert r r' p; induction cols as [|[m d] cols IH]; intros r r' p H Hp Hn.
  - destruct p; discriminate.
  - destruct r as [|v r]; cbn in H; [now injection H as <-|].
    destruct (if String.eqb m c then f v else Ok v) as [v'|e] eqn:Ev;
      cbn in H; [|discriminate].
    destruct (apply_cells f c cols r) as [r''|e] eqn:Er; cbn in H; [|discriminate].
    injection H as <-. destruct p as [|p]; cbn in *.
    + injection Hp as -> ->.
      apply String.eqb_neq in Hn. rewrite Hn in Ev. congruence.
    + now apply (IH r r'' p).
Qed.

Lemma apply_cells_raises f n (cols : list (string * dtype)) r p dt v e0 :
  nth_error cols p = Some (n, dt) -> nth_error r p = Some v -> f v = Raise e0 ->
  exists e, apply_cells f n cols r = Raise e.
Proof.
  revert r p; induction cols as [|[m d] cols IH]; intros r p Hp Hr Hf.
  - destruct p; discriminate.
  - destruct r as [|u r]; [destruct p; discriminate|]. cbn.
    destruct p as [|p]; cbn in *.
    + injection Hp as -> ->. injection Hr as ->.
      rewrite String.eqb_refl, Hf. cbn. eauto.
    + destruct (if String.eqb m n then f u else Ok u) as [u'|e]; cbn; [|eauto].
      destruct (IH r p Hp Hr Hf) as [e ->]. cbn. eauto.
Qed.

Lemma apply_cells_error f c (cols : list (string * dtype)) r e E :
  (forall v e, f v = Raise e -> e = E) ->
  apply_cells f c cols r = Raise e -> e = E.
Proof.
  intros Hf. revert r; induction cols as [|[m d] cols IH]; intros r H.
  - destruct r; discriminate.
  - destruct r as [|v r]; [discriminate|]. cbn in H.
    destruct (if String.eqb m c then f v else Ok v) as [v'|e'] eqn:Ev; cbn in H.
    + destruct (apply_cells f c cols r) as [r''|e''] eqn:Er; cbn in H; [discriminate|].
      injection H as <-. now apply (IH r).
    + injection H as <-. destruct (String.eqb m c); [|discriminate].
      now apply (Hf v).
Qed.

Lemma spell_lambda_error correction v e :
  spell_lambda correction v = Raise e -> e = AttributeError "split".
Proof.
  unfold spell_lambda. destruct (notnull v); [|discriminate].
  destruct v; intros H; try discriminate; now injection H as <-.
Qed.

Lemma spell_lambda_number correction v :
  number_cell v = true -> spell_lambda correction v = Raise (AttributeError "split").
Proof.
  unfold spell_lambda, notnull, isna.
  destruct v as [z|x|s|]; cbn; try discriminate; [reflexivity|].
  intros H. apply negb_true_iff in H. now rewrite H.
Qed.

(** The spelling pass raises when a row has a number in one of the columns
    it is to go through. *)
Lemma spell_pass_raises correction data n p dt cols0 :
  nth_error cols0 p = Some (n, dt) ->
  forall cols w rs,
    nth_error (heap w) data = Some (mkDataFrame cols0 rs) ->
    (forall c, In c cols -> In c (map fst cols0)) ->
    In n cols ->
    (exists i r v, In (i, r) rs /\ nth_error r p = Some v /\ number_cell v = true) ->
    fst (for_each cols (fun col => setitem_apply data col (spell_lambda correction)) w)
    = Raise (AttributeError "split").
Proof.
  intros Hp cols. induction cols as [|c cols IH]; intros w rs Hget Hnames Hn Hbad;
    [contradiction|].
  cbn [for_each]. unfold bind at 1. unfold setitem_apply at 1.
  unfold bind, deref, lift, assign. rewrite Hget.
  unfold apply_column, column_names. cbn [columns rows].
  assert (Hc : existsb (String.eqb c) (map fst cols0) = true).
  { apply existsb_exists. exists c. split; [|apply String.eqb_refl].
    apply Hnames. now left. }
  rewrite Hc.
  destruct (mapM _ rs) as [rs'|e] eqn:Em; cbn [rbind fst snd].
  - destruct Hbad as [i [r [v [Hin [Hr Hv]]]]].
    destruct (mapM_In _ _ _ _ Em Hin) as [[i' r'] [Hin' Hg]]. cbn in Hg.
    destruct (apply_cells _ c cols0 r) as [r''|e] eqn:Ea; cbn in Hg; [|discriminate].
    injection Hg as <- <-.
    destruct (String.eqb n c) eqn:Enc.
    + apply String.eqb_eq in Enc. subst c.
      destruct (apply_cells_raises (spell_lambda correction) n cols0 r p dt v _
                  Hp Hr (spell_lambda_number correction v Hv)) as [e He].
      congruence.
    + apply String.eqb_neq in Enc.
      apply (IH _ rs').
      * cbn [heap]. apply nth_error_set_nth_eq. apply nth_error_Some. congruence.
      * intros x Hx. apply Hnames. now right.
      * destruct Hn as [Hn|Hn]; [congruence|exact Hn].
      * exists i, r'', v. split; [exact Hin'|]. split; [|exact Hv].
        rewrite (apply_cells_other _ _ _ _ _ _ _ _ Ea Hp Enc). exact Hr.
  - apply mapM_raise in Em. destruct Em as [[i r] [_ Hg]]. cbn in Hg.
    destruct (apply_cells _ c cols0 r) as [r''|e'] eqn:Ea; cbn in Hg; [discriminate|].
    injection Hg as <-. f_equal.
    eapply apply_cells_error; [|exact Ea].
    intros v0 e0. apply spell_lambda_error.
Qed.

(** A number in a column of texts stops the Cleaner: when a row that
    outlives [drop_duplicates] and [dropna] holds a number in a column of
    dtype object, [clean_data] raises [AttributeError], the number having
    no [split]. *)
Theorem clean_data_mixed_column correction df n p i r v :
  nth_error (columns df) p = Some (n, Object) ->
  In (i, r) (rows (dropna (drop_duplicates df))) ->
  nth_error r p = Some v ->
  number_cell v = true ->
  run_frame (clean_data correction) df = Raise (AttributeError "split").
Proof.
  intros Hp Hin Hr Hv.
  unfold run_frame, clean_data.
  unfold bind at 1. unfold deref at 1. cbn [heap nth_error].
  unfold bind at 1. unfold new at 1. cbn [heap stdout app List.length].
  unfold bind at 1. unfold deref at 1. cbn [heap nth_error].
  unfold bind at 1. unfold new at 1. cbn [heap stdout app List.length].
  unfold bind at 1. unfold deref at 1. cbn [heap nth_error].
  unfold bind at 1.
  set (d := dropna (drop_duplicates df)) in *.
  pose proof (spell_pass_raises correction 2%nat n p Object (columns df) Hp
                (select_dtypes [Object] d)
                (mkWorld [df; drop_duplicates df; d] []) (rows d)) as H.
  destruct (for_each _ _ _) as [[[]|e] w3]; cbn [fst] in H.
  - assert (E : @Ok unit tt = Raise (AttributeError "split")); [|discriminate E].
    apply H.
    + reflexivity.
    + intros c Hc. apply (select_dtypes_names [Object] d c Hc).
    + apply select_dtypes_In. exists Object. split; [|reflexivity].
      eapply nth_error_In; exact Hp.
    + exists i, r, v. auto.
  - assert (E : @Raise unit e = Raise (AttributeError "split")).
    { apply H.
      + reflexivity.
      + intros c Hc. apply (select_dtypes_names [Object] d c Hc).
      + apply select_dtypes_In. exists Object. split; [|reflexivity].
        eapply nth_error_In; exact Hp.
      + exists i, r, v. auto. }
    injection E as ->. reflexivity.
Qed.

Lemma clean_data_mixed_column_witness :
  run_frame (clean_data all_known) mixed_frame = Raise (AttributeError "split").
Proof.
  apply (clean_data_mixed_column all_known mixed_frame "code" 0%nat 1 [VInt 7] (VInt 7)).
  - reflexivity.
  - cbn. right. left. reflexivity.
  - reflexivity.
  - reflexivity.
Defined.

(** ** Rows in another order than their labels *)

Lemma same_labels_eq a b : same_labels a b = true -> a = b.
Proof.
  unfold same_labels. revert b; induction a as [|x a IH]; intros [|y b] H;
    cbn in H; try discriminate; auto.
  apply andb_prop in H. destruct H as [Hl H].
  apply andb_prop in H. destruct H as [Hxy H]. cbn in Hxy.
  apply Z.eqb_eq in Hxy. subst y. f_equal. apply IH. now rewrite Hl, H.
Qed.

Lemma unique_NoDup l : unique l = true <-> NoDup l.
Proof.
  induction l as [|x l IH]; cbn.
  - split; [constructor|reflexivity].
  - rewrite andb_true_iff, negb_true_iff, IH. split.
    + intros [Hx Hl]. constructor; [|exact Hl].
      intros Hin. assert (E : existsb (Z.eqb x) l = true); [|congruence].
      apply existsb_exists. exists x. split; [exact Hin|apply Z.eqb_refl].
    + intros H. inversion H as [|? ? Hx Hl]; subst. split; [|exact Hl].
      apply existsb_false. intros y Hy. apply Z.eqb_neq. intros ->. contradiction.
Qed.

Lemma RangeIndex_nth s n j :
  (j < n)%nat -> nth_error (RangeIndex s n) j = Some (s + Z.of_nat j).
Proof.
  revert s j; induction n as [|n IH]; intros s j H; [lia|].
  destruct j as [|j]; cbn [RangeIndex nth_error].
  - f_equal. lia.
  - rewrite IH by lia. f_equal. lia.
Qed.

Lemma RangeIndex_In s n x : In x (RangeIndex s n) <-> s <= x < s + Z.of_nat n.
Proof.
  revert s; induction n as [|n IH]; intros s; cbn [RangeIndex In].
  - split; [contradiction|lia].
  - rewrite IH. lia.
Qed.

Lemma find_label (rs : list (Z * row)) k l r :
  NoDup (map fst rs) -> nth_error rs k = Some (l, r) ->
  find (fun ir => Z.eqb (fst ir) l) rs = Some (l, r).
Proof.
  revert k; induction rs as [|[l0 r0] rs IH]; intros k Hnd Hk.
  - destruct k; discriminate.
  - inversion Hnd as [|? ? Hl0 Hnd']; subst. destruct k as [|k]; cbn in *.
    + injection Hk as -> ->. now rewrite Z.eqb_refl.
    + destruct (Z.eqb l0 l) eqn:E; [|now apply (IH k)].
      apply Z.eqb_eq in E. subst l0. exfalso. apply Hl0.
      apply nth_error_In in Hk. change l with (fst (l, r)). now apply in_map.
Qed.

Lemma nth_error_values df k r :
  nth_error (values df) k = Some r ->
  exists l, nth_error (rows df) k = Some (l, r) /\ nth_error (index df) k = Some l.
Proof.
  unfold values, index. rewrite !nth_error_map.
  destruct (nth_error (rows df) k) as [[l r']|]; cbn; [|discriminate].
  intros [= ->]. eauto.
Qed.

Lemma nth_error_index df k l :
  nth_error (index df) k = Some l ->
  exists r, nth_error (rows df) k = Some (l, r) /\ nth_error (values df) k = Some r.
Proof.
  unfold values, index. rewrite !nth_error_map.
  destruct (nth_error (rows df) k) as [[l' r]|]; cbn; [|discriminate].
  intros [= ->]. eauto.
Qed.

(** A row of [df.reindex(labels)] whose label no frame lacks. *)
Lemma reindex_row d labels k l j r :
  existsb (fun l => negb (existsb (Z.eqb l) (index d))) labels = false ->
  NoDup (index d) ->
  nth_error labels k = Some l ->
  nth_error (rows d) j = Some (l, r) ->
  nth_error (values (reindex d labels)) k = Some r.
Proof.
  intros Hlacks Hnd Hk Hj.
  unfold values, reindex; cbn [rows]. rewrite Hlacks.
  rewrite !nth_error_map, Hk. cbn [option_map].
  now rewrite (find_label (rows d) j l r Hnd Hj).
Qed.

(** [pd.concat(axis=1)] of a frame whose labels are [0 .. n-1] in any
    order with one whose labels are [0 .. n-1] in order: the row under
    label [l] of the second goes beside the row under label [l] of the
    first, wherever that row is. *)
Lemma concat_permuted_row A B n :
  index B = RangeIndex 0 n ->
  Permutation (index A) (RangeIndex 0 n) ->
  exists out,
    concat_axis1 A B = Ok out /\
    index out = index A /\
    forall k l ra rb,
      nth_error (rows A) k = Some (l, ra) ->
      nth_error (values B) (Z.to_nat l) = Some rb ->
      nth_error (values out) k = Some (ra ++ rb).
Proof.
  intros HB Hperm.
  assert (HlenA : List.length (rows A) = n).
  { rewrite <- (RangeIndex_length 0 n), <- (Permutation_length Hperm).
    unfold index. now rewrite length_map. }
  assert (HlenB : List.length (rows B) = n).
  { rewrite <- (RangeIndex_length 0 n), <- HB. unfold index. now rewrite length_map. }
  unfold concat_axis1.
  destruct (same_labels (index A) (index B)) eqn:Hsame.
  - apply same_labels_eq in Hsame.
    exists (side_by_side A B). split; [reflexivity|].
    split; [apply side_by_side_index; congruence|].
    intros k l ra rb Hk Hb.
    assert (Hl : nth_error (index A) k = Some l).
    { unfold index. rewrite nth_error_map, Hk. reflexivity. }
    rewrite Hsame, HB in Hl.
    assert (Hkn : (k < n)%nat).
    { rewrite <- HlenA. apply nth_error_Some. congruence. }
    rewrite (RangeIndex_nth 0 n k Hkn) in Hl. injection Hl as <-.
    rewrite ?Z.add_0_l, Nat2Z.id in Hb.
    apply side_by_side_row; [|exact Hb].
    unfold values. rewrite nth_error_map, Hk. reflexivity.
  - assert (HndB : NoDup (index B)).
    { rewrite HB. apply unique_NoDup, unique_RangeIndex. }
    assert (HndA : NoDup (index A)).
    { eapply Permutation_NoDup; [apply Permutation_sym; exact Hperm|].
      rewrite <- HB. exact HndB. }
    rewrite (proj2 (unique_NoDup _) HndA), (proj2 (unique_NoDup _) HndB).
    cbn [andb].
    assert (Hnone : filter (fun l => negb (existsb (Z.eqb l) (index A))) (index B) = []).
    { apply filter_none. intros l Hl. apply negb_false_iff.
      apply existsb_exists. exists l. split; [|apply Z.eqb_refl].
      rewrite HB in Hl. eapply Permutation_in; [apply Permutation_sym; exact Hperm|].
      exact Hl. }
    rewrite Hnone, app_nil_r.
    assert (HlA : existsb (fun l => negb (existsb (Z.eqb l) (index A))) (index A) = false).
    { apply existsb_false. intros l Hl. apply negb_false_iff.
      apply existsb_exists. exists l. split; [exact Hl|apply Z.eqb_refl]. }
    assert (HlB : existsb (fun l => negb (existsb (Z.eqb l) (index B))) (index A) = false).
    { apply existsb_false. intros l Hl. apply negb_false_iff.
      apply existsb_exists. exists l. split; [|apply Z.eqb_refl].
      rewrite HB. eapply Permutation_in; [exact Hperm|exact Hl]. }
    eexists. split; [reflexivity|]. split.
    + rewrite side_by_side_index by now rewrite !reindex_length.
      apply reindex_index.
    + intros k l ra rb Hk Hb.
      assert (Hl : nth_error (index A) k = Some l).
      { unfold index. rewrite nth_error_map, Hk. reflexivity. }
      apply side_by_side_row.
      * apply (reindex_row A (index A) k l k ra HlA HndA Hl Hk).
      * destruct (nth_error_values B _ _ Hb) as [l' [Hrow Hidx]].
        assert (Hin : In l (RangeIndex 0 n)).
        { eapply Permutation_in; [exact Hperm|]. eapply nth_error_In; exact Hl. }
        apply RangeIndex_In in Hin.
        rewrite HB, RangeIndex_nth in Hidx by lia.
        injection Hidx as <-.
        rewrite ?Z.add_0_l, Z2Nat.id in Hrow by lia.
        apply (reindex_row B (index A) k l (Z.to_nat l) rb HlB HndB Hl Hrow).
Qed.

(** When the rows of the dataset are in another order than their labels
    [0 .. n-1], as after a sort, [transform_data] returns the rows in
    their order with their scaled numbers, but the indicator cells beside
    the row under label [l] are those of the row at position [l]: the
    frame of indicators is labelled by position and the join goes by
    label.  No cell is missing and nothing is raised. *)
Theorem transform_data_reordered df :
  scalable df ->
  Permutation (index df) (RangeIndex 0 (List.length (rows df))) ->
  exists out,
    run_frame transform_data df = Ok out /\
    index out = index df /\
    forall k l,
      nth_error (index df) k = Some l ->
      exists numbers,
        nth_error (values (drop (scaled_frame df) (select_dtypes [Object] df))) k
        = Some numbers /\
        nth_error (values out) k
        = Some (numbers ++ indicator_cells df (Z.to_nat l)).
Proof.
  intros Hs Hperm. pose proof Hs as [Hwf _].
  rewrite (run_transform_data df Hs).
  set (A := drop (scaled_frame df) (select_dtypes [Object] df)).
  assert (HA : index A = index df).
  { unfold A. now rewrite drop_index, scaled_frame_index. }
  destruct (concat_permuted_row A (encoded_frame df) (List.length (rows df)))
    as [out [Hout [Hidx Hrows]]].
  - apply encoded_frame_index.
  - now rewrite HA.
  - exists out. split; [exact Hout|]. split; [congruence|].
    intros k l Hk. rewrite <- HA in Hk.
    destruct (nth_error_index A k l Hk) as [ra [Hrow Hval]].
    exists ra. split; [exact Hval|].
    apply (Hrows k l ra _ Hrow).
    apply encoded_frame_row; [exact Hwf|].
    assert (Hin : In l (RangeIndex 0 (List.length (rows df)))).
    { eapply Permutation_in; [exact Hperm|]. rewrite <- HA.
      eapply nth_error_In; exact Hk. }
    apply RangeIndex_In in Hin. lia.
Qed.

Lemma sorted_people_scalable : scalable sorted_people_frame.
Proof.
  split; [split|split; [discriminate|split; [discriminate|]]].
  - cbn. repeat constructor; intros H; cbn in H;
      repeat (destruct H as [H|H]; [discriminate H|]); contradiction.
  - unfold well_typed; cbn; repeat constructor.
  - unfold finite; cbn; repeat constructor.
Qed.

Lemma transform_data_reordered_witness :
  exists out,
    run_frame transform_data sorted_people_frame = Ok out /\
    index out = index sorted_people_frame /\
    forall k l,
      nth_error (index sorted_people_frame) k = Some l ->
      exists numbers,
        nth_error (values (drop (scaled_frame sorted_people_frame)
                                (select_dtypes [Object] sorted_people_frame))) k
        = Some numbers /\
        nth_error (values out) k
        = Some (numbers ++ indicator_cells sorted_people_frame (Z.to_nat l)).
Proof.
  apply (transform_data_reordered sorted_people_frame sorted_people_scalable).
  cbn. apply perm_swap.
Defined.

(** ** The sort by name before the Transformer *)

Lemma clean_frame_keeps_all correction df :
  no_duplicates df -> no_missing df ->
  index (clean_frame correction df) = index df.
Proof.
  intros Hd Hm.
  assert (E1 : drop_duplicates df = df).
  { destruct df as [cols rs]; unfold drop_duplicates; cbn in *. f_equal.
    apply dedup_fixed; [exact Hd|]. intros s x []. }
  assert (E2 : dropna df = df).
  { destruct df as [cols rs]; unfold dropna; cbn in *. f_equal.
    apply filter_all. unfold no_missing, values in Hm; cbn in Hm.
    rewrite Forall_forall in *. intros x Hx. apply Hm. now apply in_map. }
  unfold clean_frame. rewrite E1, E2.
  unfold index, map_rows; cbn [rows]. rewrite map_map. reflexivity.
Qed.

Lemma sort_rows_Permutation argsort p asc rs :
  Permutation (argsort (map (cell p) (present_rows p asc rs)))
              (seq 0 (List.length (present_rows p asc rs))) ->
  Permutation (sort_rows argsort p asc rs) rs.
Proof.
  intros Hperm. unfold sort_rows.
  set (pres := present_rows p asc rs) in *.
  set (sorted := select pres (argsort (map (cell p) pres))).
  assert (Hsel : Permutation sorted pres) by now apply select_Permutation.
  assert (Hpres : Permutation pres (filter (fun ir => notnull (cell p ir)) rs)).
  { unfold pres, present_rows. destruct asc; [reflexivity|].
    symmetry. apply Permutation_rev. }
  rewrite <- (filter_partition (fun ir => notnull (cell p ir)) rs) at 2.
  apply Permutation_app.
  - rewrite <- Hpres, <- Hsel. destruct asc; [reflexivity|].
    symmetry. apply Permutation_rev.
  - erewrite filter_ext; [reflexivity|].
    intros ir. unfold notnull. now rewrite negb_involutive.
Qed.

Lemma default_labels_position df l r :
  default_labels df -> In (l, r) (rows df) ->
  nth_error (rows df) (Z.to_nat l) = Some (l, r).
Proof.
  intros Hlab Hin. destruct (In_nth_error _ _ Hin) as [j Hj].
  assert (Hl : nth_error (index df) j = Some l).
  { unfold index. rewrite nth_error_map, Hj. reflexivity. }
  unfold default_labels in Hlab. rewrite Hlab in Hl.
  assert (Hjn : (j < List.length (rows df))%nat)
    by (apply nth_error_Some; congruence).
  rewrite (RangeIndex_nth 0 _ j Hjn) in Hl. injection Hl as <-.
  now rewrite ?Z.add_0_l, Nat2Z.id.
Qed.

Lemma clean_frame_row correction df l r :
  In (l, r) (rows (clean_frame correction df)) ->
  exists r0, In (l, r0) (rows df) /\ r = normalise_row correction (columns df) r0.
Proof.
  intros H.
  unfold clean_frame, map_rows, dropna, drop_duplicates in H; cbn [rows columns] in H.
  apply in_map_iff in H. destruct H as [[i r0] [E H]].
  cbn [fst snd] in E. injection E as <- <-.
  apply filter_In in H. destruct H as [H _]. apply dedup_In in H.
  exists r0. auto.
Qed.

(** The sort by name and the Transformer together: for a dataset with a
    column [name] from which the Cleaner drops no row, the transformed
    dataset that [perform_analysis] returns has the rows in the order of
    the names.  The row that was loaded under label [l] stands, cleaned, at
    some position [k] of the sorted frame; the transformed row at [k] has
    the scaled numbers of that row, and beside them the indicators of the
    row that stands at position [l] of the sorted frame.  Unless the rows
    were loaded in the order of their names, the numbers of one row are
    paired with the categories of another. *)
Theorem perform_analysis_sorted_rows correction argsort df p :
  well_formed df ->
  default_labels df -> no_duplicates df -> no_missing df ->
  column_pos "name" (columns df) = Some p ->
  sorts argsort (sort_keys (clean_frame correction df) "name" true) ->
  scalable (staged argsort (clean_frame correction df)) ->
  exists c t,
    run_analysis correction argsort df = Ok (c, t) /\
    index t = index (staged argsort (clean_frame correction df)) /\
    Permutation (index t) (index df) /\
    forall k l,
      nth_error (index t) k = Some l ->
      exists r0 numbers,
        nth_error (rows df) (Z.to_nat l) = Some (l, r0) /\
        nth_error (rows (staged argsort (clean_frame correction df))) k
        = Some (l, normalise_row correction (columns df) r0) /\
        nth_error (values (drop (scaled_frame (staged argsort (clean_frame correction df)))
                                (select_dtypes [Object]
                                   (staged argsort (clean_frame correction df))))) k
        = Some numbers /\
        nth_error (values t) k
        = Some (numbers
                ++ indicator_cells (staged argsort (clean_frame correction df))
                                   (Z.to_nat l)).
Proof.
  intros Hwf Hlab Hd Hm Hp [Hsorts _] Hs.
  set (c := clean_frame correction df) in *.
  assert (Hidx : index c = index df) by now apply clean_frame_keeps_all.
  assert (Hcols : columns c = columns df) by reflexivity.
  assert (Hstaged : staged argsort c
                    = mkDataFrame (columns c) (sort_rows argsort p true (rows c))).
  { assert (E : has_column c "name" = true).
    { unfold has_column. apply existsb_exists. exists "name". split; [|reflexivity].
      destruct (column_pos_nth _ _ _ Hp) as [dt Hdt]. apply nth_error_In in Hdt.
      change (column_names c) with (column_names df).
      unfold column_names. apply in_map_iff. now exists ("name", dt). }
    unfold staged. rewrite E. unfold sort_values. now rewrite Hcols, Hp. }
  assert (Hperm : Permutation (rows (staged argsort c)) (rows c)).
  { rewrite Hstaged. cbn [rows]. apply sort_rows_Permutation.
    unfold sort_keys in Hsorts. rewrite Hcols, Hp in Hsorts.
    now rewrite length_map in Hsorts. }
  assert (Hlen : List.length (rows (staged argsort c)) = List.length (rows df)).
  { rewrite (Permutation_length Hperm).
    transitivity (List.length (index c)); [unfold index; now rewrite length_map|].
    rewrite Hidx. unfold index. now rewrite length_map. }
  assert (Hpi : Permutation (index (staged argsort c)) (index df)).
  { rewrite <- Hidx. unfold index. now apply Permutation_map. }
  set (s := staged argsort c) in *.
  set (A := drop (scaled_frame s) (select_dtypes [Object] s)).
  assert (HA : index A = index s).
  { unfold A. now rewrite drop_index, scaled_frame_index. }
  destruct (concat_permuted_row A (encoded_frame s) (List.length (rows s)))
    as [out [Hout [Hio Hrows]]].
  { apply encoded_frame_index. }
  { rewrite HA, Hlen. unfold default_labels in Hlab. now rewrite <- Hlab. }
  destruct (perform_analysis_outcome correction argsort df Hwf Hs)
    as [w' [_ [_ H]]].
  fold c in H. fold s in H.
  rewrite (run_transform_data s Hs) in H. fold A in H. rewrite Hout in H.
  destruct H as [cl [tr [Hrun [Hc Ht]]]].
  exists (scaled_frame s), out.
  split; [unfold run_analysis; now rewrite Hrun, Hc, Ht|].
  split; [congruence|]. split; [now rewrite Hio, HA|].
  intros k l Hk. rewrite Hio in Hk.
  destruct (nth_error_index A k l Hk) as [ra [Hrow Hval]].
  assert (Hks : nth_error (index s) k = Some l) by now rewrite <- HA.
  destruct (nth_error_index s k l Hks) as [r [Hsrow _]].
  assert (Hinc : In (l, r) (rows c)).
  { eapply Permutation_in; [exact Hperm|]. eapply nth_error_In; exact Hsrow. }
  destruct (clean_frame_row correction df l r Hinc) as [r0 [Hin0 ->]].
  exists r0, ra.
  split; [now apply default_labels_position|].
  split; [exact Hsrow|]. split; [exact Hval|].
  apply (Hrows k l ra _ Hrow).
  apply encoded_frame_row; [exact (proj1 Hs)|].
  assert (Hin : In l (index df)).
  { eapply Permutation_in; [exact Hpi|]. eapply nth_error_In; exact Hks. }
  unfold default_labels in Hlab. rewrite Hlab in Hin.
  apply RangeIndex_In in Hin. lia.
Qed.

Lemma people_frame_well_formed : well_formed people_frame.
Proof.
  split.
  - cbn. repeat constructor; intros H; cbn in H;
      repeat (destruct H as [H|H]; [discriminate H|]); contradiction.
  - unfold well_typed; cbn; repeat constructor.
Qed.

Lemma people_staged :
  staged numpy_argsort (clean_frame all_known people_frame) = sorted_people_frame.
Proof. vm_compute. reflexivity. Qed.

Lemma perform_analysis_sorted_rows_witness :
  exists c t,
    run_analysis all_known numpy_argsort people_frame = Ok (c, t) /\
    index t = index (staged numpy_argsort (clean_frame all_known people_frame)) /\
    Permutation (index t) (index people_frame) /\
    forall k l,
      nth_error (index t) k = Some l ->
      exists r0 numbers,
        nth_error (rows people_frame) (Z.to_nat l) = Some (l, r0) /\
        nth_error (rows (staged numpy_argsort (clean_frame all_known people_frame))) k
        = Some (l, normalise_row all_known (columns people_frame) r0) /\
        nth_error
          (values (drop (scaled_frame
                           (staged numpy_argsort (clean_frame all_known people_frame)))
                        (select_dtypes [Object]
                           (staged numpy_argsort
                              (clean_frame all_known people_frame))))) k
        = Some numbers /\
        nth_error (values t) k
        = Some (numbers
                ++ indicator_cells
                     (staged numpy_argsort (clean_frame all_known people_frame))
                     (Z.to_nat l)).
Proof.
  apply (perform_analysis_sorted_rows all_known numpy_argsort people_frame 1%nat
           people_frame_well_formed).
  - reflexivity.
  - unfold no_duplicates. cbn. repeat constructor.
  - unfold no_missing. cbn. repeat constructor.
  - reflexivity.
  - split.
    + vm_compute. apply perm_swap.
    + vm_compute. repeat constructor.
  - rewrite people_staged. exact sorted_people_scalable.
Defined.

(** ** The Sorter with numpy's argsort *)

(** ** The order of keys *)

Lemma SFltb_irrefl a : SFltb a a = false.
Proof.
  unfold SFltb. destruct a as [s|s| |s m e]; cbn; auto.
  - now destruct s.
  - destruct s; rewrite Z.compare_refl;
      change (Pos.compare_cont Eq m m) with (Pos.compare m m);
      now rewrite Pos.compare_refl.
Qed.

Lemma SFltb_trans a b c :
  SFltb a b = true -> SFltb b c = true -> SFltb a c = true.
Proof.
  unfold SFltb.
  destruct a as [sa|sa| |sa ma ea], b as [sb|sb| |sb mb eb], c as [sc|sc| |sc mc ec];
    cbn; try discriminate; auto;
    try (destruct sa); try (destruct sb); try (destruct sc); cbn;
    try discriminate; auto; intros H1 H2; order_cases.
Qed.

Lemma SFltb_cotrans a b c :
  SFcompare b b = Some Eq ->
  SFltb a c = true -> SFltb a b = true \/ SFltb b c = true.
Proof.
  unfold SFltb.
  destruct a as [sa|sa| |sa ma ea], b as [sb|sb| |sb mb eb], c as [sc|sc| |sc mc ec];
    cbn; try discriminate; auto;
    try (destruct sa); try (destruct sb); try (destruct sc); cbn;
    try discriminate; auto; intros _ H1; order_cases.
Qed.

Lemma not_nan_compare x :
  PrimFloat.is_nan x = false -> SFcompare (Prim2SF x) (Prim2SF x) = Some Eq.
Proof.
  unfold PrimFloat.is_nan. rewrite FloatAxioms.eqb_spec. unfold SFeqb.
  destruct (SFcompare (Prim2SF x) (Prim2SF x)) as [[| |]|]; cbn; congruence.
Qed.

Lemma value_ltb_irrefl a : value_ltb a a = false.
Proof.
  destruct a as [x|x|s|]; cbn; auto.
  - apply Z.ltb_irrefl.
  - rewrite FloatAxioms.ltb_spec. apply SFltb_irrefl.
  - apply ltb_irrefl.
Qed.

Lemma value_ltb_trans a b c :
  value_ltb a b = true -> value_ltb b c = true -> value_ltb a c = true.
Proof.
  destruct a as [x|x|s|], b as [y|y|t|], c as [z|z|u|]; cbn; try discriminate.
  - rewrite !Z.ltb_lt. lia.
  - rewrite !FloatAxioms.ltb_spec. apply SFltb_trans.
  - apply ltb_trans.
Qed.

Lemma value_ltb_asym a b : value_ltb a b = true -> value_ltb b a = false.
Proof.
  intros H. destruct (value_ltb b a) eqn:E; [|reflexivity].
  rewrite <- (value_ltb_irrefl a). symmetry. eapply value_ltb_trans; eauto.
Qed.

Lemma value_ltb_cotrans a b c :
  same_kind a b -> notnull b = true ->
  value_ltb a c = true -> value_ltb a b = true \/ value_ltb b c = true.
Proof.
  destruct a as [x|x|s|], b as [y|y|t|], c as [z|z|u|]; cbn;
    try discriminate; try contradiction; intros _ Hb.
  - rewrite !Z.ltb_lt. lia.
  - rewrite !FloatAxioms.ltb_spec. apply SFltb_cotrans. apply not_nan_compare.
    unfold notnull in Hb. cbn in Hb. now destruct (PrimFloat.is_nan y).
  - intros H. destruct (String.ltb s t) eqn:E; [now left|right].
    destruct (String.eqb s t) eqn:E'.
    + apply String.eqb_eq in E'. now subst.
    + eapply ltb_trans; [|exact H]. now apply ltb_total.
Qed.

(** ** Sorting by insertion *)

Lemma insert_index_Permutation ks j l :
  Permutation (insert_index ks j l) (j :: l).
Proof.
  induction l as [|i l IH]; cbn; [reflexivity|].
  destruct (value_ltb (nth j ks VNone) (nth i ks VNone)); [reflexivity|].
  rewrite IH. apply perm_swap.
Qed.

Lemma insert_all_Permutation ks js acc :
  Permutation (fold_left (fun sorted j => insert_index ks j sorted) js acc)
              (js ++ acc).
Proof.
  revert acc; induction js as [|j js IH]; intros acc; cbn; [reflexivity|].
  rewrite IH, insert_index_Permutation. symmetry. apply Permutation_middle.
Qed.

Lemma insertion_argsort_Permutation ks :
  Permutation (insertion_argsort ks) (seq 0 (List.length ks)).
Proof.
  unfold insertion_argsort. rewrite insert_all_Permutation.
  now rewrite app_nil_r.
Qed.

Lemma insert_index_sorted ks j l :
  ForallOrdPairs (fun a b => value_ltb (nth b ks VNone) (nth a ks VNone) = false) l ->
  ForallOrdPairs (fun a b => value_ltb (nth b ks VNone) (nth a ks VNone) = false)
                 (insert_index ks j l).
Proof.
  induction l as [|i l IH]; intros H; cbn.
  - repeat constructor.
  - inversion H as [|? ? Hi Hl]; subst.
    destruct (value_ltb (nth j ks VNone) (nth i ks VNone)) eqn:E.
    + constructor; [|exact H]. constructor.
      * now apply value_ltb_asym.
      * rewrite Forall_forall in *. intros x Hx. specialize (Hi x Hx).
        destruct (value_ltb (nth x ks VNone) (nth j ks VNone)) eqn:E'; [|reflexivity].
        rewrite <- Hi. symmetry. eapply value_ltb_trans; eauto.
    + constructor; [|now apply IH].
      rewrite Forall_forall in *. intros x Hx.
      apply (Permutation_in x (insert_index_Permutation ks j l)) in Hx.
      destruct Hx as [<-|Hx]; auto.
Qed.

Lemma insert_all_sorted ks js acc :
  ForallOrdPairs (fun a b => value_ltb (nth b ks VNone) (nth a ks VNone) = false) acc ->
  ForallOrdPairs (fun a b => value_ltb (nth b ks VNone) (nth a ks VNone) = false)
                 (fold_left (fun sorted j => insert_index ks j sorted) js acc).
Proof.
  revert acc; induction js as [|j js IH]; intros acc H; cbn; [exact H|].
  apply IH. now apply insert_index_sorted.
Qed.

Lemma select_nth {A : Type} (d : A) (l : list A) (js : list nat) :
  Forall (fun j => (j < List.length l)%nat) js ->
  select l js = map (fun j => nth j l d) js.
Proof.
  unfold select. induction js as [|j js IH]; intros H; cbn; [reflexivity|].
  inversion H as [|? ? Hj Hjs]; subst. rewrite (IH Hjs).
  destruct (nth_error l j) eqn:E.
  - cbn. f_equal. symmetry. now apply nth_error_nth.
  - apply nth_error_None in E. lia.
Qed.

Lemma ForallOrdPairs_map {A B : Type} (R : B -> B -> Prop) (g : A -> B) (l : list A) :
  ForallOrdPairs (fun a b => R (g a) (g b)) l -> ForallOrdPairs R (map g l).
Proof.
  induction 1 as [|a l Ha Hl IH]; cbn; constructor; auto.
  rewrite Forall_forall in *. intros x Hx. apply in_map_iff in Hx.
  destruct Hx as [y [<- Hy]]. auto.
Qed.

Lemma indices_in_range (js : list nat) n :
  Permutation js (seq 0 n) -> Forall (fun j => (j < n)%nat) js.
Proof.
  intros H. apply Forall_forall. intros j Hj.
  apply (Permutation_in j H) in Hj. apply in_seq in Hj. lia.
Qed.

Lemma sorts_by_index argsort ks :
  Permutation (argsort ks) (seq 0 (List.length ks)) ->
  ForallOrdPairs (fun a b => value_ltb (nth b ks VNone) (nth a ks VNone) = false)
                 (argsort ks) ->
  sorts argsort ks.
Proof.
  intros Hp Hs. split; [exact Hp|].
  rewrite (select_nth VNone) by now apply indices_in_range.
  now apply (ForallOrdPairs_map (fun a b => value_ltb b a = false)).
Qed.

Lemma insertion_argsort_sorts ks : sorts insertion_argsort ks.
Proof.
  apply sorts_by_index.
  - apply insertion_argsort_Permutation.
  - apply insert_all_sorted. constructor.
Qed.

(** ** Sorting by the network *)

Lemma network_argsort_sorts ks :
  (List.length ks <= 4)%nat ->
  (forall a b c, In a ks -> In b ks -> In c ks ->
                 value_ltb b a = false -> value_ltb c b = false ->
                 value_ltb c a = false) ->
  sorts network_argsort ks.
Proof.
  intros Hlen Htr. apply sorts_by_index.
  - destruct ks as [|k0 [|k1 [|k2 [|k3 [|k4 ks]]]]]; cbn in Hlen; try lia;
      network_cases.
    all: same_elements.
  - destruct ks as [|k0 [|k1 [|k2 [|k3 [|k4 ks]]]]]; cbn in Hlen; try lia;
      network_cases;
      repeat (apply FOP_cons || apply FOP_nil || apply Forall_cons || apply Forall_nil).
    all: in_order value_ltb_asym Htr.
Qed.

Lemma numbers_in_order ks a b c :
  (int64_keys ks || float64_keys ks) = true ->
  Forall (fun v => notnull v = true) ks ->
  In a ks -> In b ks -> In c ks ->
  value_ltb b a = false -> value_ltb c b = false -> value_ltb c a = false.
Proof.
  intros Hk Hn Ha Hb Hc Hba Hcb. apply not_true_is_false. intros Hca.
  rewrite Forall_forall in Hn.
  destruct (value_ltb_cotrans c b a) as [H|H]; try congruence; auto.
  unfold int64_keys, float64_keys in Hk. apply orb_true_iff in Hk.
  destruct Hk as [Hk|Hk]; rewrite forallb_forall in Hk;
    pose proof (Hk _ Hb) as Hb'; pose proof (Hk _ Hc) as Hc';
    now destruct b, c.
Qed.

Lemma numpy_argsort_sorts ks :
  Forall (fun v => notnull v = true) ks -> sorts numpy_argsort ks.
Proof.
  intros Hn.
  destruct ((List.length ks <=? 4)%nat && (int64_keys ks || float64_keys ks)) eqn:E.
  - assert (Heq : numpy_argsort ks = network_argsort ks)
      by (unfold numpy_argsort; now rewrite E).
    unfold sorts. rewrite Heq. apply andb_true_iff in E. destruct E as [Hl Hk].
    apply network_argsort_sorts.
    + now apply Nat.leb_le.
    + intros a b c. now apply numbers_in_order.
  - assert (Heq : numpy_argsort ks = insertion_argsort ks)
      by (unfold numpy_argsort; now rewrite E).
    unfold sorts. rewrite Heq. apply insertion_argsort_sorts.
Qed.

Lemma sort_keys_present df col asc :
  Forall (fun v => notnull v = true) (sort_keys df col asc).
Proof.
  unfold sort_keys. destruct (column_pos col (columns df)) as [p|]; [|constructor].
  apply Forall_forall. intros v Hv. apply in_map_iff in Hv.
  destruct Hv as [ir [<- Hir]]. unfold present_rows in Hir.
  assert (H : In ir (filter (fun ir => notnull (cell p ir)) (rows df))).
  { destruct asc; [exact Hir|]. now apply in_rev. }
  apply filter_In in H. tauto.
Qed.

(** C4, as stated, fails.  The code asks for no stable kind, and for the
    ages 1, 1, 0, 0 numpy's default sort returns the rows labelled 3, 2, 1,
    0: the two rows of each age have changed places. *)
Lemma sort_data_ties_not_kept :
  well_formed ages_frame /\
  exists out,
    run_frame (fun r => sort_data numpy_argsort r "age" true) ages_frame = Ok out /\
    index out = [3; 2; 1; 0] /\
    ~ ties_kept 0 (rows ages_frame) (rows out).
Proof.
  split.
  - split.
    + repeat constructor; cbn; intuition discriminate.
    + repeat constructor.
  - eexists. split; [vm_compute; reflexivity|]. split; [reflexivity|].
    intros H. specialize (H (VInt 1)). vm_compute in H. discriminate.
Qed.

(** ** Equal texts keep their order *)

Lemma text_key_nth ks i :
  forallb text_key ks = true -> (i < List.length ks)%nat ->
  exists s, nth i ks VNone = VStr s.
Proof.
  intros Hk Hi. rewrite forallb_forall in Hk.
  specialize (Hk (nth i ks VNone) (nth_In ks VNone Hi)).
  destruct (nth i ks VNone); try discriminate. eauto.
Qed.

Lemma insert_index_stable ks j l :
  forallb text_key ks = true ->
  (j < List.length ks)%nat ->
  Forall (fun i => (i < j)%nat) l ->
  ForallOrdPairs (stable_order ks) l ->
  ForallOrdPairs (stable_order ks) (insert_index ks j l).
Proof.
  intros Hk Hj. induction l as [|i l IH]; intros Hlt H; cbn.
  - repeat constructor.
  - inversion H as [|? ? Hi Hl]; subst.
    inversion Hlt as [|? ? Hij Hlt']; subst.
    destruct (value_ltb (nth j ks VNone) (nth i ks VNone)) eqn:E.
    + constructor; [|exact H].
      assert (Hall : forall x, In x (i :: l) ->
                value_ltb (nth j ks VNone) (nth x ks VNone) = true).
      { intros x [<-|Hx]; [exact E|].
        rewrite Forall_forall in Hi, Hlt'.
        destruct (Hi x Hx) as [Hxi _]. pose proof (Hlt' x Hx) as Hxj.
        destruct (text_key_nth ks j Hk Hj) as [sj Ej].
        destruct (text_key_nth ks x Hk ltac:(lia)) as [sx Ex].
        destruct (value_ltb_cotrans (nth j ks VNone) (nth x ks VNone)
                                    (nth i ks VNone)) as [H1|H1]; auto.
        - now rewrite Ej, Ex.
        - now rewrite Ex.
        - congruence. }
      apply Forall_forall. intros x Hx. specialize (Hall x Hx). split.
      * now apply value_ltb_asym.
      * congruence.
    + constructor; [|now apply IH].
      rewrite Forall_forall in *. intros x Hx.
      apply (Permutation_in x (insert_index_Permutation ks j l)) in Hx.
      destruct Hx as [<-|Hx]; auto. split; auto.
Qed.

Lemma insert_all_stable ks len : forall s acc,
  forallb text_key ks = true ->
  (s + len <= List.length ks)%nat ->
  Forall (fun i => (i < s)%nat) acc ->
  ForallOrdPairs (stable_order ks) acc ->
  ForallOrdPairs (stable_order ks)
    (fold_left (fun sorted j => insert_index ks j sorted) (seq s len) acc).
Proof.
  induction len as [|len IH]; intros s acc Hk Hlen Hlt H; cbn; [exact H|].
  apply IH; auto; try lia.
  - apply Forall_forall. intros x Hx.
    apply (Permutation_in x (insert_index_Permutation ks s acc)) in Hx.
    rewrite Forall_forall in Hlt. destruct Hx as [<-|Hx]; [lia|].
    specialize (Hlt x Hx). lia.
  - apply insert_index_stable; auto. lia.
Qed.

Lemma insertion_argsort_stable ks :
  forallb text_key ks = true ->
  ForallOrdPairs (stable_order ks) (insertion_argsort ks).
Proof.
  intros Hk. unfold insertion_argsort. apply insert_all_stable; auto;
    constructor.
Qed.

Lemma Permutation_of_filter {A : Type} (f : A -> bool) (l l' : list A) :
  Permutation l l' -> Permutation (filter f l) (filter f l').
Proof.
  induction 1 as [|x l l' H IH|x y l|l l' l'' H1 IH1 H2 IH2]; cbn.
  - constructor.
  - destruct (f x); auto.
  - destruct (f x), (f y); auto. apply perm_swap.
  - now transitivity (filter f l').
Qed.

Lemma increasing_unique (l1 : list nat) : forall l2,
  ForallOrdPairs lt l1 -> ForallOrdPairs lt l2 -> Permutation l1 l2 -> l1 = l2.
Proof.
  induction l1 as [|a l1 IH]; intros l2 H1 H2 Hp.
  - apply Permutation_nil in Hp. now subst.
  - destruct l2 as [|b l2]; [symmetry in Hp; now apply Permutation_nil in Hp|].
    inversion H1 as [|? ? Ha H1']; subst. inversion H2 as [|? ? Hb H2']; subst.
    rewrite Forall_forall in Ha, Hb.
    assert (a = b) as <-.
    { assert (Hin1 : In a (b :: l2)) by (apply (Permutation_in a Hp); now left).
      assert (Hin2 : In b (a :: l1))
        by (apply (Permutation_in b (Permutation_sym Hp)); now left).
      destruct Hin1 as [->|Hin1]; [reflexivity|].
      destruct Hin2 as [->|Hin2]; [reflexivity|].
      specialize (Ha b Hin2). specialize (Hb a Hin1). lia. }
    f_equal. apply IH; auto. now apply Permutation_cons_inv in Hp.
Qed.

Lemma seq_increasing len : forall s, ForallOrdPairs lt (seq s len).
Proof.
  induction len as [|len IH]; intros s; cbn; constructor; auto.
  apply Forall_forall. intros x Hx. apply in_seq in Hx. lia.
Qed.

Lemma ForallOrdPairs_impl_in {A : Type} (R S : A -> A -> Prop) (l : list A) :
  (forall a b, In a l -> In b l -> R a b -> S a b) ->
  ForallOrdPairs R l -> ForallOrdPairs S l.
Proof.
  intros H. induction 1 as [|a l Ha Hl IH]; constructor.
  - rewrite Forall_forall in *. intros x Hx. apply H; cbn; auto.
  - apply IH. intros x y Hx Hy. apply H; cbn; auto.
Qed.

Lemma equal_texts_not_less s t k :
  value_eqb (VStr s) k = true -> value_eqb (VStr t) k = true ->
  value_ltb (VStr s) (VStr t) = false.
Proof.
  destruct k as [z|z|u|]; cbn; try discriminate.
  rewrite !String.eqb_eq. intros -> ->. apply ltb_irrefl.
Qed.

Lemma insertion_argsort_ties ks k :
  forallb text_key ks = true ->
  filter (fun i => value_eqb (nth i ks VNone) k) (insertion_argsort ks)
  = filter (fun i => value_eqb (nth i ks VNone) k) (seq 0 (List.length ks)).
Proof.
  intros Hk. apply increasing_unique.
  - apply (ForallOrdPairs_impl_in (stable_order ks)).
    + intros a b Ha Hb [_ H]. apply filter_In in Ha, Hb.
      destruct Ha as [Ha Hak], Hb as [Hb Hbk]. apply H.
      apply (Permutation_in _ (insertion_argsort_Permutation ks)) in Ha, Hb.
      apply in_seq in Ha, Hb.
      destruct (text_key_nth ks a Hk ltac:(lia)) as [sa Ea].
      destruct (text_key_nth ks b Hk ltac:(lia)) as [sb Eb].
      rewrite Ea, Eb in *. now apply (equal_texts_not_less _ _ k).
    + apply ForallOrdPairs_filter. now apply insertion_argsort_stable.
  - apply ForallOrdPairs_filter. apply seq_increasing.
  - apply Permutation_of_filter. apply insertion_argsort_Permutation.
Qed.

Lemma numpy_argsort_text ks :
  forallb text_key ks = true -> numpy_argsort ks = insertion_argsort ks.
Proof.
  intros Hk. unfold numpy_argsort. destruct ks as [|v ks]; [reflexivity|].
  destruct v; try discriminate. cbn [int64_keys float64_keys forallb].
  cbn [orb andb]. now rewrite andb_false_r.
Qed.

Lemma rows_by_position (rs : list (Z * row)) :
  map (fun i => nth i rs (0, [])) (seq 0 (List.length rs)) = rs.
Proof.
  rewrite <- (select_nth (0, []) rs).
  - exact (select_seq [] rs).
  - apply Forall_forall. intros j Hj. apply in_seq in Hj. exact (proj2 Hj).
Qed.

Lemma key_by_position p (rs : list (Z * row)) i :
  nth i (map (cell p) rs) VNone = cell p (nth i rs (0, [])).
Proof.
  rewrite <- (map_nth (cell p)). f_equal. unfold cell. cbn. now destruct p.
Qed.

(** The rows of equal text keep their order through the insertion sort. *)
Lemma insertion_rows_ties p k (rs : list (Z * row)) :
  forallb text_key (map (cell p) rs) = true ->
  filter (fun ir => value_eqb (cell p ir) k)
         (select rs (insertion_argsort (map (cell p) rs)))
  = filter (fun ir => value_eqb (cell p ir) k) rs.
Proof.
  intros Hk.
  rewrite (select_nth (0, []) rs).
  2:{ apply indices_in_range. rewrite <- (length_map (cell p)).
      apply insertion_argsort_Permutation. }
  transitivity (filter (fun ir => value_eqb (cell p ir) k)
                       (map (fun i => nth i rs (0, [])) (seq 0 (List.length rs))));
    [|now rewrite rows_by_position].
  rewrite !filter_map_swap. f_equal.
  rewrite (filter_ext _ (fun i => value_eqb (nth i (map (cell p) rs) VNone) k))
    by (intros i; now rewrite key_by_position).
  rewrite (filter_ext (fun i => value_eqb (cell p (nth i rs (0, []))) k)
                      (fun i => value_eqb (nth i (map (cell p) rs) VNone) k))
    by (intros i; now rewrite key_by_position).
  rewrite insertion_argsort_ties by exact Hk. now rewrite length_map.
Qed.

Lemma filter_within {A : Type} (g f : A -> bool) (l : list A) :
  (forall x, In x l -> g x = true -> f x = true) ->
  filter g (filter f l) = filter g l.
Proof.
  induction l as [|x l IH]; intros H; cbn; [reflexivity|].
  destruct (f x) eqn:Ef; cbn.
  - rewrite IH by (intros y Hy; apply H; now right). reflexivity.
  - destruct (g x) eqn:Eg.
    + rewrite (H x (or_introl eq_refl) Eg) in Ef. discriminate.
    + apply IH. intros y Hy; apply H; now right.
Qed.

Lemma filter_without {A : Type} (g f : A -> bool) (l : list A) :
  (forall x, In x l -> g x = true -> f x = false) ->
  filter g (filter f l) = [].
Proof.
  induction l as [|x l IH]; intros H; cbn; [reflexivity|].
  destruct (f x) eqn:Ef; cbn.
  - destruct (g x) eqn:Eg.
    + rewrite (H x (or_introl eq_refl) Eg) in Ef. discriminate.
    + apply IH. intros y Hy; apply H; now right.
  - apply IH. intros y Hy; apply H; now right.
Qed.

Lemma text_cell_isna a k :
  cell_ok Object a = true -> value_eqb a k = true -> isna a = isna k.
Proof. destruct a, k; cbn; try discriminate; auto. Qed.

(** In a column of texts of which some may be missing, the rows of equal
    text, and the rows with no text, keep their order through
    [sort_values] when [argsort] is the insertion sort. *)
Lemma sort_rows_ties p asc (rs : list (Z * row)) :
  Forall (fun ir => cell_ok Object (cell p ir) = true) rs ->
  ties_kept p rs (sort_rows insertion_argsort p asc rs).
Proof.
  intros Hty k. rewrite Forall_forall in Hty.
  set (g := fun ir : Z * row => value_eqb (cell p ir) k).
  assert (Hkeys : forall l, (forall x, In x l -> In x (filter (fun ir => notnull (cell p ir)) rs)) ->
                            forallb text_key (map (cell p) l) = true).
  { intros l Hl. apply forallb_forall. intros v Hv. apply in_map_iff in Hv.
    destruct Hv as [ir [<- Hir]]. apply Hl in Hir. apply filter_In in Hir.
    destruct Hir as [Hin Hnn]. specialize (Hty ir Hin).
    unfold notnull in Hnn. now destruct (cell p ir). }
  assert (Hpres : filter g (match asc with
                            | true => select (present_rows p asc rs)
                                        (insertion_argsort (map (cell p) (present_rows p asc rs)))
                            | false => rev (select (present_rows p asc rs)
                                        (insertion_argsort (map (cell p) (present_rows p asc rs))))
                            end)
                  = filter g (filter (fun ir => notnull (cell p ir)) rs)).
  { unfold present_rows. destruct asc.
    - apply insertion_rows_ties. apply Hkeys. auto.
    - rewrite filter_rev. unfold g. rewrite insertion_rows_ties.
      + now rewrite filter_rev, rev_involutive.
      + apply Hkeys. intros x Hx. now apply in_rev. }
  unfold sort_rows. rewrite filter_app.
  replace (if asc
           then select (present_rows p asc rs)
                  (insertion_argsort (map (cell p) (present_rows p asc rs)))
           else rev (select (present_rows p asc rs)
                  (insertion_argsort (map (cell p) (present_rows p asc rs)))))
    with (match asc with
          | true => select (present_rows p asc rs)
                      (insertion_argsort (map (cell p) (present_rows p asc rs)))
          | false => rev (select (present_rows p asc rs)
                      (insertion_argsort (map (cell p) (present_rows p asc rs))))
          end) by reflexivity.
  fold g. rewrite Hpres.
  destruct (isna k) eqn:Ek.
  - rewrite (filter_without g).
    + cbn. apply filter_within. intros x Hx Hg.
      now rewrite (text_cell_isna _ k (Hty x Hx) Hg).
    + intros x Hx Hg. unfold notnull.
      now rewrite (text_cell_isna _ k (Hty x Hx) Hg), Ek.
  - rewrite (filter_without g (fun ir => isna (cell p ir))), app_nil_r.
    + apply filter_within. intros x Hx Hg. unfold notnull.
      now rewrite (text_cell_isna _ k (Hty x Hx) Hg), Ek.
    + intros x Hx Hg.
      now rewrite (text_cell_isna _ k (Hty x Hx) Hg).
Qed.

Lemma sort_rows_text p asc (rs : list (Z * row)) :
  Forall (fun ir => cell_ok Object (cell p ir) = true) rs ->
  sort_rows numpy_argsort p asc rs = sort_rows insertion_argsort p asc rs.
Proof.
  intros Hty. unfold sort_rows. rewrite numpy_argsort_text; [reflexivity|].
  apply forallb_forall. intros v Hv. apply in_map_iff in Hv.
  destruct Hv as [ir [<- Hir]].
  assert (H : In ir (filter (fun ir => notnull (cell p ir)) rs)).
  { unfold present_rows in Hir. destruct asc; [exact Hir|]. now apply in_rev. }
  apply filter_In in H. destruct H as [Hin Hnn].
  rewrite Forall_forall in Hty. specialize (Hty ir Hin).
  unfold notnull in Hnn. now destruct (cell p ir).
Qed.

(** C4 (amended): for a column of a dataset whose columns have distinct
    names and hold values of their type, [sort_data] returns the rows of the
    dataset, all of them and no others, ordered by the value of the column:
    the rows with a value first, no row before a row with a lesser value
    (ascending) or with a greater value (descending), the rows with a
    missing value last.  Rows of equal value keep the order they had when
    the column holds text and the dataset has at most 17 rows. *)
Theorem sort_data_sorted df col asc p :
  well_formed df ->
  column_pos col (columns df) = Some p ->
  exists out,
    run_frame (fun r => sort_data numpy_argsort r col asc) df = Ok out /\
    columns out = columns df /\
    Permutation (rows out) (rows df) /\
    (exists present absent,
       rows out = present ++ absent /\
       Forall (fun ir => notnull (cell p ir) = true) present /\
       Forall (fun ir => isna (cell p ir) = true) absent /\
       ForallOrdPairs (fun a b => if asc then value_ltb b a = false
                                  else value_ltb a b = false)
                      (map (cell p) present)) /\
    (nth_error (columns df) p = Some (col, Object) ->
     (List.length (rows df) <= 17)%nat ->
     ties_kept p (rows df) (rows out)).
Proof.
  intros [_ Hwt] Hp.
  destruct (sort_data_by_contract numpy_argsort df col asc p Hp
              (numpy_argsort_sorts _ (sort_keys_present df col asc)))
    as [out [Hrun [Hcols [Hperm Hord]]]].
  exists out. repeat (split; [assumption|]).
  intros Hdt _.
  assert (Hout : rows out = sort_rows numpy_argsort p asc (rows df)).
  { unfold run_frame in Hrun.
    rewrite (sort_data_run numpy_argsort 0%nat df) in Hrun by reflexivity.
    unfold sort_values in Hrun. rewrite Hp in Hrun. cbn in Hrun.
    injection Hrun as <-. reflexivity. }
  assert (Hty : Forall (fun ir => cell_ok Object (cell p ir) = true) (rows df)).
  { apply Forall_forall. intros [i r] Hir. unfold cell. cbn [snd].
    eapply row_ok_cell; [|exact Hdt]. eapply well_typed_row; eauto. }
  rewrite Hout, sort_rows_text by exact Hty. now apply sort_rows_ties.
Qed.

Lemma sort_data_sorted_witness :
  exists out,
    run_frame (fun r => sort_data numpy_argsort r "name" false) names_frame = Ok out /\
    columns out = columns names_frame /\
    Permutation (rows out) (rows names_frame) /\
    (exists present absent,
       rows out = present ++ absent /\
       Forall (fun ir => notnull (cell 0 ir) = true) present /\
       Forall (fun ir => isna (cell 0 ir) = true) absent /\
       ForallOrdPairs (fun a b => value_ltb a b = false) (map (cell 0) present)) /\
    ties_kept 0 (rows names_frame) (rows out).
Proof.
  assert (Hwf : well_formed names_frame).
  { split.
    - repeat constructor; cbn; intuition discriminate.
    - repeat constructor. }
  destruct (sort_data_sorted names_frame "name" false 0 Hwf eq_refl)
    as [out [Hrun [Hcols [Hperm [Hord Hties]]]]].
  exists out.
  split; [exact Hrun|]. split; [exact Hcols|]. split; [exact Hperm|].
  split; [exact Hord|].
  apply Hties; [reflexivity|]. cbn. lia.
Defined.
